(** * quiz-app: the quiz text parser, the quiz session and the upload API

    A shallow embedding of
    - [parseQuizText], [startQuiz], [retakeQuiz], [selectAnswer],
      [nextQuestion], [prevQuestion], [calculateScore], [handleSubmit] and
      the other handlers of [App] (src/components/old.App.tsx.2);
    - the earlier parser [parseAIQuizText] (src/quiz_app.py.v1);
    - [parseFileExt], [validateFile] and both revisions of [extractText]
      (src/pages/api/generate-quiz.ts).

    JavaScript strings are sequences of UTF-16 code units; a code unit is a
    number in [N]. *)

From Stdlib Require Import String Ascii DecimalString.
From Stdlib Require Import List NArith ZArith Lia Bool Permutation.
From Equations Require Import Equations.
From Equations.Prop Require Import Logic.
Import ListNotations.

(** ** JavaScript strings *)

Module JS.

Definition jsstring := list N.

(** An ASCII literal as a sequence of code units. *)
Definition lit (s : string) : jsstring :=
  map N_of_ascii (list_ascii_of_string s).

Definition eqb (a b : jsstring) : bool :=
  if list_eq_dec N.eq_dec a b then true else false.

(** Truthiness of a string: a string is falsy exactly when it is empty. *)
Definition truthy (s : jsstring) : bool :=
  match s with [] => false | _ :: _ => true end.

(** WhiteSpace and LineTerminator code units of ECMAScript, the ones
    [String.prototype.trim] strips. *)
Definition is_ws (c : N) : bool :=
  ((9 <=? c) && (c <=? 13)            (* TAB, LF, VT, FF, CR *)
   || (c =? 32) || (c =? 160)          (* SPACE, NBSP *)
   || (c =? 5760)                      (* U+1680 *)
   || ((8192 <=? c) && (c <=? 8202))   (* U+2000 .. U+200A *)
   || (c =? 8232) || (c =? 8233)       (* LS, PS *)
   || (c =? 8239) || (c =? 8287)       (* U+202F, U+205F *)
   || (c =? 12288) || (c =? 65279))%N. (* U+3000, U+FEFF *)

Fixpoint trimStart (s : jsstring) : jsstring :=
  match s with
  | c :: s' => if is_ws c then trimStart s' else s
  | [] => []
  end.

Definition trimEnd (s : jsstring) : jsstring := rev (trimStart (rev s)).

Definition trim (s : jsstring) : jsstring := trimEnd (trimStart s).

Fixpoint startsWith (s prefix : jsstring) {struct prefix} : bool :=
  match prefix, s with
  | [], _ => true
  | p :: prefix', c :: s' => (c =? p)%N && startsWith s' prefix'
  | _ :: _, [] => false
  end.

(** [s.substring(n)] for [0 <= n]. *)
Definition substring (n : nat) (s : jsstring) : jsstring := skipn n s.

(** [s.split(sep)] for a one-unit separator; the result is never empty. *)
Fixpoint split (sep : N) (s : jsstring) : list jsstring :=
  match s with
  | [] => [[]]
  | c :: s' =>
      if (c =? sep)%N then [] :: split sep s'
      else match split sep s' with
           | l :: ls => (c :: l) :: ls
           | [] => [[c]]
           end
  end.

(** [toLowerCase] on the ASCII letters; other code units are kept (the case
    mappings of non-ASCII letters are outside this model). *)
Definition lower (c : N) : N :=
  if ((65 <=? c) && (c <=? 90))%N then (c + 32)%N else c.

Definition toLowerCase (s : jsstring) : jsstring := map lower s.

Definition LF : N := 10.

(** [arr.join(sep)] *)
Fixpoint join (sep : jsstring) (arr : list jsstring) : jsstring :=
  match arr with
  | [] => []
  | [x] => x
  | x :: rest => x ++ sep ++ join sep rest
  end.

(** A text given by its lines, joined by line feeds. *)
Definition unlines (lines : list string) : jsstring := join [LF] (map lit lines).

(** Every unit of [s] is white space. *)
Definition all_ws (s : jsstring) : bool := forallb is_ws s.

End JS.

(** ** The question marker [/Q\d+:/] and [String.prototype.split] on it *)

Module Marker.
Import JS.

Definition is_digit (c : N) : bool := ((48 <=? c) && (c <=? 57))%N.

Fixpoint skip_digits (s : jsstring) : jsstring :=
  match s with
  | c :: s' => if is_digit c then skip_digits s' else s
  | [] => []
  end.

(** A match of [Q\d+:] anchored at the start of [s]: the text after it.
    [\d+] is greedy and a shorter run of digits is followed by a digit, not
    by [:], so the only candidate is the longest run. *)
Definition match_marker (s : jsstring) : option jsstring :=
  match s with
  | q :: d :: s' =>
      if (q =? 81)%N && is_digit d then
        match skip_digits s' with
        | c :: r => if (c =? 58)%N then Some r else None
        | [] => None
        end
      else None
  | _ => None
  end.

(** The leftmost match in [s]: the text before it and the text after it. *)
Fixpoint find_marker (s : jsstring) : option (jsstring * jsstring) :=
  match match_marker s with
  | Some r => Some ([], r)
  | None =>
      match s with
      | [] => None
      | c :: s' =>
          match find_marker s' with
          | Some (b, a) => Some (c :: b, a)
          | None => None
          end
      end
  end.

(** [s.split(/Q\d+:/)]: the pieces between the successive leftmost matches;
    as the pattern has no capture group and matches no empty string, the
    pieces are exactly the texts between the matches. *)
Equations split_markers (s : jsstring) : list jsstring by wf (length s) lt :=
  split_markers s with inspect (find_marker s) := {
    | exist _ None _ => [s]
    | exist _ (Some (b, a)) H => b :: split_markers a }.
Next Obligation.
  clear split_markers.
  assert (Hskip : forall t, length (skip_digits t) <= length t).
  { induction t as [|c t IH]; simpl; [lia|]. destruct (is_digit c); simpl; lia. }
  assert (Hmatch : forall t r, match_marker t = Some r -> length r < length t).
  { intros [|q [|d t]] r; simpl; try discriminate.
    destruct ((q =? 81)%N && is_digit d); try discriminate.
    specialize (Hskip t). destruct (skip_digits t) as [|c r']; try discriminate.
    destruct (c =? 58)%N; try discriminate. intros [= <-]. simpl in Hskip. lia. }
  revert b H. induction s as [|c s IH]; intros b.
  - simpl. discriminate.
  - cbn [find_marker]. destruct (match_marker (c :: s)) as [r|] eqn:E.
    + intros [= _ <-]. now apply Hmatch.
    + destruct (find_marker s) as [[b' a']|]; try discriminate.
      intros [= _ <-]. specialize (IH _ eq_refl). simpl. lia.
Qed.

(** [Q\d+:] matches somewhere in [s]. *)
Fixpoint has_marker (s : jsstring) : bool :=
  match s with
  | [] => false
  | _ :: s' =>
      match match_marker s with Some _ => true | None => false end || has_marker s'
  end.

(** The text after a piece: nothing, or a marker, which starts with [Q]. *)
Definition at_marker_or_end (rest : jsstring) : bool :=
  match rest with
  | [] => true
  | c :: _ => (c =? 81)%N
  end.

End Marker.

(** ** The quiz text parser (old.App.tsx.2, [parseQuizText]) *)

Module Parser.
Import JS Marker.

Record Options := mkOptions
  { optA : jsstring; optB : jsstring; optC : jsstring; optD : jsstring }.

Record Question := mkQuestion
  { id : nat;
    question : jsstring;
    options : Options;
    correctAnswer : jsstring;
    explanation : jsstring }.

(** The locals [options], [correctAnswer] and [explanation] that the
    callback of [lines.forEach] assigns. *)
Record Scan := mkScan
  { sc_options : Options;
    sc_correctAnswer : jsstring;
    sc_explanation : jsstring }.

Definition scan_init : Scan := mkScan (mkOptions [] [] [] []) [] [].

Definition set_A (v : jsstring) (st : Scan) : Scan :=
  let o := sc_options st in
  mkScan (mkOptions v (optB o) (optC o) (optD o)) (sc_correctAnswer st) (sc_explanation st).
Definition set_B (v : jsstring) (st : Scan) : Scan :=
  let o := sc_options st in
  mkScan (mkOptions (optA o) v (optC o) (optD o)) (sc_correctAnswer st) (sc_explanation st).
Definition set_C (v : jsstring) (st : Scan) : Scan :=
  let o := sc_options st in
  mkScan (mkOptions (optA o) (optB o) v (optD o)) (sc_correctAnswer st) (sc_explanation st).
Definition set_D (v : jsstring) (st : Scan) : Scan :=
  let o := sc_options st in
  mkScan (mkOptions (optA o) (optB o) (optC o) v) (sc_correctAnswer st) (sc_explanation st).
Definition set_correctAnswer (v : jsstring) (st : Scan) : Scan :=
  mkScan (sc_options st) v (sc_explanation st).
Definition set_explanation (v : jsstring) (st : Scan) : Scan :=
  mkScan (sc_options st) (sc_correctAnswer st) v.

(** The body of [lines.forEach(line => ...)]. *)
Definition scan_line (st : Scan) (line : jsstring) : Scan :=
  let trimmedLine := trim line in
  if startsWith trimmedLine (lit "A.") then set_A (trim (substring 2 trimmedLine)) st
  else if startsWith trimmedLine (lit "B.") then set_B (trim (substring 2 trimmedLine)) st
  else if startsWith trimmedLine (lit "C.") then set_C (trim (substring 2 trimmedLine)) st
  else if startsWith trimmedLine (lit "D.") then set_D (trim (substring 2 trimmedLine)) st
  else if startsWith trimmedLine (lit "Answer:") then
    set_correctAnswer (trim (substring 7 trimmedLine)) st
  else if startsWith trimmedLine (lit "Explanation:") then
    set_explanation (trim (substring 12 trimmedLine)) st
  else st.

(** [block.trim().split('\n').filter(line => line.trim())] *)
Definition block_lines (block : jsstring) : list jsstring :=
  filter (fun line => truthy (trim line)) (split LF (trim block)).

(** The body of [questionBlocks.forEach((block, index) => ...)]; [questions]
    is the array the callback pushes to. *)
Definition process_block (index : nat) (block : jsstring) (questions : list Question)
  : list Question :=
  if (index =? 0)%nat || negb (truthy (trim block)) then questions
  else
    let lines := block_lines block in
    if (length lines <? 6)%nat then questions
    else
      let questionText := trim (nth 0 lines []) in
      let st := fold_left scan_line lines scan_init in
      let options := sc_options st in
      let correctAnswer := sc_correctAnswer st in
      if truthy questionText && truthy (optA options) && truthy (optB options)
         && truthy (optC options) && truthy (optD options) && truthy correctAnswer
      then questions ++ [mkQuestion index questionText options correctAnswer
                                    (sc_explanation st)]
      else questions.

Fixpoint forEach_blocks (index : nat) (blocks : list jsstring) (questions : list Question)
  : list Question :=
  match blocks with
  | [] => questions
  | block :: rest => forEach_blocks (S index) rest (process_block index block questions)
  end.

Definition parseQuizText (quizText : jsstring) : list Question :=
  let questionBlocks := split_markers quizText in
  forEach_blocks 0 questionBlocks [].

(** *** The same parser, read from the trimmed lines of a block *)

(** [scan_line] on a line that is already trimmed. *)
Definition scan_trimmed (st : Scan) (trimmedLine : jsstring) : Scan :=
  if startsWith trimmedLine (lit "A.") then set_A (trim (substring 2 trimmedLine)) st
  else if startsWith trimmedLine (lit "B.") then set_B (trim (substring 2 trimmedLine)) st
  else if startsWith trimmedLine (lit "C.") then set_C (trim (substring 2 trimmedLine)) st
  else if startsWith trimmedLine (lit "D.") then set_D (trim (substring 2 trimmedLine)) st
  else if startsWith trimmedLine (lit "Answer:") then
    set_correctAnswer (trim (substring 7 trimmedLine)) st
  else if startsWith trimmedLine (lit "Explanation:") then
    set_explanation (trim (substring 12 trimmedLine)) st
  else st.

(** The test before [questions.push]. *)
Definition complete (questionText : jsstring) (st : Scan) : bool :=
  truthy questionText && truthy (optA (sc_options st)) && truthy (optB (sc_options st))
  && truthy (optC (sc_options st)) && truthy (optD (sc_options st))
  && truthy (sc_correctAnswer st).

Definition assemble (index : nat) (lines : list jsstring) (questions : list Question)
  : list Question :=
  if (length lines <? 6)%nat then questions
  else
    let st := fold_left scan_trimmed lines scan_init in
    if complete (nth 0 lines []) st
    then questions ++ [mkQuestion index (nth 0 lines []) (sc_options st)
                                  (sc_correctAnswer st) (sc_explanation st)]
    else questions.

(** The trimmed non-blank lines of a text. *)
Definition trimmed_lines (s : jsstring) : list jsstring :=
  filter truthy (map trim (split LF s)).

(** [v] is the trimmed text after [prefix], [n] units long, on a line. *)
Definition from_line (prefix : jsstring) (n : nat) (lines : list jsstring) (v : jsstring)
  : Prop :=
  exists l, In l lines /\ startsWith (trim l) prefix = true
            /\ v = trim (substring n (trim l)).

Definition scan_sound (lines : list jsstring) (st : Scan) : Prop :=
  (optA (sc_options st) = [] \/ from_line (lit "A.") 2 lines (optA (sc_options st)))
  /\ (optB (sc_options st) = [] \/ from_line (lit "B.") 2 lines (optB (sc_options st)))
  /\ (optC (sc_options st) = [] \/ from_line (lit "C.") 2 lines (optC (sc_options st)))
  /\ (optD (sc_options st) = [] \/ from_line (lit "D.") 2 lines (optD (sc_options st)))
  /\ (sc_correctAnswer st = []
      \/ from_line (lit "Answer:") 7 lines (sc_correctAnswer st)).

(** [v] starts with the first unit that is not white space after [Answer:]
    on a line. *)
Definition answer_from (lines : list jsstring) (v : jsstring) : Prop :=
  exists l, In l lines /\ startsWith (trim l) (lit "Answer:") = true
            /\ hd_error v = hd_error (trim (substring 7 (trim l))).

(** What it takes for a block to give the question [q]. *)
Definition produced (index : nat) (block : jsstring) (q : Question) : Prop :=
  let lines := block_lines block in
  index <> 0
  /\ id q = index
  /\ 6 <= length lines
  /\ question q = trim (nth 0 lines [])
  /\ question q <> []
  /\ (optA (options q) <> [] /\ from_line (lit "A.") 2 lines (optA (options q)))
  /\ (optB (options q) <> [] /\ from_line (lit "B.") 2 lines (optB (options q)))
  /\ (optC (options q) <> [] /\ from_line (lit "C.") 2 lines (optC (options q)))
  /\ (optD (options q) <> [] /\ from_line (lit "D.") 2 lines (optD (options q)))
  /\ (correctAnswer q <> [] /\ from_line (lit "Answer:") 7 lines (correctAnswer q)).

(** The answer is one of the letters A, B, C, D. *)
Definition letter_A_to_D (s : jsstring) : bool :=
  JS.eqb s (lit "A") || JS.eqb s (lit "B") || JS.eqb s (lit "C") || JS.eqb s (lit "D").

End Parser.

(** ** The earlier parser (quiz_app.py.v1, [parseAIQuizText]) *)

Module LegacyParser.
Import JS Marker Parser.

(** [answer] holds a string, or [undefined] ([None]) when [trim()[0]] reads
    past the end of an empty string. *)
Record QuizQuestion := mkQuizQuestion
  { qq_question : jsstring;
    qq_options : list jsstring;
    qq_answer : option jsstring }.

(** [/^[A-D]\./.test(s)] *)
Definition option_line (s : jsstring) : bool :=
  match s with
  | c :: d :: _ => ((65 <=? c) && (c <=? 68) && (d =? 46))%N
  | _ => false
  end.

(** [/^Answer:/i.test(s)]: without the [u] flag only ASCII letters match an
    ASCII letter of the other case. *)
Definition answer_line (s : jsstring) : bool :=
  JS.eqb (toLowerCase (firstn 7 s)) (lit "answer:").

(** [s.replace(/^Q[0-9]+:\s*/, "")] *)
Definition strip_marker (s : jsstring) : jsstring :=
  match match_marker s with
  | Some r => trimStart r
  | None => s
  end.

(** The [for] loop over [lines[idx + 1]] .. [lines[idx + 4]]. *)
Definition options_at (lines : list jsstring) : list jsstring :=
  flat_map (fun o => match nth_error lines o with
                     | Some l => if option_line l then [trim (substring 2 l)] else []
                     | None => []
                     end) [1; 2; 3; 4].

Definition answer_at (lines : list jsstring) : option jsstring :=
  match nth_error lines 5 with
  | Some l =>
      if answer_line l
      then match trim (skipn 7 l) with
           | c :: _ => Some [c]
           | [] => None
           end
      else Some []
  | None => Some []
  end.

(** The [while] loop; [lines] is [lines.slice(idx)]. *)
Equations parse_lines (lines : list jsstring) : list QuizQuestion by wf (length lines) lt :=
  parse_lines [] := [];
  parse_lines (l :: rest) :=
    if startsWith l (lit "Q")
    then mkQuizQuestion (strip_marker l) (options_at (l :: rest)) (answer_at (l :: rest))
         :: parse_lines (skipn 5 rest)
    else parse_lines rest.
Next Obligation.
  change (length (skipn 5 rest) < S (length rest)). rewrite length_skipn. lia.
Qed.

Definition parseAIQuizText (quiz : jsstring) : list QuizQuestion :=
  parse_lines (filter truthy (map trim (split LF quiz))).

End LegacyParser.

(** ** The raw quiz text: blocks between markers (the format the prompt asks for) *)

Module Grammar.
Import JS Marker Parser.

(** A block as the grammar of the prompt writes it: the digits of its
    marker, the question line, the four option lines, the answer line, an
    optional explanation line, and what follows up to the next marker. *)
Record Block := mkBlock
  { b_number : jsstring;
    b_question : jsstring;
    b_A : jsstring;
    b_B : jsstring;
    b_C : jsstring;
    b_D : jsstring;
    b_answer : jsstring;
    b_explanation : option jsstring;
    b_trailing : jsstring }.

Definition marker (number : jsstring) : jsstring := (81 :: number ++ [58])%N.

Definition explanation_line (b : Block) : jsstring :=
  match b_explanation b with
  | Some e => LF :: (lit "Explanation:" ++ e)
  | None => []
  end.

Definition block_core (b : Block) : jsstring :=
  b_question b ++ LF :: (lit "A." ++ b_A b) ++ LF :: (lit "B." ++ b_B b)
  ++ LF :: (lit "C." ++ b_C b) ++ LF :: (lit "D." ++ b_D b)
  ++ LF :: (lit "Answer:" ++ b_answer b) ++ explanation_line b.

(** The text of a block after its marker: the lines in the order of the
    grammar, each option and the answer right after its prefix. *)
Definition block_body (b : Block) : jsstring := block_core b ++ b_trailing b.

(** A marker number is a run of one or more digits. *)
Definition number_ok (number : jsstring) : bool :=
  truthy number && forallb is_digit number.

Definition one_line (t : jsstring) : bool := negb (existsb (N.eqb LF) t).

Definition nonblank (t : jsstring) : bool := truthy (trim t).

(** A block is well formed when its number is a run of digits, the question,
    the options and the answer are each on one line and not blank, the
    explanation, if any, is on one line, only white space follows the last
    line, and the marker pattern matches nowhere in the block's text (a
    match would start another block). *)
Definition well_formed (b : Block) : bool :=
  number_ok (b_number b)
  && one_line (b_question b) && nonblank (b_question b)
  && one_line (b_A b) && nonblank (b_A b)
  && one_line (b_B b) && nonblank (b_B b)
  && one_line (b_C b) && nonblank (b_C b)
  && one_line (b_D b) && nonblank (b_D b)
  && one_line (b_answer b) && nonblank (b_answer b)
  && match b_explanation b with Some e => one_line e | None => true end
  && all_ws (b_trailing b)
  && negb (has_marker (block_body b)).

(** The explanation a question line leaves behind when it starts with
    [Explanation:] itself and no explanation line follows. *)
Definition stray_explanation (t : jsstring) : jsstring :=
  if startsWith t (lit "Explanation:") then trim (substring 12 t) else [].

Definition question_of (index : nat) (b : Block) : Question :=
  mkQuestion index (trim (b_question b))
             (mkOptions (trim (b_A b)) (trim (b_B b)) (trim (b_C b)) (trim (b_D b)))
             (trim (b_answer b))
             (match b_explanation b with
              | Some e => trim e
              | None => stray_explanation (trim (b_question b))
              end).

(** Every unit of a prefix is visible: no white space, so no line feed. *)
Definition solid (p : jsstring) : bool := forallb (fun c => negb (is_ws c)) p.

(** What lies between two markers, or after the last one: a well-formed
    block, or a text in which no line starts with the prefix of one of the
    options or of the answer. *)
Inductive Segment :=
| Good (b : Block)
| Bad (number body : jsstring).

(** No line of the block starts with [prefix]. *)
Definition lacks_line (prefix body : jsstring) : bool :=
  forallb (fun l => negb (startsWith (trim l) prefix)) (block_lines body).

(** The block has no line for one of the options or for the answer. *)
Definition lacking (body : jsstring) : bool :=
  existsb (fun prefix => lacks_line prefix body)
          [lit "A."; lit "B."; lit "C."; lit "D."; lit "Answer:"].

Definition segment_number (seg : Segment) : jsstring :=
  match seg with Good b => b_number b | Bad number _ => number end.

Definition segment_body (seg : Segment) : jsstring :=
  match seg with Good b => block_body b | Bad _ body => body end.

Definition segment_ok (seg : Segment) : bool :=
  match seg with
  | Good b => well_formed b
  | Bad number body => number_ok number && negb (has_marker body) && lacking body
  end.

Definition render (seg : Segment) : jsstring :=
  marker (segment_number seg) ++ segment_body seg.

Definition document (preamble : jsstring) (segs : list Segment) : jsstring :=
  preamble ++ concat (map render segs).

(** The questions of the well-formed blocks, each with its position among
    all the blocks as identifier. *)
Fixpoint expected (index : nat) (segs : list Segment) : list Question :=
  match segs with
  | [] => []
  | Good b :: rest => question_of index b :: expected (S index) rest
  | Bad _ _ :: rest => expected (S index) rest
  end.

(** *** Sample blocks *)

Definition block_paris : Block :=
  mkBlock (lit "1") (lit " What is the capital of France?")
          (lit " Lyon") (lit " Paris") (lit " Nice") (lit " Lille") (lit " B")
          (Some (lit " Paris is the seat of the government.")) [LF; LF].

Definition block_rome : Block :=
  mkBlock (lit "2") (lit " What is the capital of Italy?")
          (lit " Rome") (lit " Milan") (lit " Turin") (lit " Pisa") (lit " A")
          None [].

Definition block_berlin : Block :=
  mkBlock (lit "3") (lit " What is the capital of Germany?")
          (lit " Bonn") (lit " Hamburg") (lit " Berlin  ") (lit " Munich") (lit " C")
          (Some (lit " Berlin has been the capital since 1990.")) [LF].

(** A block without its line for option D. *)
Definition body_without_D : jsstring :=
  unlines [" What is the capital of Spain?"; "A. Madrid"; "B. Seville"; "C. Bilbao";
           "Answer: A"; "Explanation: Madrid is the capital."; ""]%string.

End Grammar.

(** ** The quiz session (old.App.tsx.2, the state of [App] and its handlers) *)

Module Session.
Import JS Parser.

Record UserAnswer := mkUserAnswer
  { questionId : nat; selectedAnswer : jsstring }.

(** The browser's [File]: the fields the component reads. *)
Record File := mkFile { file_name : jsstring; file_size : N }.

(** The [useState] cells of [App]. *)
Record State := mkState
  { file : option File;
    numQuestions : Z;
    loading : bool;
    error : jsstring;
    uploadProgress : Z;
    fullQuizData : list Question;
    currentQuiz : list Question;
    currentQuestionIndex : nat;
    userAnswers : list UserAnswer;
    quizCompleted : bool;
    showResults : bool }.

Definition initial_state : State :=
  mkState None 5 false [] 0 [] [] 0 [] false false.

Definition setFile v s :=
  mkState v (numQuestions s) (loading s) (error s) (uploadProgress s) (fullQuizData s)
          (currentQuiz s) (currentQuestionIndex s) (userAnswers s) (quizCompleted s)
          (showResults s).
Definition setNumQuestions v s :=
  mkState (file s) v (loading s) (error s) (uploadProgress s) (fullQuizData s)
          (currentQuiz s) (currentQuestionIndex s) (userAnswers s) (quizCompleted s)
          (showResults s).
Definition setLoading v s :=
  mkState (file s) (numQuestions s) v (error s) (uploadProgress s) (fullQuizData s)
          (currentQuiz s) (currentQuestionIndex s) (userAnswers s) (quizCompleted s)
          (showResults s).
Definition setError v s :=
  mkState (file s) (numQuestions s) (loading s) v (uploadProgress s) (fullQuizData s)
          (currentQuiz s) (currentQuestionIndex s) (userAnswers s) (quizCompleted s)
          (showResults s).
Definition setUploadProgress v s :=
  mkState (file s) (numQuestions s) (loading s) (error s) v (fullQuizData s)
          (currentQuiz s) (currentQuestionIndex s) (userAnswers s) (quizCompleted s)
          (showResults s).
Definition setFullQuizData v s :=
  mkState (file s) (numQuestions s) (loading s) (error s) (uploadProgress s) v
          (currentQuiz s) (currentQuestionIndex s) (userAnswers s) (quizCompleted s)
          (showResults s).
Definition setCurrentQuiz v s :=
  mkState (file s) (numQuestions s) (loading s) (error s) (uploadProgress s) (fullQuizData s)
          v (currentQuestionIndex s) (userAnswers s) (quizCompleted s) (showResults s).
Definition setCurrentQuestionIndex v s :=
  mkState (file s) (numQuestions s) (loading s) (error s) (uploadProgress s) (fullQuizData s)
          (currentQuiz s) v (userAnswers s) (quizCompleted s) (showResults s).
Definition setUserAnswers v s :=
  mkState (file s) (numQuestions s) (loading s) (error s) (uploadProgress s) (fullQuizData s)
          (currentQuiz s) (currentQuestionIndex s) v (quizCompleted s) (showResults s).
Definition setQuizCompleted v s :=
  mkState (file s) (numQuestions s) (loading s) (error s) (uploadProgress s) (fullQuizData s)
          (currentQuiz s) (currentQuestionIndex s) (userAnswers s) v (showResults s).
Definition setShowResults v s :=
  mkState (file s) (numQuestions s) (loading s) (error s) (uploadProgress s) (fullQuizData s)
          (currentQuiz s) (currentQuestionIndex s) (userAnswers s) (quizCompleted s) v.

(** [arr.slice(0, end)] for an integer [end]: a negative [end] counts from
    the end of the array. *)
Definition slice0 {A} (l : list A) (end_ : Z) : list A :=
  if (end_ <? 0)%Z then firstn (Z.to_nat (Z.max (Z.of_nat (length l) + end_) 0)) l
  else firstn (Z.to_nat end_) l.

(** [userAnswers.find(a => a.questionId === qid)] *)
Definition find_answer (qid : nat) (answers : list UserAnswer) : option UserAnswer :=
  find (fun a => (questionId a =? qid)%nat) answers.

(** [resetAll]; the delayed reset of the file input element is no part of
    the state. *)
Definition resetAll (s : State) : State :=
  setNumQuestions 5
    (setUploadProgress 0 (setLoading false (setError []
      (setShowResults false (setQuizCompleted false (setUserAnswers []
        (setCurrentQuestionIndex 0 (setCurrentQuiz [] (setFullQuizData []
          (setFile None s)))))))))).

Definition resetQuiz (s : State) : State :=
  setError [] (setShowResults false (setQuizCompleted false
    (setUserAnswers [] (setCurrentQuestionIndex 0 s)))).

Definition handleFileChange (selectedFile : option File) (s : State) : State :=
  match selectedFile with
  | Some f => resetQuiz (setError [] (setFile (Some f) s))
  | None => s
  end.

Definition retakeQuiz (s : State) : State :=
  setShowResults false (setQuizCompleted false
    (setUserAnswers [] (setCurrentQuestionIndex 0 s))).

(** [selectAnswer] reads [currentQuestion.id]: on an index outside
    [currentQuiz] that is a TypeError, here [None]. *)
Definition selectAnswer (answer : jsstring) (s : State) : option State :=
  match nth_error (currentQuiz s) (currentQuestionIndex s) with
  | Some currentQuestion =>
      let newAnswers :=
        filter (fun a => negb (questionId a =? id currentQuestion)%nat) (userAnswers s) in
      Some (setUserAnswers (newAnswers ++ [mkUserAnswer (id currentQuestion) answer]) s)
  | None => None
  end.

Definition nextQuestion (s : State) : State :=
  if (Z.of_nat (currentQuestionIndex s) <? Z.of_nat (length (currentQuiz s)) - 1)%Z
  then setCurrentQuestionIndex (currentQuestionIndex s + 1) s
  else setShowResults true (setQuizCompleted true s).

Definition prevQuestion (s : State) : State :=
  if (0 <? currentQuestionIndex s)%nat
  then setCurrentQuestionIndex (currentQuestionIndex s - 1) s
  else s.

(** [calculateScore]: the loop over [currentQuiz] with the counter
    [correct]. It calls no setter. *)
Definition calculateScore (s : State) : nat :=
  fold_left
    (fun correct question =>
       match find_answer (id question) (userAnswers s) with
       | Some userAnswer =>
           if JS.eqb (selectedAnswer userAnswer) (correctAnswer question)
           then S correct else correct
       | None => correct
       end)
    (currentQuiz s) 0.

(** What the results view renders:
    [{calculateScore()}/{currentQuiz.length}]. *)
Definition score (s : State) : nat * nat :=
  (calculateScore s, length (currentQuiz s)).

(** [calculateScore] as an operation on the session: the value rendered and
    the state after the call, which is the state before it. *)
Definition Score (s : State) : (nat * nat) * State := (score s, s).

(** What [fetch] and the two [res.json()] calls of [handleSubmit] produce. *)
Inductive Response :=
| Rejected (message : jsstring)     (* fetch or json() throws *)
| NotOk (message : jsstring)        (* !res.ok: errorData.error or the status line *)
| Quiz (quiz : jsstring).           (* data.quiz *)

Section Random.

(** [[...questions].sort(() => Math.random() - 0.5)]: the comparator answers
    at random, so which order comes out depends on the engine's sorting
    algorithm and on the random draws [r]. The properties below ask of it
    only that it permutes its input, as the sort of every engine does. *)
Variable Rand : Type.
Variable sort_random : Rand -> list Question -> list Question.

Definition startQuiz (r : Rand) (questions : list Question) (s : State) : State :=
  let shuffled := sort_random r questions in
  let selectedQuestions := slice0 shuffled (numQuestions s) in
  setShowResults false (setQuizCompleted false (setUserAnswers []
    (setCurrentQuestionIndex 0 (setCurrentQuiz selectedQuestions s)))).

(** The [try] block of [handleSubmit] after the form data is built: the
    state its setter calls leave, and the message of the [Error] thrown in
    it, if any. (The ticks of the progress timer are left out; [finally]
    overwrites [uploadProgress].) *)
Definition submit_try (r : Rand) (resp : Response) (s : State) : State * option jsstring :=
  match resp with
  | Rejected message => (s, Some message)
  | NotOk message => (setUploadProgress 100 s, Some message)
  | Quiz quiz =>
      let s := setUploadProgress 100 s in
      let parsedQuestions := parseQuizText quiz in
      if (length parsedQuestions =? 0)%nat
      then (s, Some (lit "No valid questions could be parsed from the generated quiz"))
      else (startQuiz r parsedQuestions (setFullQuizData parsedQuestions s), None)
  end.

Definition handleSubmit (r : Rand) (resp : Response) (s : State) : State :=
  match file s with
  | None => setError (lit "Please select a file") s
  | Some _ =>
      let s := resetQuiz (setUploadProgress 0 (setError [] (setLoading true s))) in
      let s := match submit_try r resp s with
               | (s', None) => s'
               | (s', Some message) => setError message s'   (* catch *)
               end in
      setUploadProgress 0 (setLoading false s)               (* finally *)
  end.

(** *** The session as a machine driven by the page *)

(** What a signed-in user can do on the page: the controls of its three
    sections. [Submit] carries what the server answers and the random draws
    of the shuffle. *)
Inductive Action :=
| ChooseFile (f : File)
| ChooseNumQuestions (n : Z)
| Submit (r : Rand) (resp : Response)
| SelectAnswer (key : jsstring)
| NextQuestion
| PrevQuestion
| RetakeQuiz
| StartNewQuiz (r : Rand)
| UploadNew.

(** The three sections of the page and when each is rendered. *)
Definition upload_visible (s : State) : bool :=
  (length (currentQuiz s) =? 0)%nat && negb (showResults s).

Definition quiz_visible (s : State) : bool :=
  (0 <? length (currentQuiz s))%nat && negb (showResults s)
  && (currentQuestionIndex s <? length (currentQuiz s))%nat.

Definition results_visible (s : State) : bool := showResults s.

(** [currentUserAnswer] is set. *)
Definition current_answered (s : State) : bool :=
  match nth_error (currentQuiz s) (currentQuestionIndex s) with
  | Some currentQuestion =>
      match find_answer (id currentQuestion) (userAnswers s) with
      | Some _ => true
      | None => false
      end
  | None => false
  end.

(** One event of the page; a control that is not rendered or is disabled
    leaves the state as it is. *)
Definition step (s : State) (a : Action) : State :=
  match a with
  | ChooseFile f =>
      if upload_visible s && negb (loading s) then handleFileChange (Some f) s else s
  | ChooseNumQuestions n =>
      if upload_visible s && negb (loading s)
         && existsb (Z.eqb n) [3; 5; 7; 10]%Z
      then setNumQuestions n s else s
  | Submit r resp =>
      if upload_visible s && negb (loading s)
         && match file s with Some _ => true | None => false end
      then handleSubmit r resp s else s
  | SelectAnswer key =>
      if quiz_visible s
      then match selectAnswer key s with Some s' => s' | None => s end
      else s
  | NextQuestion =>
      if quiz_visible s && current_answered s then nextQuestion s else s
  | PrevQuestion =>
      if quiz_visible s && negb (currentQuestionIndex s =? 0)%nat then prevQuestion s else s
  | RetakeQuiz => if results_visible s then retakeQuiz s else s
  | StartNewQuiz r => if results_visible s then startQuiz r (fullQuizData s) s else s
  | UploadNew => if results_visible s then resetAll s else s
  end.

Definition run (s : State) (actions : list Action) : State :=
  fold_left step actions s.

(** The answers recorded since the answer list was last emptied, oldest
    first: a history kept beside the state, which the code does not store. *)
Definition record (s : State) (a : Action) (log : list (nat * jsstring))
  : list (nat * jsstring) :=
  match a with
  | SelectAnswer key =>
      if quiz_visible s
      then match nth_error (currentQuiz s) (currentQuestionIndex s) with
           | Some currentQuestion => log ++ [(id currentQuestion, key)]
           | None => log
           end
      else log
  | ChooseFile _ => if upload_visible s && negb (loading s) then [] else log
  | Submit _ _ =>
      if upload_visible s && negb (loading s)
         && match file s with Some _ => true | None => false end
      then [] else log
  | RetakeQuiz | StartNewQuiz _ | UploadNew => if results_visible s then [] else log
  | ChooseNumQuestions _ | NextQuestion | PrevQuestion => log
  end.

Fixpoint history (s : State) (actions : list Action) (log : list (nat * jsstring))
  : list (nat * jsstring) :=
  match actions with
  | [] => log
  | a :: rest => history (step s a) rest (record s a log)
  end.

(** The letter most recently recorded for question [qid]. *)
Definition most_recent (qid : nat) (log : list (nat * jsstring)) : option jsstring :=
  option_map snd (find (fun e => (fst e =? qid)%nat) (rev log)).

End Random.

Arguments startQuiz {Rand}.
Arguments submit_try {Rand}.
Arguments handleSubmit {Rand}.
Arguments step {Rand}.
Arguments run {Rand}.
Arguments record {Rand}.
Arguments history {Rand}.
Arguments ChooseFile {Rand}.
Arguments ChooseNumQuestions {Rand}.
Arguments Submit {Rand}.
Arguments SelectAnswer {Rand}.
Arguments StartNewQuiz {Rand}.
Arguments NextQuestion {Rand}.
Arguments PrevQuestion {Rand}.
Arguments RetakeQuiz {Rand}.
Arguments UploadNew {Rand}.

Inductive Phase := Idle | InProgress | Completed.

Definition phase (s : State) : Phase :=
  if showResults s then Completed
  else if (0 <? length (currentQuiz s))%nat
          && (currentQuestionIndex s <? length (currentQuiz s))%nat
       then InProgress
       else Idle.

(** An instance of the random sort: insertion sort, every comparison decided
    by the next draw ([true]: the comparator returned a positive number). *)
Fixpoint insert_random (x : Question) (l : list Question) (draws : list bool)
  : list Question * list bool :=
  match l with
  | [] => ([x], draws)
  | y :: l' =>
      match draws with
      | true :: draws' =>
          let (l'', draws'') := insert_random x l' draws' in (y :: l'', draws'')
      | _ :: draws' => (x :: y :: l', draws')
      | [] => (x :: y :: l', [])
      end
  end.

Fixpoint insertion_sort_random (draws : list bool) (l : list Question)
  : list Question * list bool :=
  match l with
  | [] => ([], draws)
  | x :: l' =>
      let (sorted, draws') := insertion_sort_random draws l' in
      insert_random x sorted draws'
  end.

Definition insertion_shuffle (draws : list bool) (l : list Question) : list Question :=
  fst (insertion_sort_random draws l).

(** *** What the proofs keep track of *)

(** The test of [calculateScore] on one question. *)
Definition answered_correctly (answers : list UserAnswer) (q : Question) : bool :=
  match find_answer (id q) answers with
  | Some userAnswer => JS.eqb (selectedAnswer userAnswer) (correctAnswer q)
  | None => false
  end.

(** The answer list holds, for each question, the letter recorded last. *)
Definition answers_match (s : State) (log : list (nat * jsstring)) : Prop :=
  forall qid,
    option_map selectedAnswer (find_answer qid (userAnswers s)) = most_recent qid log.

(** A session shows results only after a quiz was sampled. *)
Definition sampled_when_completed (s : State) : Prop :=
  showResults s = true -> currentQuiz s <> [].

(** *** A sample run *)

Definition sample_quiz : jsstring :=
  Grammar.document [] [Grammar.Good Grammar.block_paris; Grammar.Good Grammar.block_rome].

Definition sample_file : File := mkFile (lit "notes.txt") 1200.

(** Choose a file, submit, answer B then A on the first question shown, go
    on, answer B on the second, finish. *)
Definition sample_run : list (Action (list bool)) :=
  [ChooseFile sample_file; Submit [true; false] (Quiz sample_quiz);
   SelectAnswer (lit "B"); SelectAnswer (lit "A"); NextQuestion;
   SelectAnswer (lit "B"); NextQuestion].

End Session.

(** ** The upload API (pages/api/generate-quiz.ts) *)

Module Api.
Import JS.

Record UploadedFile := mkUploadedFile
  { originalFilename : option jsstring;
    filepath : jsstring;
    size : option N }.

(** A call either returns or throws an [Error] with a message. *)
Inductive result (A : Type) :=
| Ok (value : A)
| Throw (message : jsstring).
Arguments Ok {A} value.
Arguments Throw {A} message.

Definition ALLOWED_EXTENSIONS : list jsstring :=
  [lit "pdf"; lit "docx"; lit "txt"; lit "rtf"; lit "jpg"; lit "jpeg"; lit "png"].

Definition MAX_FILE_SIZE : N := 10 * 1024 * 1024.

(** [arr.includes(x)] on an array of strings. *)
Definition includes (arr : list jsstring) (x : jsstring) : bool := existsb (JS.eqb x) arr.

(** [arr.pop()] of a fresh array: its last element, [undefined] on [[]]. *)
Definition pop (arr : list jsstring) : option jsstring :=
  match rev arr with
  | x :: _ => Some x
  | [] => None
  end.

(** [fileName.split('.').pop()?.toLowerCase() || ""] *)
Definition parseFileExt (fileName : jsstring) : jsstring :=
  match pop (split 46 fileName) with
  | Some last_ => let l := toLowerCase last_ in if truthy l then l else []
  | None => []
  end.

Definition upper (c : N) : N :=
  if ((97 <=? c) && (c <=? 122))%N then (c - 32)%N else c.

Definition toUpperCase (s : jsstring) : jsstring := map upper s.

Definition decimal (n : N) : jsstring :=
  lit (DecimalString.NilZero.string_of_uint (N.to_uint n)).

(** [(size / 1024 / 1024).toFixed(1)] for a byte count: both divisions are
    exact in binary floating point, and [toFixed(1)] takes the nearest
    tenth, the larger one on a tie. *)
Definition megabytes_toFixed1 (size : N) : jsstring :=
  let tenths := ((20 * size + 2 ^ 20) / 2 ^ 21)%N in
  decimal (tenths / 10) ++ lit "." ++ decimal (tenths mod 10).

Definition validateFile (file : UploadedFile) : result unit :=
  match originalFilename file with
  | None => Throw (lit "File name is required")
  | Some fileName =>
      if negb (truthy fileName) then Throw (lit "File name is required")
      else
        let ext := parseFileExt fileName in
        if negb (includes ALLOWED_EXTENSIONS ext)
        then Throw (lit "Unsupported file type: " ++ ext ++ lit ". Allowed: "
                    ++ join (lit ", ") ALLOWED_EXTENSIONS)
        else
          match size file with
          | Some sz =>
              if negb (sz =? 0)%N && (MAX_FILE_SIZE <? sz)%N
              then Throw (lit "File too large: " ++ megabytes_toFixed1 sz
                          ++ lit "MB. Max: 10MB")
              else Ok tt
          | None => Ok tt
          end
  end.

(** *** Effects of [extractText] *)

(** The calls [extractText] makes on the file system and on the libraries,
    in the order they happen. *)
Inductive Event :=
| ReadFileSync
| PdfParse
| ExtractRawText
| CreateWorker
| Recognize
| Terminate.

(** What each of those calls does for the request at hand. *)
Record World := mkWorld
  { readFileSync : result unit;          (* the buffer, or ENOENT and the like *)
    utf8 : jsstring;                     (* buffer.toString("utf-8") *)
    pdfParse : result jsstring;          (* pdfData.text *)
    extractRawText : result jsstring;    (* docxResult.value *)
    createWorker : result unit;
    recognize : result jsstring;         (* data.text *)
    terminate : result unit }.

(** A computation: the calls made so far and how it ended. *)
Definition Eff (A : Type) : Type := list Event * result A.

Definition ret {A} (a : A) : Eff A := ([], Ok a).
Definition throw {A} (message : jsstring) : Eff A := ([], Throw message).
Definition call {A} (e : Event) (outcome : result A) : Eff A := ([e], outcome).
Definition lift {A} (r : result A) : Eff A := ([], r).

Definition bind {A B} (m : Eff A) (k : A -> Eff B) : Eff B :=
  match m with
  | (t, Ok a) => let (t', r) := k a in (t ++ t', r)
  | (t, Throw e) => (t, Throw e)
  end.

(** [try { m } catch (error) { h(error.message) }] *)
Definition try_catch {A} (m : Eff A) (h : jsstring -> Eff A) : Eff A :=
  match m with
  | (t, Ok a) => (t, Ok a)
  | (t, Throw e) => let (t', r) := h e in (t ++ t', r)
  end.

(** [try { m } finally { f }]: [f] runs on both exits; an error thrown by [f]
    replaces the outcome of [m]. *)
Definition try_finally {A} (m : Eff A) (f : Eff unit) : Eff A :=
  let (t, r) := m in
  match f with
  | (t', Ok _) => (t ++ t', r)
  | (t', Throw e) => (t ++ t', Throw e)
  end.

Notation "x <- m ;; k" := (bind m (fun x => k))
  (at level 61, m at next level, right associativity).

Definition blank (s : jsstring) : bool := negb (truthy (trim s)).

Definition filename_or_empty (file : UploadedFile) : jsstring :=
  match originalFilename file with
  | Some n => if truthy n then n else []
  | None => []
  end.

(** [extractText], the revision with [validateFile] (lines 191-241). *)
Definition extractText (w : World) (file : UploadedFile) : Eff jsstring :=
  _ <- lift (validateFile file) ;;
  let ext := parseFileExt (filename_or_empty file) in
  _ <- call ReadFileSync (readFileSync w) ;;
  try_catch
    (if JS.eqb ext (lit "pdf") then
       text <- call PdfParse (pdfParse w) ;;
       if blank text then throw (lit "PDF appears to be empty or contains only images")
       else ret text
     else if JS.eqb ext (lit "docx") then
       value <- call ExtractRawText (extractRawText w) ;;
       if blank value then throw (lit "DOCX file appears to be empty")
       else ret value
     else if JS.eqb ext (lit "txt") || JS.eqb ext (lit "rtf") then
       let textContent := utf8 w in
       if blank textContent then throw (lit "Text file appears to be empty")
       else ret textContent
     else if JS.eqb ext (lit "jpg") || JS.eqb ext (lit "jpeg") || JS.eqb ext (lit "png") then
       _ <- call CreateWorker (createWorker w) ;;
       try_finally
         (text <- call Recognize (recognize w) ;;
          if blank text
          then throw (lit "Could not extract text from image. Please ensure image contains readable text.")
          else ret text)
         (call Terminate (terminate w))
     else throw (lit "Unsupported file type: " ++ ext))
    (fun message =>
       throw (lit "Failed to extract text from " ++ toUpperCase ext ++ lit ": " ++ message)).

(** [extractText], the revision without [validateFile] (lines 30-51). *)
Definition extractText_legacy (w : World) (file : UploadedFile) : Eff jsstring :=
  let ext := parseFileExt (filename_or_empty file) in
  _ <- call ReadFileSync (readFileSync w) ;;
  if JS.eqb ext (lit "pdf") then call PdfParse (pdfParse w)
  else if JS.eqb ext (lit "docx") then call ExtractRawText (extractRawText w)
  else if JS.eqb ext (lit "txt") || JS.eqb ext (lit "rtf") then ret (utf8 w)
  else if includes [lit "jpg"; lit "jpeg"; lit "png"] ext then
    _ <- call CreateWorker (createWorker w) ;;
    text <- call Recognize (recognize w) ;;
    _ <- call Terminate (terminate w) ;;
    ret text
  else throw (lit "Unsupported file type: " ++ ext).

Definition image_ext (ext : jsstring) : bool :=
  JS.eqb ext (lit "jpg") || JS.eqb ext (lit "jpeg") || JS.eqb ext (lit "png").

(** A worker that was created is terminated later in the trace. *)
Fixpoint worker_released (t : list Event) : bool :=
  match t with
  | [] => true
  | CreateWorker :: t' => existsb (fun e => match e with Terminate => true | _ => false end) t'
                          && worker_released t'
  | _ :: t' => worker_released t'
  end.

End Api.

(** * Further definitions *)

From Stdlib Require Import Sorted.

Module SessionInvariants.
Import JS Parser Session.

(** There is at most one recorded answer per question, and each is for a
    sampled question. *)
Definition answers_well_kept (s : State) : Prop :=
  NoDup (map questionId (userAnswers s))
  /\ incl (map questionId (userAnswers s)) (map id (currentQuiz s)).

Definition answered (s : State) (q : Question) : Prop :=
  find_answer (id q) (userAnswers s) <> None.

(** Every question before the cursor has an answer, and so has every sampled
    question once the results are shown. *)
Definition no_question_skipped (s : State) : Prop :=
  (forall i q, i < currentQuestionIndex s -> nth_error (currentQuiz s) i = Some q ->
               answered s q)
  /\ (showResults s = true -> forall q, In q (currentQuiz s) -> answered s q).

(** The cursor points at a sampled question, or at 0 when there is none. *)
Definition cursor_in_bounds (s : State) : Prop :=
  currentQuestionIndex s = 0 \/ currentQuestionIndex s < length (currentQuiz s).

(** The sample is drawn from the pool without replacement, and identifiers
    are distinct in both. *)
Definition sample_of_pool (s : State) : Prop :=
  (exists rest, Permutation (fullQuizData s) (currentQuiz s ++ rest))
  /\ NoDup (map id (fullQuizData s)).

(** The two cells that only the upload form changes. *)
Definition form_at_rest (s : State) : Prop :=
  loading s = false /\ In (numQuestions s) [3; 5; 7; 10]%Z.

End SessionInvariants.

Module Rejoin.
Import JS Marker Grammar.

(** The pieces of a split put back together, a marker with the given number
    between two successive pieces. *)
Fixpoint join_markers (pieces numbers : list jsstring) : jsstring :=
  match pieces with
  | [] => []
  | p :: ps =>
      p ++ match numbers, ps with
           | n :: ns, _ :: _ => marker n ++ join_markers ps ns
           | _, _ => []
           end
  end.

End Rejoin.

Module LegacyGrammar.
Import JS Parser LegacyParser Grammar.

(** What the earlier parser makes of a well-formed block. *)
Definition legacy_question_of (b : Block) : QuizQuestion :=
  mkQuizQuestion (trim (b_question b))
                 [trim (b_A b); trim (b_B b); trim (b_C b); trim (b_D b)]
                 (Some (firstn 1 (trim (b_answer b)))).

(** A question of the later parser as the earlier one would hold it: no
    identifier, no explanation, the first unit of the answer. *)
Definition as_legacy (q : Question) : QuizQuestion :=
  mkQuizQuestion (question q)
                 [optA (options q); optB (options q); optC (options q); optD (options q)]
                 (Some (firstn 1 (correctAnswer q))).

(** Each block but the last is followed by a line feed, so that the next
    marker starts a line. *)
Fixpoint separated (blocks : list Block) : bool :=
  match blocks with
  | [] => true
  | [b] => true
  | b :: rest => existsb (N.eqb LF) (b_trailing b) && separated rest
  end.

(** The lines of a block after its question line. *)
Definition tail_lines (b : Block) : list jsstring :=
  (lit "A." ++ trimEnd (b_A b)) :: (lit "B." ++ trimEnd (b_B b))
  :: (lit "C." ++ trimEnd (b_C b)) :: (lit "D." ++ trimEnd (b_D b))
  :: (lit "Answer:" ++ trimEnd (b_answer b))
  :: match b_explanation b with
     | Some e => [lit "Explanation:" ++ trimEnd e]
     | None => []
     end.

Definition quiz_question_shaped (q : QuizQuestion) : Prop :=
  length (qq_options q) <= 4
  /\ (forall o, In o (qq_options q) -> trim o = o)
  /\ match qq_answer q with
     | Some a => length a <= 1
     | None => True
     end.

End LegacyGrammar.

(** File names on which the model's lower-casing is the program's:
    [String.prototype.toLowerCase] maps the letters A to Z to a to z and
    leaves every other ASCII character as it is, which is what
    [JS.toLowerCase] does; on other characters the two may differ. *)
Module FileNames.
Import JS Api.

Definition is_ascii (c : N) : bool := (c <? 128)%N.

Definition ascii (s : jsstring) : bool := forallb is_ascii s.

(** The part of the name that [parseFileExt] lower-cases, what follows its
    last dot or the whole name if it has none, is ASCII. *)
Definition extension_ascii (fileName : jsstring) : bool :=
  match pop (split 46 fileName) with
  | Some last_ => ascii last_
  | None => true
  end.

End FileNames.

(** [generateQuiz] and [handler] of the revision with authentication
    (src/pages/api/generate-quiz.ts, lines 266-451). The outcomes of
    [getAuth], of formidable, of the file system and of the OpenAI endpoint
    are given by a record; every call the handler makes is kept in a trace.
    The clock ([processingTime], [timestamp]) and the console are left out.
    A value thrown is an [Error] with a string message, and [files.file],
    when present, is a file or an array starting with one. *)
Module Service.
Import JS Api.

Inductive Call :=
| GetAuth
| ParseForm
| Extraction (e : Event)
| Fetch (prompt : jsstring)
| UnlinkSync (path : jsstring).

Definition Run (A : Type) : Type := (list Call * result A)%type.

Definition pure {A} (a : A) : Run A := ([], Ok a).
Definition raise {A} (message : jsstring) : Run A := ([], Throw message).
Definition perform {A} (c : Call) (outcome : result A) : Run A := ([c], outcome).

(** A computation of [extractText], its calls tagged. *)
Definition extraction {A} (m : Eff A) : Run A := (map Extraction (fst m), snd m).

Definition andThen {A B} (m : Run A) (k : A -> Run B) : Run B :=
  match m with
  | (t, Ok a) => let (t', r) := k a in (t ++ t', r)
  | (t, Throw e) => (t, Throw e)
  end.

(** [try { m } catch (error) { h(error.message) }] *)
Definition catching {A} (m : Run A) (h : jsstring -> Run A) : Run A :=
  match m with
  | (t, Ok a) => (t, Ok a)
  | (t, Throw e) => let (t', r) := h e in (t ++ t', r)
  end.

Notation "x <~ m ;; k" := (andThen m (fun x => k))
  (at level 61, m at next level, right associativity).

(** [s.includes(sub)] on strings. *)
Fixpoint string_includes (s sub : jsstring) : bool :=
  startsWith s sub
  || match s with
     | [] => false
     | _ :: s' => string_includes s' sub
     end.

(** A string or [undefined]/[null], as a condition and as a string. *)
Definition falsy (v : option jsstring) : bool :=
  match v with
  | Some s => negb (truthy s)
  | None => true
  end.

Definition or_else (v : option jsstring) (fallback : jsstring) : jsstring :=
  match v with
  | Some s => if truthy s then s else fallback
  | None => fallback
  end.

Record Env := mkEnv
  { OPENAI_API_KEY : option jsstring;
    NODE_ENV : option jsstring }.

(** What the request to the completions endpoint does. *)
Inductive Reply :=
| Failed (message : jsstring)                       (* fetch or response.json() rejects,
                                                       or the body has no choices *)
| Refused (status : N) (detail : option jsstring)   (* !response.ok, errorData.error?.message *)
| Answered (content : option jsstring).             (* data.choices[0]?.message?.content *)

Record Server := mkServer
  { env : Env;
    auth : result (option jsstring);           (* getAuth(req).userId *)
    upload : result (option UploadedFile);     (* err.message of formidable, or files.file *)
    disk : World;
    openai : Reply;
    unlink : result unit }.

(** The number of code units of the text that go into the prompt. *)
Definition SLICE_END : nat := N.to_nat 8000.

Definition prompt (text : jsstring) (numQuestions : N) : jsstring :=
  LF :: lit "You are an expert quiz generator. Create exactly " ++ decimal numQuestions
  ++ lit " high-quality multiple-choice questions from the provided content."
  ++ LF :: LF
  :: unlines [ "Requirements:";
               "- Each question should have 4 options (A, B, C, D)";
               "- Questions should test understanding, not just memorization";
               "- Provide the correct answer and a brief explanation";
               "- Cover different aspects of the content";
               "- Make distractors plausible but clearly incorrect" ]%string
  ++ LF :: LF
  :: unlines [ "Format each question as:";
               "Q[number]: [Question text]";
               "A. [Option A]";
               "B. [Option B]  ";
               "C. [Option C]";
               "D. [Option D]";
               "Answer: [Correct letter]";
               "Explanation: [Brief explanation why this answer is correct]" ]%string
  ++ LF :: LF :: lit "---" ++ LF :: LF :: lit "Content to analyze:" ++ LF
  :: firstn SLICE_END text ++ lit " "
  ++ (if SLICE_END <? length text then lit "..." else []) ++ [LF].

(** The body of the [try] of [generateQuiz]. *)
Definition request (w : Server) (p : jsstring) : Run jsstring :=
  match openai w with
  | Failed message => perform (Fetch p) (Throw message)
  | Refused status detail =>
      _ <~ perform (Fetch p) (Ok tt) ;;
      raise (lit "OpenAI API error: " ++ decimal status ++ lit " - "
             ++ or_else detail (lit "Unknown error"))
  | Answered content =>
      _ <~ perform (Fetch p) (Ok tt) ;;
      let quiz := option_map trim content in
      if falsy quiz then raise (lit "OpenAI returned empty response")
      else pure (or_else quiz [])
  end.

Definition generateQuiz (w : Server) (text : jsstring) (numQuestions : N)
           (userId : jsstring) : Run jsstring :=
  if falsy (OPENAI_API_KEY (env w)) then raise (lit "OpenAI API key not configured")
  else if blank text then raise (lit "No text content found to generate quiz from")
  else if length text <? 100
  then raise (lit "Content too short to generate meaningful quiz questions (minimum 100 characters)")
  else
    catching (request w (prompt text numQuestions))
             (fun message =>
                if string_includes message (lit "quota")
                then raise (lit "OpenAI quota exceeded. Please try again later.")
                else raise message).

Inductive Body :=
| Generated (quiz userId fileType fileName : jsstring)
| Failure (error code : jsstring) (details : option jsstring).

Record ApiResponse := mkApiResponse { status : N; body : Body }.

Definition development (w : Server) : bool :=
  match NODE_ENV (env w) with
  | Some v => JS.eqb v (lit "development")
  | None => false
  end.

(** The [catch] of [handler]. *)
Definition on_error (w : Server) (message : jsstring) : ApiResponse :=
  if string_includes message (lit "Authentication")
     || string_includes message (lit "Unauthorized")
  then mkApiResponse 401 (Failure message (lit "UNAUTHORIZED") None)
  else if string_includes message (lit "File") || string_includes message (lit "upload")
  then mkApiResponse 400 (Failure message (lit "FILE_ERROR") None)
  else if string_includes message (lit "OpenAI") || string_includes message (lit "quota")
  then mkApiResponse 503 (Failure message (lit "AI_SERVICE_ERROR") None)
  else mkApiResponse 500 (Failure (lit "Internal server error. Please try again.")
                               (lit "INTERNAL_ERROR")
                               (if development w then Some message else None)).

Definition parseForm (w : Server) : Run (option UploadedFile) :=
  perform ParseForm
          match upload w with
          | Ok files => Ok files
          | Throw message => Throw (lit "File upload failed: " ++ message)
          end.

Definition handler (w : Server) (method : jsstring) : list Call * ApiResponse :=
  if negb (JS.eqb method (lit "POST"))
  then ([], mkApiResponse 405 (Failure (lit "Method not allowed")
                                    (lit "METHOD_NOT_ALLOWED") None))
  else
    let attempt : Run ApiResponse :=
      userId <~ perform GetAuth (auth w) ;;
      if falsy userId
      then pure (mkApiResponse 401 (Failure (lit "Authentication required. Please sign in.")
                                         (lit "UNAUTHORIZED") None))
      else
        files <~ parseForm w ;;
        match files with
        | None => pure (mkApiResponse 400 (Failure (lit "No file uploaded")
                                                (lit "MISSING_FILE") None))
        | Some file =>
            extractedText <~ extraction (extractText (disk w) file) ;;
            fullQuizText <~ generateQuiz w extractedText 20 (or_else userId []) ;;
            _ <~ catching (perform (UnlinkSync (filepath file)) (unlink w))
                          (fun _ => pure tt) ;;
            pure (mkApiResponse 200 (Generated fullQuizText (or_else userId [])
                                       (parseFileExt (filename_or_empty file))
                                       (or_else (originalFilename file) (lit "unknown"))))
        end in
    match attempt with
    | (t, Ok response) => (t, response)
    | (t, Throw message) => (t, on_error w message)
    end.

Definition is_unlink (c : Call) : bool :=
  match c with UnlinkSync _ => true | _ => false end.

Definition is_fetch (c : Call) : bool :=
  match c with Fetch _ => true | _ => false end.

End Service.

(** The messages of [generateQuiz] and when it sends its request. *)
Module Outcome.
Import JS Api Service.

Definition NOT_CONFIGURED : jsstring := lit "OpenAI API key not configured".
Definition NO_TEXT : jsstring := lit "No text content found to generate quiz from".
Definition TOO_SHORT : jsstring :=
  lit "Content too short to generate meaningful quiz questions (minimum 100 characters)".
Definition EMPTY_RESPONSE : jsstring := lit "OpenAI returned empty response".
Definition QUOTA_EXCEEDED : jsstring := lit "OpenAI quota exceeded. Please try again later.".

(** The message of a refused request. *)
Definition refusal (status : N) (detail : option jsstring) : jsstring :=
  lit "OpenAI API error: " ++ decimal status ++ lit " - "
  ++ or_else detail (lit "Unknown error").

Definition remap (message : jsstring) : jsstring :=
  if string_includes message (lit "quota") then QUOTA_EXCEEDED else message.

(** The request is sent when the key is configured and the text is neither
    blank nor shorter than 100 code units. *)
Definition ready (w : Server) (text : jsstring) : bool :=
  negb (falsy (OPENAI_API_KEY (env w))) && negb (blank text)
  && negb (length text <? 100).

Definition METHOD_NOT_ALLOWED : ApiResponse :=
  mkApiResponse 405 (Failure (lit "Method not allowed") (lit "METHOD_NOT_ALLOWED") None).

Definition UNAUTHORIZED : ApiResponse :=
  mkApiResponse 401 (Failure (lit "Authentication required. Please sign in.")
                          (lit "UNAUTHORIZED") None).

Definition MISSING_FILE : ApiResponse :=
  mkApiResponse 400 (Failure (lit "No file uploaded") (lit "MISSING_FILE") None).

(** The answer to an error the handler does not recognise: the message is
    kept from the client, but for a development server. *)
Definition internal_error (w : Server) (message : jsstring) : ApiResponse :=
  mkApiResponse 500 (Failure (lit "Internal server error. Please try again.")
                          (lit "INTERNAL_ERROR")
                          (if development w then Some message else None)).

Definition service_error (message : jsstring) : ApiResponse :=
  mkApiResponse 503 (Failure message (lit "AI_SERVICE_ERROR") None).

Definition success (quiz userId : jsstring) (file : UploadedFile) : ApiResponse :=
  mkApiResponse 200 (Generated quiz userId (parseFileExt (filename_or_empty file))
                       (or_else (originalFilename file) (lit "unknown"))).

(** The start of every trace that reaches the uploaded file. *)
Definition reached (t : list Event) : list Call :=
  GetAuth :: ParseForm :: map Extraction t.

(** What [validateFile] says of an extension it does not allow. *)
Definition unsupported (ext : jsstring) : jsstring :=
  lit "Unsupported file type: " ++ ext ++ lit ". Allowed: "
  ++ join (lit ", ") ALLOWED_EXTENSIONS.

(** The text the library of the extension gives for the file is blank. *)
Definition blank_document (w : World) (ext : jsstring) : Prop :=
  (ext = lit "pdf" /\ exists text, pdfParse w = Ok text /\ blank text = true)
  \/ (ext = lit "docx" /\ exists text, extractRawText w = Ok text /\ blank text = true)
  \/ ((ext = lit "txt" \/ ext = lit "rtf") /\ blank (utf8 w) = true)
  \/ (image_ext ext = true /\ createWorker w = Ok tt /\ terminate w = Ok tt
      /\ exists text, recognize w = Ok text /\ blank text = true).

(** An answer that carries an error. *)
Definition turned_away (r : ApiResponse) : Prop :=
  In (status r) [400; 401; 405; 500; 503]%N
  /\ exists error code details, body r = Failure error code details.

End Outcome.

(** * Properties *)

(** ** Strings: [trim] and [split] *)

Section StringFacts.
Import JS Parser.

Lemma jsstring_eqb_eq (a b : jsstring) : JS.eqb a b = true <-> a = b.
Proof. unfold JS.eqb. destruct (list_eq_dec N.eq_dec a b); split; congruence. Qed.

Lemma trimStart_ws (c : N) (s : jsstring) :
  is_ws c = true -> trimStart (c :: s) = trimStart s.
Proof. intros H. cbn [trimStart]. now rewrite H. Qed.

Lemma trimStart_not_ws (c : N) (s : jsstring) :
  is_ws c = false -> trimStart (c :: s) = c :: s.
Proof. intros H. cbn [trimStart]. now rewrite H. Qed.

Lemma trimStart_all_ws (s : jsstring) : all_ws s = true -> trimStart s = [].
Proof.
  induction s as [|c s IH]; [reflexivity|]. cbn. intros H.
  apply andb_prop in H as [Hc Hs]. rewrite Hc. now apply IH.
Qed.

Lemma trimStart_split (s : jsstring) :
  exists w, all_ws w = true /\ s = w ++ trimStart s.
Proof.
  induction s as [|c s (w & Hw & E)].
  - now exists [].
  - cbn [trimStart]. destruct (is_ws c) eqn:Hc.
    + exists (c :: w). split; [cbn; now rewrite Hc|]. cbn. now f_equal.
    + now exists [].
Qed.

Lemma trimStart_app (u v : jsstring) :
  trimStart (u ++ v) = match trimStart u with
                       | [] => trimStart v
                       | _ :: _ => trimStart u ++ v
                       end.
Proof.
  induction u as [|c u IH]; [reflexivity|].
  cbn [app trimStart]. destruct (is_ws c); [exact IH|reflexivity].
Qed.

Lemma trimEnd_snoc_ws (s : jsstring) (c : N) :
  is_ws c = true -> trimEnd (s ++ [c]) = trimEnd s.
Proof.
  intros H. unfold trimEnd. rewrite rev_app_distr. cbn [rev app].
  now rewrite trimStart_ws.
Qed.

Lemma trimEnd_app_ws (s w : jsstring) : all_ws w = true -> trimEnd (s ++ w) = trimEnd s.
Proof.
  revert s. induction w as [|c w IH]; intros s H; [now rewrite app_nil_r|].
  cbn in H. apply andb_prop in H as [Hc Hw].
  change (s ++ c :: w) with (s ++ [c] ++ w). rewrite app_assoc, IH by exact Hw.
  now apply trimEnd_snoc_ws.
Qed.

Lemma trimEnd_cons_not_ws (c : N) (s : jsstring) :
  is_ws c = false -> trimEnd (c :: s) = c :: trimEnd s.
Proof.
  intros H. unfold trimEnd. cbn [rev]. rewrite trimStart_app.
  destruct (trimStart (rev s)) as [|x t] eqn:E.
  - cbn [trimStart]. now rewrite H.
  - now rewrite rev_app_distr.
Qed.

Lemma trimEnd_split (s : jsstring) :
  exists w, all_ws w = true /\ s = trimEnd s ++ w.
Proof.
  destruct (trimStart_split (rev s)) as (w & Hw & E).
  exists (rev w). split.
  - unfold all_ws in *. rewrite forallb_forall in *. intros x Hx.
    apply Hw. now apply in_rev.
  - unfold trimEnd. rewrite <- rev_app_distr, <- E. now rewrite rev_involutive.
Qed.

Lemma trim_ws_cons (c : N) (s : jsstring) : is_ws c = true -> trim (c :: s) = trim s.
Proof. intros H. unfold trim. now rewrite trimStart_ws. Qed.

Lemma trim_app_ws_r (s w : jsstring) : all_ws w = true -> trim (s ++ w) = trim s.
Proof.
  intros H. unfold trim. rewrite trimStart_app.
  destruct (trimStart s) as [|x t] eqn:E.
  - now rewrite trimStart_all_ws.
  - now apply trimEnd_app_ws.
Qed.

Lemma trim_snoc_ws (s : jsstring) (c : N) : is_ws c = true -> trim (s ++ [c]) = trim s.
Proof. intros H. apply trim_app_ws_r. cbn. now rewrite H. Qed.

Lemma trim_cons_not_ws (c : N) (s : jsstring) :
  is_ws c = false -> trim (c :: s) = c :: trimEnd s.
Proof.
  intros H. unfold trim. rewrite trimStart_not_ws by exact H.
  now apply trimEnd_cons_not_ws.
Qed.

Lemma trim_trimEnd (s : jsstring) : trim (trimEnd s) = trim s.
Proof.
  destruct (trimEnd_split s) as (w & Hw & E).
  rewrite E at 2. symmetry. now apply trim_app_ws_r.
Qed.

(** A string is its trimmed text between two runs of white space. *)
Lemma trim_split (s : jsstring) :
  exists w1 w2, all_ws w1 = true /\ all_ws w2 = true /\ s = w1 ++ trim s ++ w2.
Proof.
  destruct (trimStart_split s) as (w1 & H1 & E1).
  destruct (trimEnd_split (trimStart s)) as (w2 & H2 & E2).
  exists w1, w2. repeat split; try assumption.
  unfold trim. now rewrite <- E2.
Qed.

Lemma split_not_nil (sep : N) (s : jsstring) : split sep s <> [].
Proof.
  induction s as [|c s IH]; [discriminate|].
  cbn. destruct (c =? sep)%N; [discriminate|].
  destruct (split sep s); [congruence|discriminate].
Qed.

Lemma split_without_separator (sep : N) (s : jsstring) :
  ~ In sep s -> split sep s = [s].
Proof.
  induction s as [|c s IH]; intros Hs; [reflexivity|].
  simpl. destruct (N.eqb_spec c sep) as [->|_].
  - exfalso. apply Hs. now left.
  - rewrite IH; [reflexivity|]. intros H. apply Hs. now right.
Qed.

Lemma split_app_separator (sep : N) (x y : jsstring) :
  split sep (x ++ sep :: y) = split sep x ++ split sep y.
Proof.
  induction x as [|c x IH].
  - cbn. now rewrite N.eqb_refl.
  - cbn [app split]. destruct (c =? sep)%N; [now rewrite IH|].
    rewrite IH. pose proof (split_not_nil sep x) as Hx.
    destruct (split sep x); [congruence|reflexivity].
Qed.

Lemma split_snoc_other (sep : N) (s : jsstring) (c : N) :
  c <> sep ->
  split sep (s ++ [c]) = removelast (split sep s) ++ [last (split sep s) [] ++ [c]].
Proof.
  intros Hc. induction s as [|x s IH].
  - cbn. apply N.eqb_neq in Hc. now rewrite Hc.
  - cbn [app split]. destruct (x =? sep)%N.
    + rewrite IH. pose proof (split_not_nil sep s) as Hs.
      destruct (split sep s) as [|l ls]; [congruence|]. reflexivity.
    + rewrite IH. pose proof (split_not_nil sep s) as Hs.
      destruct (split sep s) as [|l ls]; [congruence|].
      destruct ls as [|l' ls]; reflexivity.
Qed.

Lemma trimmed_lines_ws_cons (c : N) (s : jsstring) :
  is_ws c = true -> trimmed_lines (c :: s) = trimmed_lines s.
Proof.
  intros H. unfold trimmed_lines. cbn [split].
  destruct (c =? LF)%N; [reflexivity|].
  pose proof (split_not_nil LF s) as Hs.
  destruct (split LF s) as [|l ls]; [congruence|].
  cbn [map]. now rewrite trim_ws_cons.
Qed.

Lemma trimmed_lines_snoc_ws (s : jsstring) (c : N) :
  is_ws c = true -> trimmed_lines (s ++ [c]) = trimmed_lines s.
Proof.
  intros H. unfold trimmed_lines.
  destruct (N.eqb_spec c LF) as [->|Hc].
  - rewrite split_app_separator, map_app, filter_app. cbn. now rewrite app_nil_r.
  - rewrite split_snoc_other by exact Hc.
    pose proof (split_not_nil LF s) as Hs.
    rewrite (app_removelast_last [] Hs) at 3.
    rewrite !map_app. cbn [map]. now rewrite trim_snoc_ws.
Qed.

Lemma trimmed_lines_app_ws_l (w s : jsstring) :
  all_ws w = true -> trimmed_lines (w ++ s) = trimmed_lines s.
Proof.
  induction w as [|c w IH]; intros H; [reflexivity|].
  cbn in H. apply andb_prop in H as [Hc Hw]. cbn [app].
  rewrite trimmed_lines_ws_cons by exact Hc. now apply IH.
Qed.

Lemma trimmed_lines_app_ws_r (s w : jsstring) :
  all_ws w = true -> trimmed_lines (s ++ w) = trimmed_lines s.
Proof.
  revert s. induction w as [|c w IH]; intros s H; [now rewrite app_nil_r|].
  cbn in H. apply andb_prop in H as [Hc Hw].
  change (s ++ c :: w) with (s ++ [c] ++ w). rewrite app_assoc, IH by exact Hw.
  now apply trimmed_lines_snoc_ws.
Qed.

Lemma trimmed_lines_trim (s : jsstring) : trimmed_lines (trim s) = trimmed_lines s.
Proof.
  destruct (trim_split s) as (w1 & w2 & H1 & H2 & E).
  rewrite E at 2.
  rewrite trimmed_lines_app_ws_l by exact H1.
  now rewrite trimmed_lines_app_ws_r by exact H2.
Qed.

Lemma trimmed_lines_line (x y : jsstring) :
  ~ In LF x ->
  trimmed_lines (x ++ LF :: y)
  = (if truthy (trim x) then [trim x] else []) ++ trimmed_lines y.
Proof.
  intros H. unfold trimmed_lines.
  rewrite split_app_separator, (split_without_separator _ _ H), map_app, filter_app.
  cbn. now destruct (truthy (trim x)).
Qed.

Lemma trimmed_lines_last (x : jsstring) :
  ~ In LF x -> trimmed_lines x = if truthy (trim x) then [trim x] else [].
Proof.
  intros H. unfold trimmed_lines. rewrite (split_without_separator _ _ H).
  cbn. now destruct (truthy (trim x)).
Qed.

Lemma map_filter_comm {A B} (f : A -> B) (p : B -> bool) (l : list A) :
  map f (filter (fun x => p (f x)) l) = filter p (map f l).
Proof.
  induction l as [|x l IH]; [reflexivity|].
  cbn. destruct (p (f x)); cbn; now rewrite IH.
Qed.

End StringFacts.

(** ** The quiz text parser *)

Section ParserFacts.
Import JS Marker Parser Grammar.

(** *** A block is parsed from its trimmed non-blank lines *)

Lemma fold_scan_trimmed (lines : list jsstring) (st : Scan) :
  fold_left scan_line lines st = fold_left scan_trimmed (map trim lines) st.
Proof.
  revert st. induction lines as [|l lines IH]; intros st; [reflexivity|].
  cbn [fold_left map]. now rewrite IH.
Qed.

Lemma map_trim_block_lines (block : jsstring) :
  map trim (block_lines block) = trimmed_lines block.
Proof.
  unfold block_lines. rewrite (map_filter_comm trim truthy).
  apply trimmed_lines_trim.
Qed.

Lemma process_block_assemble (index : nat) (block : jsstring) (questions : list Question) :
  index <> 0 ->
  process_block index block questions = assemble index (trimmed_lines block) questions.
Proof.
  intros Hi. unfold process_block. apply Nat.eqb_neq in Hi. rewrite Hi. cbn [orb].
  destruct (truthy (trim block)) eqn:Hb; cbn [negb].
  - unfold assemble. rewrite <- map_trim_block_lines, length_map.
    destruct (length (block_lines block) <? 6)%nat; [reflexivity|].
    rewrite <- fold_scan_trimmed.
    assert (E : nth 0 (map trim (block_lines block)) []
                = trim (nth 0 (block_lines block) [])).
    { exact (map_nth trim (block_lines block) [] 0). }
    rewrite E. reflexivity.
  - rewrite <- trimmed_lines_trim. destruct (trim block); [reflexivity|discriminate Hb].
Qed.

Lemma process_block_appends (index : nat) (block : jsstring) (questions : list Question) :
  process_block index block questions = questions ++ process_block index block [].
Proof.
  unfold process_block.
  destruct ((index =? 0)%nat || negb (truthy (trim block))); [now rewrite app_nil_r|].
  destruct (length (block_lines block) <? 6)%nat; [now rewrite app_nil_r|].
  match goal with |- (if ?c then _ else _) = _ => destruct c end;
    [reflexivity|now rewrite app_nil_r].
Qed.

Lemma forEach_blocks_appends (index : nat) (blocks : list jsstring) (questions : list Question) :
  forEach_blocks index blocks questions = questions ++ forEach_blocks index blocks [].
Proof.
  revert index questions. induction blocks as [|b blocks IH]; intros index questions.
  - cbn. now rewrite app_nil_r.
  - cbn [forEach_blocks]. rewrite IH, (IH _ (process_block index b [])).
    rewrite process_block_appends, app_assoc. reflexivity.
Qed.

Lemma forEach_blocks_cons (index : nat) (block : jsstring) (blocks : list jsstring) :
  forEach_blocks index (block :: blocks) []
  = process_block index block [] ++ forEach_blocks (S index) blocks [].
Proof. cbn [forEach_blocks]. apply forEach_blocks_appends. Qed.

(** *** Where the fields of a question come from *)

Lemma from_line_more (prefix : jsstring) (n : nat) (lines more : list jsstring) (v : jsstring) :
  from_line prefix n lines v -> from_line prefix n (lines ++ more) v.
Proof.
  intros (l & Hin & H). exists l. split; [|exact H]. apply in_or_app. now left.
Qed.

Lemma from_line_here (prefix : jsstring) (n : nat) (lines : list jsstring) (l : jsstring) :
  startsWith (trim l) prefix = true ->
  from_line prefix n (lines ++ [l]) (trim (substring n (trim l))).
Proof.
  intros H. exists l. split; [|now split]. apply in_or_app. right. now left.
Qed.

Lemma scan_sound_line (lines : list jsstring) (st : Scan) (l : jsstring) :
  scan_sound lines st -> scan_sound (lines ++ [l]) (scan_line st l).
Proof.
  intros (HA & HB & HC & HD & HE).
  assert (HA' : optA (sc_options st) = []
                \/ from_line (lit "A.") 2 (lines ++ [l]) (optA (sc_options st))).
  { destruct HA; [now left|right; now apply from_line_more]. }
  assert (HB' : optB (sc_options st) = []
                \/ from_line (lit "B.") 2 (lines ++ [l]) (optB (sc_options st))).
  { destruct HB; [now left|right; now apply from_line_more]. }
  assert (HC' : optC (sc_options st) = []
                \/ from_line (lit "C.") 2 (lines ++ [l]) (optC (sc_options st))).
  { destruct HC; [now left|right; now apply from_line_more]. }
  assert (HD' : optD (sc_options st) = []
                \/ from_line (lit "D.") 2 (lines ++ [l]) (optD (sc_options st))).
  { destruct HD; [now left|right; now apply from_line_more]. }
  assert (HE' : sc_correctAnswer st = []
                \/ from_line (lit "Answer:") 7 (lines ++ [l]) (sc_correctAnswer st)).
  { destruct HE; [now left|right; now apply from_line_more]. }
  unfold scan_line.
  destruct (startsWith (trim l) (lit "A.")) eqn:EA.
  { repeat split; try assumption. right. now apply from_line_here. }
  destruct (startsWith (trim l) (lit "B.")) eqn:EB.
  { repeat split; try assumption. right. now apply from_line_here. }
  destruct (startsWith (trim l) (lit "C.")) eqn:EC.
  { repeat split; try assumption. right. now apply from_line_here. }
  destruct (startsWith (trim l) (lit "D.")) eqn:ED.
  { repeat split; try assumption. right. now apply from_line_here. }
  destruct (startsWith (trim l) (lit "Answer:")) eqn:EE.
  { repeat split; try assumption. right. now apply from_line_here. }
  destruct (startsWith (trim l) (lit "Explanation:")); repeat split; assumption.
Qed.

Lemma scan_sound_fold (rest lines : list jsstring) (st : Scan) :
  scan_sound lines st -> scan_sound (lines ++ rest) (fold_left scan_line rest st).
Proof.
  revert lines st. induction rest as [|l rest IH]; intros lines st H.
  - now rewrite app_nil_r.
  - cbn [fold_left]. change (l :: rest) with ([l] ++ rest). rewrite app_assoc.
    apply IH. now apply scan_sound_line.
Qed.

Lemma scan_sound_init : scan_sound [] scan_init.
Proof. repeat split; now left. Qed.

Lemma truthy_not_nil (s : jsstring) : truthy s = true -> s <> [].
Proof. destruct s; [discriminate|discriminate]. Qed.

Lemma process_block_cases (index : nat) (block : jsstring) :
  process_block index block [] = []
  \/ exists q, process_block index block [] = [q] /\ produced index block q.
Proof.
  unfold process_block.
  destruct (index =? 0)%nat eqn:Hi; [now left|]. cbn [orb].
  destruct (negb (truthy (trim block))); [now left|].
  destruct (length (block_lines block) <? 6)%nat eqn:Hlen; [now left|].
  match goal with |- (if ?c then _ else _) = _ \/ _ => destruct c eqn:Hc end; [|now left].
  right. eexists. split; [reflexivity|].
  pose proof (scan_sound_fold (block_lines block) [] scan_init scan_sound_init) as Hs.
  cbn [app] in Hs. destruct Hs as (HA & HB & HC & HD & HE).
  repeat (apply andb_prop in Hc as [Hc ?]).
  apply Nat.eqb_neq in Hi. apply Nat.ltb_ge in Hlen.
  unfold produced. cbn [id question options correctAnswer].
  repeat match goal with H : truthy _ = true |- _ => apply truthy_not_nil in H end.
  repeat split; try assumption.
  - now destruct HA.
  - now destruct HB.
  - now destruct HC.
  - now destruct HD.
  - now destruct HE.
Qed.

Lemma forEach_blocks_produced (blocks : list jsstring) (index : nat) (q : Question) :
  In q (forEach_blocks index blocks []) ->
  index <= id q
  /\ exists block, nth_error blocks (id q - index) = Some block /\ produced (id q) block q.
Proof.
  revert index. induction blocks as [|b blocks IH]; intros index Hin; [destruct Hin|].
  rewrite forEach_blocks_cons in Hin. apply in_app_or in Hin as [Hin|Hin].
  - destruct (process_block_cases index b) as [E|(q' & E & Hp)]; rewrite E in Hin.
    + destruct Hin.
    + destruct Hin as [<-|[]].
      assert (Hid : id q' = index) by apply Hp.
      split; [lia|]. exists b. rewrite Hid, Nat.sub_diag. now split.
  - apply IH in Hin as (Hle & block & Hnth & Hp).
    split; [lia|]. exists block. split; [|exact Hp].
    replace (id q - index) with (S (id q - S index)) by lia. exact Hnth.
Qed.

Lemma forEach_blocks_ids (blocks : list jsstring) (index : nat) :
  NoDup (map id (forEach_blocks index blocks [])).
Proof.
  revert index. induction blocks as [|b blocks IH]; intros index; [constructor|].
  rewrite forEach_blocks_cons.
  destruct (process_block_cases index b) as [E|(q & E & Hp)]; rewrite E.
  - apply IH.
  - cbn. constructor; [|apply IH].
    intros Hin. apply in_map_iff in Hin as (q' & Hid & Hin).
    apply forEach_blocks_produced in Hin as [Hle _].
    assert (id q = index) by apply Hp. lia.
Qed.

(** The identifiers of a parsed pool are distinct. *)
Lemma parseQuizText_ids_distinct (quizText : jsstring) :
  NoDup (map id (parseQuizText quizText)).
Proof. apply forEach_blocks_ids. Qed.

(** C1, as the code has it. Every question of [parseQuizText] comes from a
    block after a marker, the block at the position that is the question's
    identifier, with at least six non-blank lines; its text is the first of
    them, trimmed and not empty; each of its four options is not empty and
    is the trimmed text after [A.], [B.], [C.], [D.] on a line of the block
    that starts so; its correct answer is not empty and starts with the
    first unit that is not white space after [Answer:] on a line that starts
    so. A block without such a line for an option or for the answer gives no
    question. Nothing makes the answer one of A, B, C, D. *)
Theorem parseQuizText_fields (quizText : jsstring) (q : Question) :
  In q (parseQuizText quizText) ->
  exists block,
    nth_error (split_markers quizText) (id q) = Some block
    /\ 1 <= id q
    /\ 6 <= length (block_lines block)
    /\ question q = trim (nth 0 (block_lines block) []) /\ question q <> []
    /\ optA (options q) <> [] /\ optB (options q) <> []
    /\ optC (options q) <> [] /\ optD (options q) <> []
    /\ correctAnswer q <> []
    /\ from_line (lit "A.") 2 (block_lines block) (optA (options q))
    /\ from_line (lit "B.") 2 (block_lines block) (optB (options q))
    /\ from_line (lit "C.") 2 (block_lines block) (optC (options q))
    /\ from_line (lit "D.") 2 (block_lines block) (optD (options q))
    /\ answer_from (block_lines block) (correctAnswer q).
Proof.
  intros Hin. unfold parseQuizText in Hin.
  apply forEach_blocks_produced in Hin as (_ & block & Hnth & Hp).
  rewrite Nat.sub_0_r in Hnth. exists block.
  destruct Hp as (Hi & Hid & Hlen & Hq & Hq' & [HA HA'] & [HB HB'] & [HC HC'] & [HD HD']
                  & [HE HE']).
  repeat split; try assumption; [lia|].
  destruct HE' as (l & Hl & Hs & Hv). exists l. now rewrite Hv.
Qed.

(** *** Texts made of blocks *)

Lemma trimEnd_solid_prefix (p x : jsstring) :
  solid p = true -> trimEnd (p ++ x) = p ++ trimEnd x.
Proof.
  induction p as [|c p IH]; intros H; [reflexivity|].
  cbn in H. apply andb_prop in H as [Hc Hp]. apply negb_true_iff in Hc.
  cbn [app]. rewrite trimEnd_cons_not_ws by exact Hc. now rewrite IH.
Qed.

Lemma trim_solid_prefix (c : N) (p x : jsstring) :
  solid (c :: p) = true -> trim ((c :: p) ++ x) = (c :: p) ++ trimEnd x.
Proof.
  intros H. pose proof H as H'. cbn in H. apply andb_prop in H as [Hc Hp].
  apply negb_true_iff in Hc. cbn [app].
  rewrite trim_cons_not_ws by exact Hc. now rewrite trimEnd_solid_prefix.
Qed.

Lemma one_line_spec (t : jsstring) : one_line t = true -> ~ In LF t.
Proof.
  unfold one_line. intros H Hin. apply negb_true_iff in H.
  assert (E : existsb (N.eqb LF) t = true).
  { apply existsb_exists. exists LF. split; [exact Hin|apply N.eqb_refl]. }
  congruence.
Qed.

Lemma solid_no_LF (p : jsstring) : solid p = true -> ~ In LF p.
Proof.
  unfold solid. rewrite forallb_forall. intros H Hin.
  specialize (H _ Hin). discriminate H.
Qed.

Lemma prefixed_one_line (p x : jsstring) :
  solid p = true -> one_line x = true -> ~ In LF (p ++ x).
Proof.
  intros Hp Hx Hin. apply in_app_or in Hin as [Hin|Hin].
  - now apply (solid_no_LF p).
  - now apply (one_line_spec x).
Qed.

Lemma trimmed_lines_prefixed (c : N) (p x y : jsstring) :
  solid (c :: p) = true -> one_line x = true ->
  trimmed_lines (((c :: p) ++ x) ++ LF :: y) = ((c :: p) ++ trimEnd x) :: trimmed_lines y.
Proof.
  intros Hp Hx. rewrite trimmed_lines_line by now apply prefixed_one_line.
  rewrite trim_solid_prefix by exact Hp. reflexivity.
Qed.

Lemma trimmed_lines_prefixed_last (c : N) (p x : jsstring) :
  solid (c :: p) = true -> one_line x = true ->
  trimmed_lines ((c :: p) ++ x) = [(c :: p) ++ trimEnd x].
Proof.
  intros Hp Hx. rewrite trimmed_lines_last by now apply prefixed_one_line.
  rewrite trim_solid_prefix by exact Hp. reflexivity.
Qed.

Lemma trimmed_lines_block (b : Block) :
  well_formed b = true ->
  trimmed_lines (block_body b)
  = trim (b_question b)
    :: (lit "A." ++ trimEnd (b_A b)) :: (lit "B." ++ trimEnd (b_B b))
    :: (lit "C." ++ trimEnd (b_C b)) :: (lit "D." ++ trimEnd (b_D b))
    :: (lit "Answer:" ++ trimEnd (b_answer b))
    :: match b_explanation b with
       | Some e => [lit "Explanation:" ++ trimEnd e]
       | None => []
       end.
Proof.
  unfold well_formed. intros H.
  repeat (apply andb_prop in H as [H ?]).
  unfold block_body. rewrite trimmed_lines_app_ws_r by assumption.
  unfold block_core.
  rewrite trimmed_lines_line by now apply one_line_spec.
  match goal with Hq : nonblank (b_question b) = true |- _ =>
    unfold nonblank in Hq; rewrite Hq end.
  cbn [app]. f_equal.
  change (lit "A.") with [65; 46]%N. change (lit "B.") with [66; 46]%N.
  change (lit "C.") with [67; 46]%N. change (lit "D.") with [68; 46]%N.
  change (lit "Answer:") with [65; 110; 115; 119; 101; 114; 58]%N.
  change (lit "Explanation:")
    with [69; 120; 112; 108; 97; 110; 97; 116; 105; 111; 110; 58]%N.
  rewrite !trimmed_lines_prefixed by (reflexivity || assumption).
  do 4 f_equal. unfold explanation_line.
  destruct (b_explanation b) as [e|].
  - change (lit "Explanation:")
      with [69; 120; 112; 108; 97; 110; 97; 116; 105; 111; 110; 58]%N.
    rewrite trimmed_lines_prefixed by (reflexivity || assumption).
    rewrite trimmed_lines_prefixed_last by (reflexivity || assumption).
    reflexivity.
  - rewrite app_nil_r.
    rewrite trimmed_lines_prefixed_last by (reflexivity || assumption).
    reflexivity.
Qed.

Lemma scan_option_A (st : Scan) (x : jsstring) :
  scan_trimmed st (lit "A." ++ x) = set_A (trim x) st.
Proof. reflexivity. Qed.

Lemma scan_option_B (st : Scan) (x : jsstring) :
  scan_trimmed st (lit "B." ++ x) = set_B (trim x) st.
Proof. reflexivity. Qed.

Lemma scan_option_C (st : Scan) (x : jsstring) :
  scan_trimmed st (lit "C." ++ x) = set_C (trim x) st.
Proof. reflexivity. Qed.

Lemma scan_option_D (st : Scan) (x : jsstring) :
  scan_trimmed st (lit "D." ++ x) = set_D (trim x) st.
Proof. reflexivity. Qed.

Lemma scan_answer (st : Scan) (x : jsstring) :
  scan_trimmed st (lit "Answer:" ++ x) = set_correctAnswer (trim x) st.
Proof. reflexivity. Qed.

Lemma scan_explanation (st : Scan) (x : jsstring) :
  scan_trimmed st (lit "Explanation:" ++ x) = set_explanation (trim x) st.
Proof. reflexivity. Qed.

Lemma startsWith_head (t : jsstring) (p : N) (ps : jsstring) :
  startsWith t (p :: ps) = true -> exists t', t = p :: t'.
Proof.
  destruct t as [|c t]; [discriminate|]. cbn. intros H.
  apply andb_prop in H as [H _]. apply N.eqb_eq in H. subst c. now exists t.
Qed.

Lemma scan_first_explanation (t : jsstring) :
  sc_explanation (scan_trimmed scan_init t) = stray_explanation t.
Proof.
  unfold scan_trimmed, stray_explanation.
  destruct (startsWith t (lit "A.")) eqn:EA.
  { apply startsWith_head in EA as [t' ->]. reflexivity. }
  destruct (startsWith t (lit "B.")) eqn:EB.
  { apply startsWith_head in EB as [t' ->]. reflexivity. }
  destruct (startsWith t (lit "C.")) eqn:EC.
  { apply startsWith_head in EC as [t' ->]. reflexivity. }
  destruct (startsWith t (lit "D.")) eqn:ED.
  { apply startsWith_head in ED as [t' ->]. reflexivity. }
  destruct (startsWith t (lit "Answer:")) eqn:EE.
  { apply startsWith_head in EE as [t' ->]. reflexivity. }
  destruct (startsWith t (lit "Explanation:")); reflexivity.
Qed.

Lemma assemble_block (index : nat) (b : Block) (questions : list Question) :
  well_formed b = true ->
  assemble index (trimmed_lines (block_body b)) questions
  = questions ++ [question_of index b].
Proof.
  intros Hwf. rewrite (trimmed_lines_block b Hwf).
  unfold well_formed in Hwf. repeat (apply andb_prop in Hwf as [Hwf ?]).
  unfold nonblank in *.
  unfold assemble.
  replace (length _ <? 6)%nat with false by (now destruct (b_explanation b)).
  cbn [nth].
  assert (E : fold_left scan_trimmed
                (trim (b_question b)
                 :: (lit "A." ++ trimEnd (b_A b)) :: (lit "B." ++ trimEnd (b_B b))
                 :: (lit "C." ++ trimEnd (b_C b)) :: (lit "D." ++ trimEnd (b_D b))
                 :: (lit "Answer:" ++ trimEnd (b_answer b))
                 :: match b_explanation b with
                    | Some e => [lit "Explanation:" ++ trimEnd e]
                    | None => []
                    end) scan_init
              = mkScan (mkOptions (trim (b_A b)) (trim (b_B b)) (trim (b_C b)) (trim (b_D b)))
                       (trim (b_answer b))
                       (match b_explanation b with
                        | Some e => trim e
                        | None => stray_explanation (trim (b_question b))
                        end)).
  { cbn [fold_left].
    rewrite scan_option_A, scan_option_B, scan_option_C, scan_option_D, scan_answer.
    destruct (b_explanation b) as [e|]; cbn [fold_left].
    - rewrite scan_explanation. unfold set_explanation, set_correctAnswer, set_D, set_C,
        set_B, set_A. cbn [sc_options sc_correctAnswer sc_explanation optA optB optC optD].
      now rewrite !trim_trimEnd.
    - unfold set_correctAnswer, set_D, set_C, set_B, set_A.
      cbn [sc_options sc_correctAnswer sc_explanation optA optB optC optD].
      now rewrite !trim_trimEnd, scan_first_explanation. }
  rewrite E. unfold complete. cbn [sc_options sc_correctAnswer sc_explanation optA optB optC optD].
  repeat match goal with H : truthy _ = true |- _ => rewrite H; clear H end.
  reflexivity.
Qed.

(** *** Splitting a text at its markers *)

Lemma split_markers_unfold (s : jsstring) :
  split_markers s = match find_marker s with
                    | None => [s]
                    | Some (b, a) => b :: split_markers a
                    end.
Proof.
  rewrite split_markers_equation_1. unfold inspect.
  assert (G : forall o (e : find_marker s = o),
             split_markers_unfold_clause_1 s (exist _ o e)
             = match o with None => [s] | Some (b, a) => b :: split_markers a end).
  { intros [[b a]|] e; reflexivity. }
  apply G.
Qed.

Lemma skip_digits_app (s rest : jsstring) :
  at_marker_or_end rest = true ->
  skip_digits (s ++ rest) = match skip_digits s with
                            | [] => rest
                            | c :: r => (c :: r) ++ rest
                            end.
Proof.
  intros Hrest. induction s as [|c s IH].
  - cbn. destruct rest as [|x rest]; [reflexivity|].
    cbn in Hrest. apply N.eqb_eq in Hrest. subst x. reflexivity.
  - cbn [app skip_digits]. destruct (is_digit c); [exact IH|reflexivity].
Qed.

Lemma match_marker_before (t rest : jsstring) :
  t <> [] -> match_marker t = None -> at_marker_or_end rest = true ->
  match_marker (t ++ rest) = None.
Proof.
  intros Ht Hm Hrest. destruct t as [|q [|d t]]; [congruence| |].
  - cbn [app]. destruct rest as [|x rest]; [reflexivity|].
    cbn in Hrest. apply N.eqb_eq in Hrest. subst x.
    cbn. now rewrite andb_false_r.
  - cbn [app match_marker] in *.
    destruct ((q =? 81)%N && is_digit d); [|reflexivity].
    rewrite skip_digits_app by exact Hrest.
    destruct (skip_digits t) as [|c r].
    + destruct rest as [|x rest]; [reflexivity|].
      cbn in Hrest. apply N.eqb_eq in Hrest. subst x. reflexivity.
    + cbn [app]. destruct (c =? 58)%N; [discriminate Hm|reflexivity].
Qed.

Lemma skip_digits_number (number rest : jsstring) :
  forallb is_digit number = true ->
  skip_digits (number ++ 58%N :: rest) = 58%N :: rest.
Proof.
  induction number as [|d number IH]; intros H; [reflexivity|].
  cbn in H. apply andb_prop in H as [Hd Hn]. cbn [app skip_digits].
  rewrite Hd. now apply IH.
Qed.

Lemma match_marker_marker (number rest : jsstring) :
  number_ok number = true -> match_marker (marker number ++ rest) = Some rest.
Proof.
  unfold number_ok. intros H. apply andb_prop in H as [Hne Hd].
  destruct number as [|d number]; [discriminate Hne|].
  cbn in Hd. apply andb_prop in Hd as [Hd Hn].
  unfold marker. cbn [app match_marker]. rewrite Hd. cbn [N.eqb Pos.eqb andb].
  rewrite <- app_assoc. cbn [app]. now rewrite skip_digits_number.
Qed.

Lemma at_marker_or_end_marker (number rest : jsstring) :
  at_marker_or_end (marker number ++ rest) = true.
Proof. reflexivity. Qed.

Lemma find_marker_unmarked (s : jsstring) : has_marker s = false -> find_marker s = None.
Proof.
  induction s as [|c s IH]; intros H; [reflexivity|].
  cbn [has_marker] in H. apply orb_false_iff in H as [Hm Hs].
  cbn [find_marker]. destruct (match_marker (c :: s)); [discriminate Hm|].
  now rewrite IH.
Qed.

Lemma find_marker_next (piece number rest : jsstring) :
  has_marker piece = false -> number_ok number = true ->
  find_marker (piece ++ marker number ++ rest) = Some (piece, rest).
Proof.
  intros Hp Hn. induction piece as [|c piece IH].
  - cbn [app]. unfold find_marker.
    destruct (marker number ++ rest) eqn:E; rewrite <- E;
      now rewrite match_marker_marker.
  - cbn [has_marker] in Hp. apply orb_false_iff in Hp as [Hm Hs].
    cbn [app find_marker].
    change (c :: piece ++ marker number ++ rest)
      with ((c :: piece) ++ marker number ++ rest).
    rewrite match_marker_before.
    + now rewrite IH.
    + discriminate.
    + now destruct (match_marker (c :: piece)).
    + apply at_marker_or_end_marker.
Qed.

Lemma segment_ok_parts (seg : Segment) :
  segment_ok seg = true ->
  number_ok (segment_number seg) = true /\ has_marker (segment_body seg) = false.
Proof.
  destruct seg as [b|number body]; cbn [segment_ok segment_number segment_body].
  - unfold well_formed. rewrite !andb_true_iff, negb_true_iff. tauto.
  - rewrite !andb_true_iff, negb_true_iff. tauto.
Qed.

Lemma split_markers_document (segs : list Segment) (piece : jsstring) :
  has_marker piece = false ->
  forallb segment_ok segs = true ->
  split_markers (document piece segs) = piece :: map segment_body segs.
Proof.
  revert piece. induction segs as [|seg segs IH]; intros piece Hp Hok.
  - unfold document. cbn. rewrite app_nil_r, split_markers_unfold.
    now rewrite find_marker_unmarked.
  - cbn in Hok. apply andb_prop in Hok as [Hseg Hok].
    destruct (segment_ok_parts seg Hseg) as [Hn Hb].
    unfold document. cbn [map concat]. unfold render at 1.
    rewrite <- !app_assoc, split_markers_unfold.
    rewrite find_marker_next by assumption.
    cbn [map]. f_equal. now apply IH.
Qed.

Lemma process_block_lacking (index : nat) (body : jsstring) :
  lacking body = true -> process_block index body [] = [].
Proof.
  intros H. destruct (process_block_cases index body) as [E|(q & _ & Hp)]; [exact E|].
  exfalso. unfold lacking in H. apply existsb_exists in H as (prefix & Hin & Hl).
  unfold lacks_line in Hl. rewrite forallb_forall in Hl.
  destruct Hp as (_ & _ & _ & _ & _ & [_ HA] & [_ HB] & [_ HC] & [_ HD] & [_ HE]).
  assert (G : forall n v, from_line prefix n (block_lines body) v -> False).
  { intros n v (l & Hl' & Hs & _). specialize (Hl l Hl'). rewrite Hs in Hl.
    discriminate Hl. }
  destruct Hin as [<-|[<-|[<-|[<-|[<-|[]]]]]]; eauto.
Qed.

Lemma forEach_blocks_expected (segs : list Segment) (index : nat) :
  index <> 0 ->
  forallb segment_ok segs = true ->
  forEach_blocks index (map segment_body segs) [] = expected index segs.
Proof.
  revert index. induction segs as [|seg segs IH]; intros index Hi Hok; [reflexivity|].
  cbn in Hok. apply andb_prop in Hok as [Hseg Hok].
  cbn [map]. rewrite forEach_blocks_cons, IH by (lia || assumption).
  destruct seg as [b|number body]; cbn [segment_body expected].
  - rewrite process_block_assemble by exact Hi.
    now rewrite assemble_block.
  - cbn in Hseg. apply andb_prop in Hseg as [_ Hl].
    now rewrite process_block_lacking.
Qed.

Lemma parseQuizText_document (preamble : jsstring) (segs : list Segment) :
  has_marker preamble = false ->
  forallb segment_ok segs = true ->
  parseQuizText (document preamble segs) = expected 1 segs.
Proof.
  intros Hp Hok. unfold parseQuizText.
  rewrite split_markers_document by assumption.
  rewrite forEach_blocks_cons. cbn [process_block Nat.eqb orb app].
  now apply forEach_blocks_expected.
Qed.

Lemma expected_good (blocks : list Block) (index : nat) :
  expected index (map Good blocks)
  = map (fun ib => question_of (fst ib) (snd ib))
        (combine (seq index (length blocks)) blocks).
Proof.
  revert index. induction blocks as [|b blocks IH]; intros index; [reflexivity|].
  cbn. now rewrite IH.
Qed.

Lemma expected_has_good (segs : list Segment) (index i : nat) (b : Block) :
  nth_error segs i = Some (Good b) -> In (question_of (index + i) b) (expected index segs).
Proof.
  revert index i. induction segs as [|seg segs IH]; intros index [|i] H; try discriminate.
  - cbn in H. injection H as ->. rewrite Nat.add_0_r. now left.
  - cbn in H. replace (index + S i) with (S index + i) by lia.
    destruct seg; cbn [expected]; [right|]; now apply IH.
Qed.

Lemma expected_ids (segs : list Segment) (index : nat) (q : Question) :
  In q (expected index segs) ->
  exists i b, nth_error segs i = Some (Good b) /\ id q = index + i.
Proof.
  revert index. induction segs as [|seg segs IH]; intros index H; [destruct H|].
  destruct seg as [b|number body]; cbn [expected] in H.
  - destruct H as [<-|H].
    + exists 0, b. split; [reflexivity|]. cbn. lia.
    + apply IH in H as (i & b' & Hn & Hid). exists (S i), b'. split; [exact Hn|lia].
  - apply IH in H as (i & b' & Hn & Hid). exists (S i), b'. split; [exact Hn|lia].
Qed.

(** C2. A text made of a preamble without marker and of well-formed blocks
    is parsed into one question per block, in the order of the blocks, the
    question of the [i]-th block (from 1) having the identifier [i] and the
    trimmed texts of the block as its fields. *)
Theorem parseQuizText_well_formed_blocks (preamble : jsstring) (blocks : list Block) :
  has_marker preamble = false ->
  forallb well_formed blocks = true ->
  let quizText := document preamble (map Good blocks) in
  parseQuizText quizText
  = map (fun ib => question_of (fst ib) (snd ib))
        (combine (seq 1 (length blocks)) blocks)
  /\ length (parseQuizText quizText) = length blocks
  /\ map id (parseQuizText quizText) = seq 1 (length blocks).
Proof.
  intros Hp Hwf quizText.
  assert (E : parseQuizText quizText
              = map (fun ib => question_of (fst ib) (snd ib))
                    (combine (seq 1 (length blocks)) blocks)).
  { subst quizText. rewrite parseQuizText_document.
    - apply expected_good.
    - exact Hp.
    - rewrite <- Hwf. clear. induction blocks as [|b blocks IH]; [reflexivity|].
      cbn. now rewrite IH. }
  split; [exact E|]. rewrite E. split.
  - rewrite length_map, length_combine, length_seq. apply Nat.min_id.
  - rewrite map_map. cbn [id question_of].
    rewrite <- (map_map fst (fun i => i)), map_id.
    clear. generalize 1 as index.
    induction blocks as [|b blocks IH]; intros index; [reflexivity|].
    cbn. now rewrite IH.
Qed.

(** C5, as the code has it. In a text made of a preamble without marker, of
    well-formed blocks and of blocks in which no line starts with the prefix
    of some option or with [Answer:], the questions are those of the
    well-formed blocks, in order, each with its position among all the
    blocks as identifier: every well-formed block gives its question and no
    question has the position of one of the other blocks. *)
Theorem parseQuizText_drops_blocks_lacking_a_line
    (preamble : jsstring) (segs : list Segment) :
  has_marker preamble = false ->
  forallb segment_ok segs = true ->
  let questions := parseQuizText (document preamble segs) in
  questions = expected 1 segs
  /\ (forall i b, nth_error segs i = Some (Good b) -> In (question_of (S i) b) questions)
  /\ (forall i number body,
        nth_error segs i = Some (Bad number body) -> ~ In (S i) (map id questions)).
Proof.
  intros Hp Hok questions.
  assert (E : questions = expected 1 segs) by now apply parseQuizText_document.
  split; [exact E|]. rewrite E. split.
  - intros i b H. now apply (expected_has_good segs 1 i b).
  - intros i number body H Hin.
    apply in_map_iff in Hin as (q & Hid & Hin).
    apply expected_ids in Hin as (j & b & Hj & Hid').
    assert (j = i) by lia. subst j. congruence.
Qed.

(** *** Sample texts *)

Lemma parseQuizText_well_formed_blocks_sample :
  has_marker (lit "Here is your quiz.") = false
  /\ forallb well_formed [block_paris; block_rome] = true
  /\ map id (parseQuizText (document (lit "Here is your quiz.")
                                     (map Good [block_paris; block_rome]))) = [1; 2].
Proof.
  split; [reflexivity|]. split; [reflexivity|].
  apply (parseQuizText_well_formed_blocks (lit "Here is your quiz.")
           [block_paris; block_rome]); reflexivity.
Defined.

Lemma parseQuizText_drops_blocks_lacking_a_line_sample :
  has_marker [] = false
  /\ forallb segment_ok [Good block_paris; Bad (lit "2") body_without_D; Good block_berlin]
     = true
  /\ parseQuizText (document [] [Good block_paris; Bad (lit "2") body_without_D;
                                 Good block_berlin])
     = [question_of 1 block_paris; question_of 3 block_berlin].
Proof.
  split; [reflexivity|]. split; [reflexivity|].
  apply (parseQuizText_drops_blocks_lacking_a_line []
           [Good block_paris; Bad (lit "2") body_without_D; Good block_berlin]);
    reflexivity.
Defined.

(** C5 as stated fails: the second block below has no line for option D, yet
    its question line starts with [D.], its six non-blank lines pass the
    length test, and the block gives a question whose option D is the rest
    of the question line. *)
Lemma parseQuizText_keeps_block_without_D_line :
  let quizText :=
    unlines ["Q1: What is the capital of Italy?"; "A. Rome"; "B. Milan"; "C. Turin";
             "D. Pisa"; "Answer: A"; "";
             "Q2: D. H. Lawrence wrote which novel?"; "A. Ulysses";
             "B. Sons and Lovers"; "C. Dubliners"; "Answer: B";
             "Explanation: It is his third novel."]%string in
  block_lines (nth 2 (split_markers quizText) [])
  = [lit "D. H. Lawrence wrote which novel?"; lit "A. Ulysses"; lit "B. Sons and Lovers";
     lit "C. Dubliners"; lit "Answer: B"; lit "Explanation: It is his third novel."]
  /\ parseQuizText quizText
     = [mkQuestion 1 (lit "What is the capital of Italy?")
                   (mkOptions (lit "Rome") (lit "Milan") (lit "Turin") (lit "Pisa"))
                   (lit "A") [];
        mkQuestion 2 (lit "D. H. Lawrence wrote which novel?")
                   (mkOptions (lit "Ulysses") (lit "Sons and Lovers") (lit "Dubliners")
                              (lit "H. Lawrence wrote which novel?"))
                   (lit "B") (lit "It is his third novel.")].
Proof. vm_compute. split; reflexivity. Qed.

(** C1 as stated fails: the answer is never compared with the letters A
    to D; a block whose answer line reads [Answer: E] gives a question. *)
Lemma parseQuizText_answer_not_a_letter :
  let quizText :=
    unlines ["Q1: What is the capital of Italy?"; "A. Rome"; "B. Milan"; "C. Turin";
             "D. Pisa"; "Answer: E"]%string in
  parseQuizText quizText
  = [mkQuestion 1 (lit "What is the capital of Italy?")
                (mkOptions (lit "Rome") (lit "Milan") (lit "Turin") (lit "Pisa"))
                (lit "E") []]
  /\ map (fun q => letter_A_to_D (correctAnswer q)) (parseQuizText quizText) = [false].
Proof. vm_compute. split; reflexivity. Qed.

(** [parseQuizText] keeps all of the text after [Answer:], where the earlier
    parser keeps its first unit. *)
Remark parseQuizText_answer_whole_text :
  map correctAnswer
      (parseQuizText
         (unlines ["Q1: What is the capital of France?"; "A. Lyon"; "B. Paris"; "C. Nice";
                   "D. Lille"; "Answer: B) Paris"]%string))
  = [lit "B) Paris"].
Proof. vm_compute. reflexivity. Qed.

(** The earlier parser pushes a question for every line that starts with
    [Q], whatever follows: here with two options and no answer. *)
Remark parseAIQuizText_keeps_incomplete_block :
  LegacyParser.parseAIQuizText
    (unlines ["Q1: What is the capital of Italy?"; "A. Rome"; "B. Milan"]%string)
  = [LegacyParser.mkQuizQuestion (lit "What is the capital of Italy?")
                                 [lit "Rome"; lit "Milan"] (Some [])].
Proof. vm_compute. reflexivity. Qed.

(** It keeps the first unit after [Answer:], whatever it is. *)
Remark parseAIQuizText_first_unit_of_answer :
  map LegacyParser.qq_answer
      (LegacyParser.parseAIQuizText
         (unlines ["Q1: What is the capital of Italy?"; "A. Rome"; "B. Milan"; "C. Turin";
                   "D. Pisa"; "answer: (A) Rome"]%string))
  = [Some (lit "(")].
Proof. vm_compute. reflexivity. Qed.

Lemma parseQuizText_fields_sample :
  let quizText := document [] [Good block_rome] in
  let q := question_of 1 block_rome in
  In q (parseQuizText quizText)
  /\ optA (options q) = lit "Rome"
  /\ answer_from (block_lines (block_body block_rome)) (correctAnswer q).
Proof.
  assert (H : In (question_of 1 block_rome)
                 (parseQuizText (document [] [Good block_rome]))).
  { vm_compute. left. reflexivity. }
  split; [exact H|]. split; [reflexivity|].
  destruct (parseQuizText_fields (document [] [Good block_rome])
              (question_of 1 block_rome) H)
    as (block & Hnth & _ & _ & _ & _ & _ & _ & _ & _ & _ & _ & _ & _ & _ & HE).
  vm_compute in Hnth. injection Hnth as <-. exact HE.
Defined.

End ParserFacts.

(** ** The upload API *)

Section ApiFacts.
Import JS Api.

Lemma parseFileExt_without_dot (fileName : jsstring) :
  ~ In 46%N fileName -> parseFileExt fileName = toLowerCase fileName.
Proof.
  intros H. unfold parseFileExt. rewrite (split_without_separator _ _ H). cbn.
  now destruct fileName.
Qed.

Lemma validateFile_cases (fileName fp : jsstring) (sz : option N) :
  fileName <> [] ->
  validateFile (mkUploadedFile (Some fileName) fp sz) =
    if negb (includes ALLOWED_EXTENSIONS (parseFileExt fileName))
    then Throw (lit "Unsupported file type: " ++ parseFileExt fileName ++ lit ". Allowed: "
                ++ join (lit ", ") ALLOWED_EXTENSIONS)
    else match sz with
         | Some n => if negb (n =? 0)%N && (MAX_FILE_SIZE <? n)%N
                     then Throw (lit "File too large: " ++ megabytes_toFixed1 n
                                 ++ lit "MB. Max: 10MB")
                     else Ok tt
         | None => Ok tt
         end.
Proof.
  intros H. unfold validateFile. cbn [originalFilename size].
  destruct fileName; [congruence|]. reflexivity.
Qed.



(** C10. A file name without a dot is its own extension: [parseFileExt]
    returns the whole name in lower case, which is not empty unless the name
    is, and [validateFile] then judges such a file by its size alone when
    that lower-cased name is an allowed extension. *)
Theorem parseFileExt_dotless_name (fileName : jsstring) :
  ~ In 46%N fileName ->
  parseFileExt fileName = toLowerCase fileName
  /\ (fileName <> [] -> parseFileExt fileName <> [])
  /\ (includes ALLOWED_EXTENSIONS (toLowerCase fileName) = true ->
      forall (fp : jsstring) (sz : N),
        (sz <= MAX_FILE_SIZE)%N ->
        validateFile (mkUploadedFile (Some fileName) fp (Some sz)) = Ok tt).
Proof.
  intros Hdot. pose proof (parseFileExt_without_dot _ Hdot) as E.
  split; [exact E|]. split.
  - intros Hne. rewrite E. destruct fileName; [congruence|discriminate].
  - intros Hin fp sz Hsz.
    assert (Hne : fileName <> []).
    { intros ->. discriminate Hin. }
    rewrite (validateFile_cases _ fp (Some sz) Hne), E, Hin. cbn [negb].
    replace (MAX_FILE_SIZE <? sz)%N with false; [now rewrite andb_false_r|].
    symmetry. now apply N.ltb_ge.
Qed.

(** A file named [pdf], 1000 bytes long, is accepted. *)
Lemma parseFileExt_dotless_name_pdf :
  ~ In 46%N (lit "pdf")
  /\ parseFileExt (lit "pdf") = lit "pdf"
  /\ validateFile (mkUploadedFile (Some (lit "pdf")) (lit "/tmp/upload") (Some 1000%N)) = Ok tt.
Proof.
  assert (H : ~ In 46%N (lit "pdf")).
  { cbn. intros [H|[H|[H|[]]]]; discriminate H. }
  destruct (parseFileExt_dotless_name _ H) as (E & _ & V).
  split; [exact H|]. split; [exact E|].
  apply V; [reflexivity|]. unfold MAX_FILE_SIZE. lia.
Defined.

(** *** The OCR worker *)

(** In the revision with [validateFile], an image that passes validation and
    whose worker is created always gives the same trace, whatever [recognize]
    and [terminate] do: the worker is terminated on every exit. *)
Lemma extractText_releases_worker (w : World) (file : UploadedFile) :
  validateFile file = Ok tt ->
  image_ext (parseFileExt (filename_or_empty file)) = true ->
  readFileSync w = Ok tt ->
  createWorker w = Ok tt ->
  fst (extractText w file) = [ReadFileSync; CreateWorker; Recognize; Terminate].
Proof.
  intros Hv Himg Hr Hc. unfold extractText. rewrite Hv, Hr, Hc.
  set (ext := parseFileExt (filename_or_empty file)) in *.
  unfold image_ext in Himg.
  assert (Hpdf : JS.eqb ext (lit "pdf") = false).
  { destruct (JS.eqb ext (lit "pdf")) eqn:E; [|reflexivity].
    apply jsstring_eqb_eq in E. rewrite E in Himg. discriminate Himg. }
  assert (Hdocx : JS.eqb ext (lit "docx") = false).
  { destruct (JS.eqb ext (lit "docx")) eqn:E; [|reflexivity].
    apply jsstring_eqb_eq in E. rewrite E in Himg. discriminate Himg. }
  assert (Htxt : JS.eqb ext (lit "txt") = false).
  { destruct (JS.eqb ext (lit "txt")) eqn:E; [|reflexivity].
    apply jsstring_eqb_eq in E. rewrite E in Himg. discriminate Himg. }
  assert (Hrtf : JS.eqb ext (lit "rtf") = false).
  { destruct (JS.eqb ext (lit "rtf")) eqn:E; [|reflexivity].
    apply jsstring_eqb_eq in E. rewrite E in Himg. discriminate Himg. }
  rewrite Hpdf, Hdocx, Htxt, Hrtf, Himg. cbn [orb].
  destruct (recognize w) as [text|e], (terminate w) as [[]|e'];
    cbn; try destruct (blank text); reflexivity.
Qed.

(** C9, on the revision of [extractText] without [validateFile] (lines
    30-51): for [scan.png], when [recognize] throws, the calls made are
    [readFileSync], [createWorker] and [recognize]; [terminate] is never
    called, where the revision with [try]/[finally] calls it. *)
Theorem extractText_legacy_leaks_worker :
  let file := mkUploadedFile (Some (lit "scan.png")) (lit "/tmp/upload") (Some 2048%N) in
  let w := mkWorld (Ok tt) [] (Ok []) (Ok []) (Ok tt) (Throw (lit "recognition failed")) (Ok tt) in
  extractText_legacy w file
    = ([ReadFileSync; CreateWorker; Recognize], Throw (lit "recognition failed"))
  /\ worker_released (fst (extractText_legacy w file)) = false
  /\ fst (extractText w file) = [ReadFileSync; CreateWorker; Recognize; Terminate]
  /\ worker_released (fst (extractText w file)) = true.
Proof. vm_compute. repeat split. Qed.

End ApiFacts.

(** ** The quiz session *)

Section SessionFacts.
Import JS Parser Session.

Lemma find_app_first {A} (f : A -> bool) (l1 l2 : list A) :
  find f (l1 ++ l2) = match find f l1 with Some x => Some x | None => find f l2 end.
Proof.
  induction l1 as [|x l1 IH]; [reflexivity|].
  simpl. now destruct (f x).
Qed.

Lemma find_answer_filter_same (qid : nat) (answers : list UserAnswer) :
  find_answer qid (filter (fun a => negb (questionId a =? qid)%nat) answers) = None.
Proof.
  unfold find_answer. induction answers as [|a l IH]; [reflexivity|].
  simpl. destruct (questionId a =? qid)%nat eqn:E; simpl; [exact IH|].
  now rewrite E.
Qed.

Lemma find_answer_filter_other (qid other : nat) (answers : list UserAnswer) :
  qid <> other ->
  find_answer qid (filter (fun a => negb (questionId a =? other)%nat) answers)
  = find_answer qid answers.
Proof.
  intros Hne. unfold find_answer. induction answers as [|a l IH]; [reflexivity|].
  simpl. destruct (questionId a =? other)%nat eqn:E; simpl.
  - apply Nat.eqb_eq in E.
    destruct (questionId a =? qid)%nat eqn:E'; [|exact IH].
    apply Nat.eqb_eq in E'. congruence.
  - destruct (questionId a =? qid)%nat; [reflexivity|exact IH].
Qed.

Lemma most_recent_snoc (qid q : nat) (key : jsstring) (log : list (nat * jsstring)) :
  most_recent qid (log ++ [(q, key)])
  = if (q =? qid)%nat then Some key else most_recent qid log.
Proof.
  unfold most_recent. rewrite rev_app_distr. simpl.
  now destruct (q =? qid)%nat.
Qed.

Lemma calculateScore_counts (s : State) :
  calculateScore s = length (filter (answered_correctly (userAnswers s)) (currentQuiz s)).
Proof.
  unfold calculateScore. generalize (currentQuiz s) as l. generalize (userAnswers s) as answers.
  intros answers l.
  change (length (filter (answered_correctly answers) l))
    with (0 + length (filter (answered_correctly answers) l)).
  generalize 0 as n. induction l as [|q l IH]; intros n; simpl; [lia|].
  rewrite IH. unfold answered_correctly at 2.
  destruct (find_answer (id q) answers) as [ua|]; [|lia].
  destruct (JS.eqb (selectedAnswer ua) (correctAnswer q)); simpl; lia.
Qed.

Variable Rand : Type.
Variable sort_random : Rand -> list Question -> list Question.


(** *** The recorded answers and the history of a run *)

Lemma answers_match_empty (s : State) : userAnswers s = [] -> answers_match s [].
Proof. intros H qid. rewrite H. reflexivity. Qed.

Lemma userAnswers_handleSubmit (r : Rand) (resp : Response) (s : State) (f : File) :
  file s = Some f -> userAnswers (handleSubmit sort_random r resp s) = [].
Proof.
  intros Hf. unfold handleSubmit. rewrite Hf.
  destruct resp as [m|m|quiz]; cbn; try reflexivity.
  destruct (length (parseQuizText quiz) =? 0)%nat; reflexivity.
Qed.

Lemma answers_match_step (s : State) (a : Action Rand) (log : list (nat * jsstring)) :
  answers_match s log -> answers_match (step sort_random s a) (record s a log).
Proof.
  intros H. destruct a as [f|n|r resp|key| | | |r| ]; cbn [Session.step Session.record].
  - destruct (upload_visible s && negb (loading s)); [|exact H].
    now apply answers_match_empty.
  - destruct (upload_visible s && negb (loading s) && existsb (Z.eqb n) [3; 5; 7; 10]%Z);
      exact H.
  - destruct (file s) as [f|] eqn:Hf.
    + destruct (upload_visible s && negb (loading s) && true); [|exact H].
      apply answers_match_empty. now apply userAnswers_handleSubmit with (f := f).
    + rewrite andb_false_r. exact H.
  - destruct (quiz_visible s); [|exact H].
    unfold selectAnswer.
    destruct (nth_error (currentQuiz s) (currentQuestionIndex s)) as [cq|]; [|exact H].
    intros qid. cbn [userAnswers setUserAnswers].
    rewrite most_recent_snoc. unfold find_answer at 1. rewrite find_app_first.
    fold (find_answer qid (filter (fun a => negb (questionId a =? id cq)%nat) (userAnswers s))).
    destruct (Nat.eqb_spec (id cq) qid) as [<-|Hne].
    + rewrite find_answer_filter_same. cbn. now rewrite Nat.eqb_refl.
    + rewrite find_answer_filter_other by congruence.
      cbn [find questionId]. apply Nat.eqb_neq in Hne. rewrite Hne.
      specialize (H qid). destruct (find_answer qid (userAnswers s)); exact H.
  - destruct (quiz_visible s && current_answered s); [|exact H].
    unfold nextQuestion.
    destruct (Z.of_nat (currentQuestionIndex s) <? Z.of_nat (length (currentQuiz s)) - 1)%Z;
      exact H.
  - destruct (quiz_visible s && negb (currentQuestionIndex s =? 0)%nat); [|exact H].
    unfold prevQuestion. destruct (0 <? currentQuestionIndex s)%nat; exact H.
  - destruct (results_visible s); [|exact H]. now apply answers_match_empty.
  - destruct (results_visible s); [|exact H]. now apply answers_match_empty.
  - destruct (results_visible s); [|exact H]. now apply answers_match_empty.
Qed.

Lemma answers_match_run (actions : list (Action Rand)) (s : State) (log : list (nat * jsstring)) :
  answers_match s log -> answers_match (run sort_random s actions) (history sort_random s actions log).
Proof.
  revert s log. induction actions as [|a actions IH]; intros s log H; [exact H|].
  cbn. apply IH. now apply answers_match_step.
Qed.

(** C4. After any run of the page from its initial state (a completed
    session is one of them), the score is the pair of the number of sampled
    questions whose most recently recorded letter is the question's correct
    answer, and the sample size; computing it leaves the state as it is, and
    computing it again gives the same pair. *)
Theorem score_counts_most_recent_answers (actions : list (Action Rand)) :
  let s := run sort_random initial_state actions in
  let log := history sort_random initial_state actions [] in
  score s =
    (length (filter (fun q => match most_recent (id q) log with
                              | Some letter => JS.eqb letter (correctAnswer q)
                              | None => false
                              end) (currentQuiz s)),
     length (currentQuiz s))
  /\ snd (Score s) = s
  /\ fst (Score (snd (Score s))) = fst (Score s).
Proof.
  intros s log.
  assert (H : answers_match s log).
  { apply answers_match_run. now apply answers_match_empty. }
  split; [|split; reflexivity].
  unfold score. rewrite calculateScore_counts. f_equal. f_equal.
  apply filter_ext. intros q. unfold answered_correctly.
  specialize (H (id q)). destruct (find_answer (id q) (userAnswers s)); cbn in H;
    rewrite <- H; reflexivity.
Qed.

(** *** Retaking the quiz *)

Lemma showResults_handleSubmit (r : Rand) (resp : Response) (s : State) :
  showResults s = false -> showResults (handleSubmit sort_random r resp s) = false.
Proof.
  intros H. unfold handleSubmit. destruct (file s); [|exact H].
  destruct resp as [m|m|quiz]; cbn; try reflexivity.
  destruct (length (parseQuizText quiz) =? 0)%nat; reflexivity.
Qed.

Lemma sampled_when_completed_step (s : State) (a : Action Rand) :
  sampled_when_completed s -> sampled_when_completed (step sort_random s a).
Proof.
  unfold sampled_when_completed. intros H.
  destruct a as [f|n|r resp|key| | | |r| ]; cbn [Session.step].
  - destruct (upload_visible s && negb (loading s)); [|exact H]. cbn. discriminate.
  - destruct (upload_visible s && negb (loading s) && existsb (Z.eqb n) [3; 5; 7; 10]%Z);
      exact H.
  - destruct (upload_visible s && negb (loading s)
              && match file s with Some _ => true | None => false end) eqn:G; [|exact H].
    assert (Hs : showResults s = false).
    { unfold upload_visible in G. destruct (showResults s); [|reflexivity].
      rewrite andb_false_r in G. discriminate G. }
    rewrite (showResults_handleSubmit r resp s Hs). discriminate.
  - destruct (quiz_visible s); [|exact H]. unfold selectAnswer.
    destruct (nth_error (currentQuiz s) (currentQuestionIndex s)); exact H.
  - destruct (quiz_visible s && current_answered s) eqn:G; [|exact H].
    unfold nextQuestion.
    destruct (Z.of_nat (currentQuestionIndex s) <? Z.of_nat (length (currentQuiz s)) - 1)%Z;
      [exact H|].
    cbn. intros _ E. unfold quiz_visible in G. rewrite E in G. discriminate G.
  - destruct (quiz_visible s && negb (currentQuestionIndex s =? 0)%nat); [|exact H].
    unfold prevQuestion. destruct (0 <? currentQuestionIndex s)%nat; exact H.
  - destruct (results_visible s); [|exact H]. cbn. discriminate.
  - destruct (results_visible s); [|exact H]. cbn. discriminate.
  - destruct (results_visible s); [|exact H]. cbn. discriminate.
Qed.

Lemma sampled_when_completed_run (actions : list (Action Rand)) (s : State) :
  sampled_when_completed s -> sampled_when_completed (run sort_random s actions).
Proof.
  revert s. induction actions as [|a actions IH]; intros s H; [exact H|].
  cbn. apply IH. now apply sampled_when_completed_step.
Qed.

(** C8. In a completed session (any run of the page from its initial state
    that ends on the results), retaking the quiz puts the session back in
    progress with the same sampled questions, and so the same identifiers,
    no recorded answer and the cursor on the first question; the question
    pool and every other cell but the two completion flags are unchanged. *)
Theorem retakeQuiz_same_sample (actions : list (Action Rand)) :
  let s := run sort_random initial_state actions in
  phase s = Completed ->
  let s' := step sort_random s RetakeQuiz in
  phase s' = InProgress
  /\ currentQuiz s' = currentQuiz s
  /\ map id (currentQuiz s') = map id (currentQuiz s)
  /\ userAnswers s' = []
  /\ currentQuestionIndex s' = 0
  /\ s' = mkState (file s) (numQuestions s) (loading s) (error s) (uploadProgress s)
                  (fullQuizData s) (currentQuiz s) 0 [] false false.
Proof.
  intros s Hphase s'.
  assert (Hres : showResults s = true).
  { unfold phase in Hphase. destruct (showResults s); [reflexivity|].
    destruct (_ && _); discriminate Hphase. }
  assert (Hquiz : currentQuiz s <> []).
  { apply (sampled_when_completed_run actions initial_state); [discriminate|exact Hres]. }
  assert (E : s' = retakeQuiz s).
  { subst s'. cbn [Session.step]. unfold results_visible. now rewrite Hres. }
  rewrite E. repeat split.
  unfold phase. cbn. destruct (currentQuiz s); [congruence|reflexivity].
Qed.

(** *** Starting a quiz *)

Hypothesis sort_permutes : forall r l, Permutation l (sort_random r l).

Lemma slice0_firstn {A} (l : list A) (n : Z) :
  (0 <= n)%Z -> slice0 l n = firstn (Z.to_nat n) l.
Proof.
  intros H. unfold slice0. destruct (Z.ltb_spec n 0); [lia|reflexivity].
Qed.

Lemma NoDup_firstn {A} (n : nat) (l : list A) : NoDup l -> NoDup (firstn n l).
Proof.
  revert n. induction l as [|x l IH]; intros [|n] H; simpl; try constructor.
  - inversion H as [|? ? Hx Hl]; subst. intros Hin. apply Hx.
    rewrite <- (firstn_skipn n l). apply in_or_app. now left.
  - inversion H; subst. now apply IH.
Qed.

(** C3. Starting a quiz on a pool whose identifiers are distinct (as the
    parser's are), with a requested count [R >= 0], samples [min R P]
    questions of the pool without replacement: the sample and a remainder
    together are a permutation of the pool, and no identifier occurs twice
    in the sample. The cursor is at 0 and no answer is recorded. *)
Theorem startQuiz_samples_without_replacement
    (r : Rand) (pool : list Question) (s : State) :
  (0 <= numQuestions s)%Z ->
  NoDup (map id pool) ->
  let sample := currentQuiz (startQuiz sort_random r pool s) in
  length sample = Nat.min (Z.to_nat (numQuestions s)) (length pool)
  /\ (exists rest, Permutation pool (sample ++ rest))
  /\ NoDup (map id sample)
  /\ currentQuestionIndex (startQuiz sort_random r pool s) = 0
  /\ userAnswers (startQuiz sort_random r pool s) = [].
Proof.
  intros HR Hids sample. subst sample. cbn.
  rewrite slice0_firstn by exact HR.
  set (n := Z.to_nat (numQuestions s)). set (shuffled := sort_random r pool).
  assert (Hp : Permutation pool shuffled) by apply sort_permutes.
  split; [|split; [|split; [|split; reflexivity]]].
  - rewrite length_firstn. now rewrite (Permutation_length Hp).
  - exists (skipn n shuffled). now rewrite firstn_skipn.
  - rewrite <- firstn_map. apply NoDup_firstn.
    apply (Permutation_NoDup (l := map id pool)); [|exact Hids].
    now apply Permutation_map.
Qed.

(** *** Submitting *)

(** With a file selected, what [handleSubmit] does with the generated text
    depends on the parse alone. *)
Lemma handleSubmit_on_parse (r : Rand) (quiz : jsstring) (s : State) (f : File) :
  file s = Some f ->
  let s' := handleSubmit sort_random r (Quiz quiz) s in
  let message := lit "No valid questions could be parsed from the generated quiz" in
  (parseQuizText quiz = [] ->
     (forall s0, snd (submit_try sort_random r (Quiz quiz) s0) = Some message)
     /\ error s' = message
     /\ fullQuizData s' = fullQuizData s
     /\ currentQuiz s' = currentQuiz s)
  /\ (parseQuizText quiz <> [] ->
      error s' = []
      /\ fullQuizData s' = parseQuizText quiz
      /\ currentQuiz s' = slice0 (sort_random r (parseQuizText quiz)) (numQuestions s))
  /\ loading s' = false.
Proof.
  intros Hf s' message. subst s' message. unfold handleSubmit, submit_try.
  rewrite Hf. split; [|split].
  - intros Hparse. rewrite Hparse. cbn. repeat split.
  - intros Hparse. destruct (parseQuizText quiz) as [|q pool]; [congruence|].
    cbn. repeat split.
  - destruct (length (parseQuizText quiz) =? 0)%nat; reflexivity.
Qed.

Lemma expected_without_good (segs : list Grammar.Segment) (index : nat) :
  (forall seg, In seg segs -> exists number body, seg = Grammar.Bad number body) ->
  Grammar.expected index segs = [].
Proof.
  revert index. induction segs as [|seg segs IH]; intros index H; [reflexivity|].
  destruct (H seg (or_introl eq_refl)) as (number & body & ->).
  cbn [Grammar.expected]. apply IH. intros seg' Hin. apply H. now right.
Qed.

Lemma expected_with_good (segs : list Grammar.Segment) (index : nat) (b : Grammar.Block) :
  In (Grammar.Good b) segs -> Grammar.expected index segs <> [].
Proof.
  intros Hin. apply In_nth_error in Hin as (i & Hi).
  pose proof (expected_has_good segs index i b Hi) as H.
  intros E. rewrite E in H. exact H.
Qed.

(** C6, as the code has it. The generated text is a preamble without marker
    followed by blocks, each of them well formed or without a line that
    starts with the prefix of some option or with [Answer:]. With a file
    selected, when no block is well formed [handleSubmit] parses no
    question, its [try] block throws [No valid questions could be parsed
    from the generated quiz], the message ends up in [error], and neither
    the pool nor the current quiz is touched; when some block is well formed
    the pool is stored, not empty, and a quiz is started with no error. And
    whatever the text, [handleSubmit] either reports that error or stores a
    pool that is not empty. *)
Theorem handleSubmit_rejects_empty_pool
    (r : Rand) (preamble : jsstring) (segs : list Grammar.Segment)
    (s : State) (f : File) :
  file s = Some f ->
  Marker.has_marker preamble = false ->
  forallb Grammar.segment_ok segs = true ->
  let quiz := Grammar.document preamble segs in
  let s' := handleSubmit sort_random r (Quiz quiz) s in
  let message := lit "No valid questions could be parsed from the generated quiz" in
  ((forall seg, In seg segs -> exists number body, seg = Grammar.Bad number body) ->
     parseQuizText quiz = []
     /\ (forall s0, snd (submit_try sort_random r (Quiz quiz) s0) = Some message)
     /\ error s' = message
     /\ fullQuizData s' = fullQuizData s
     /\ currentQuiz s' = currentQuiz s)
  /\ ((exists b, In (Grammar.Good b) segs) ->
      error s' = []
      /\ fullQuizData s' = Grammar.expected 1 segs
      /\ fullQuizData s' <> []
      /\ currentQuiz s'
         = slice0 (sort_random r (Grammar.expected 1 segs)) (numQuestions s))
  /\ (forall text,
        let t := handleSubmit sort_random r (Quiz text) s in
        (parseQuizText text = [] /\ error t = message
         /\ fullQuizData t = fullQuizData s /\ currentQuiz t = currentQuiz s)
        \/ (error t = [] /\ fullQuizData t = parseQuizText text /\ fullQuizData t <> []))
  /\ loading s' = false.
Proof.
  intros Hf Hp Hok quiz s' message.
  assert (E : parseQuizText quiz = Grammar.expected 1 segs)
    by now apply parseQuizText_document.
  destruct (handleSubmit_on_parse r quiz s f Hf) as (Hempty & Hsome & Hloading).
  split; [|split; [|split]].
  - intros Hbad.
    assert (E0 : parseQuizText quiz = [])
      by (rewrite E; now apply expected_without_good).
    split; [exact E0|]. now apply Hempty.
  - intros [b Hb].
    assert (E1 : parseQuizText quiz <> [])
      by (rewrite E; now apply (expected_with_good segs 1 b)).
    destruct (Hsome E1) as (He & Hfull & Hcur).
    fold s' in He, Hfull, Hcur. rewrite <- E.
    repeat split; try assumption. now rewrite Hfull.
  - intros text t.
    destruct (handleSubmit_on_parse r text s f Hf) as (Hempty' & Hsome' & _).
    destruct (parseQuizText text) as [|q pool] eqn:Et.
    + left. destruct (Hempty' eq_refl) as (_ & He & Hfull & Hcur). now repeat split.
    + right. destruct (Hsome' ltac:(discriminate)) as (He & Hfull & _).
      fold t in He, Hfull. repeat split; try assumption. rewrite Hfull. discriminate.
  - exact Hloading.
Qed.

End SessionFacts.

(** *** A concrete random sort and sample runs *)

Section SessionSamples.
Import JS Parser Grammar Session.

Lemma insert_random_permutes (x : Question) (l : list Question) (draws : list bool) :
  Permutation (x :: l) (fst (insert_random x l draws)).
Proof.
  revert draws. induction l as [|y l IH]; intros draws; [reflexivity|].
  cbn [insert_random]. destruct draws as [|[|] draws]; try reflexivity.
  specialize (IH draws). destruct (insert_random x l draws) as [l' draws'].
  cbn [fst] in *. rewrite perm_swap. now constructor.
Qed.

Lemma insertion_shuffle_permutes (draws : list bool) (l : list Question) :
  Permutation l (insertion_shuffle draws l).
Proof.
  unfold insertion_shuffle. induction l as [|x l IH]; [reflexivity|].
  cbn [insertion_sort_random].
  destruct (insertion_sort_random draws l) as [sorted draws'] eqn:E. cbn [fst] in IH.
  rewrite <- insert_random_permutes. now constructor.
Qed.

Example sample_run_score :
  map id (currentQuiz (run insertion_shuffle initial_state sample_run)) = [2; 1]
  /\ history insertion_shuffle initial_state sample_run []
     = [(2, lit "B"); (2, lit "A"); (1, lit "B")]
  /\ score (run insertion_shuffle initial_state sample_run) = (2, 2).
Proof. vm_compute. repeat split. Qed.

Lemma startQuiz_samples_without_replacement_sample :
  let pool := parseQuizText sample_quiz in
  let s := initial_state in
  (0 <= numQuestions s)%Z
  /\ NoDup (map id pool)
  /\ length (currentQuiz (startQuiz insertion_shuffle [true; false] pool s)) = 2
  /\ NoDup (map id (currentQuiz (startQuiz insertion_shuffle [true; false] pool s))).
Proof.
  assert (H0 : (0 <= numQuestions initial_state)%Z) by (cbn; lia).
  assert (H1 : NoDup (map id (parseQuizText sample_quiz)))
    by apply parseQuizText_ids_distinct.
  split; [exact H0|]. split; [exact H1|].
  destruct (startQuiz_samples_without_replacement (list bool) insertion_shuffle
              insertion_shuffle_permutes [true; false] (parseQuizText sample_quiz)
              initial_state H0 H1) as (Hlen & _ & Hids & _).
  split; [exact Hlen|exact Hids].
Defined.

(** A generated text whose only block has no line that starts with [D.]. *)
Lemma handleSubmit_rejects_empty_pool_sample :
  let s := setFile (Some sample_file) initial_state in
  let quiz := document (lit "Here is your quiz.") [Bad (lit "1") body_without_D] in
  file s = Some sample_file
  /\ Marker.has_marker (lit "Here is your quiz.") = false
  /\ forallb segment_ok [Bad (lit "1") body_without_D] = true
  /\ parseQuizText quiz = []
  /\ error (handleSubmit insertion_shuffle [] (Quiz quiz) s)
     = lit "No valid questions could be parsed from the generated quiz"
  /\ fullQuizData (handleSubmit insertion_shuffle [] (Quiz quiz) s) = [].
Proof.
  assert (H0 : file (setFile (Some sample_file) initial_state) = Some sample_file)
    by reflexivity.
  assert (H1 : Marker.has_marker (lit "Here is your quiz.") = false)
    by (vm_compute; reflexivity).
  assert (H2 : forallb segment_ok [Bad (lit "1") body_without_D] = true)
    by (vm_compute; reflexivity).
  split; [exact H0|]. split; [exact H1|]. split; [exact H2|].
  destruct (handleSubmit_rejects_empty_pool (list bool) insertion_shuffle []
              (lit "Here is your quiz.") [Bad (lit "1") body_without_D]
              (setFile (Some sample_file) initial_state) sample_file H0 H1 H2)
    as (Hempty & _).
  assert (Hbad : forall seg, In seg [Bad (lit "1") body_without_D] ->
                             exists number body, seg = Bad number body).
  { intros seg [<-|[]]. now exists (lit "1"), body_without_D. }
  destruct (Hempty Hbad) as (Hparse & _ & He & Hf & _).
  split; [exact Hparse|]. split; [exact He|exact Hf].
Defined.

(** C6 as stated fails: the only block of the text below has no line for
    option D, so the text has no well-formed block; yet its question line
    starts with [D.], the block gives a question, and [handleSubmit] stores
    a pool of one question and starts a quiz with no error. *)
Lemma handleSubmit_starts_quiz_without_D_line :
  let quiz :=
    unlines ["Q1: D. H. Lawrence wrote which novel?"; "A. Ulysses";
             "B. Sons and Lovers"; "C. Dubliners"; "Answer: B";
             "Explanation: It is his third novel."]%string in
  let s := handleSubmit insertion_shuffle [] (Quiz quiz)
                        (setFile (Some sample_file) initial_state) in
  map block_lines (Marker.split_markers quiz)
  = [[];
     [lit "D. H. Lawrence wrote which novel?"; lit "A. Ulysses";
      lit "B. Sons and Lovers"; lit "C. Dubliners"; lit "Answer: B";
      lit "Explanation: It is his third novel."]]
  /\ error s = []
  /\ fullQuizData s
     = [mkQuestion 1 (lit "D. H. Lawrence wrote which novel?")
                   (mkOptions (lit "Ulysses") (lit "Sons and Lovers") (lit "Dubliners")
                              (lit "H. Lawrence wrote which novel?"))
                   (lit "B") (lit "It is his third novel.")]
  /\ currentQuiz s = fullQuizData s
  /\ phase s = InProgress.
Proof. vm_compute. repeat split. Qed.

Lemma retakeQuiz_same_sample_run :
  let s := run insertion_shuffle initial_state sample_run in
  phase s = Completed
  /\ phase (step insertion_shuffle s RetakeQuiz) = InProgress
  /\ currentQuiz (step insertion_shuffle s RetakeQuiz) = currentQuiz s
  /\ userAnswers s <> []
  /\ userAnswers (step insertion_shuffle s RetakeQuiz) = [].
Proof.
  assert (H : phase (run insertion_shuffle initial_state sample_run) = Completed)
    by (vm_compute; reflexivity).
  split; [exact H|].
  destruct (retakeQuiz_same_sample (list bool) insertion_shuffle sample_run H)
    as (Hp & Hq & _ & Ha & _).
  split; [exact Hp|]. split; [exact Hq|]. split; [vm_compute; discriminate|exact Ha].
Defined.

End SessionSamples.

(** * Further properties of the session *)

(** ** What every reachable state satisfies *)


Section SessionInvariantFacts.
Import JS Parser Session SessionInvariants.

Variable Rand : Type.
Variable sort_random : Rand -> list Question -> list Question.

(** An induction principle for the runs of the page: what holds initially
    and is kept by every step holds after every run. *)
Lemma run_invariant (P : State -> Prop) :
  P initial_state ->
  (forall s a, P s -> P (step sort_random s a)) ->
  forall actions, P (run sort_random initial_state actions).
Proof.
  intros H0 Hstep actions. unfold run.
  generalize initial_state H0. induction actions as [|a actions IH]; intros s Hs.
  - exact Hs.
  - cbn [fold_left]. apply IH. now apply Hstep.
Qed.

Lemma handleSubmit_cells (r : Rand) (resp : Response) (s : State) (f : File) :
  file s = Some f ->
  let s' := handleSubmit sort_random r resp s in
  userAnswers s' = [] /\ currentQuestionIndex s' = 0 /\ showResults s' = false
  /\ loading s' = false /\ numQuestions s' = numQuestions s
  /\ ((fullQuizData s' = fullQuizData s /\ currentQuiz s' = currentQuiz s)
      \/ (exists quiz, resp = Quiz quiz /\ parseQuizText quiz <> []
                       /\ fullQuizData s' = parseQuizText quiz
                       /\ currentQuiz s'
                          = slice0 (sort_random r (parseQuizText quiz)) (numQuestions s))).
Proof.
  intros Hf s'. subst s'. unfold handleSubmit. rewrite Hf.
  destruct resp as [m|m|quiz]; cbn; try (repeat split; now left).
  destruct (parseQuizText quiz) as [|q pool] eqn:E; cbn.
  - repeat split. now left.
  - repeat split. right. exists quiz. rewrite E. repeat split. discriminate.
Qed.

(** *** One answer per question *)

Lemma map_questionId_filter (x : nat) (answers : list UserAnswer) :
  map questionId (filter (fun a => negb (questionId a =? x)%nat) answers)
  = filter (fun i => negb (i =? x)%nat) (map questionId answers).
Proof.
  induction answers as [|a l IH]; [reflexivity|].
  cbn. destruct (questionId a =? x)%nat; cbn; now rewrite IH.
Qed.

Lemma NoDup_filter_snoc (x : nat) (l : list nat) :
  NoDup l -> NoDup (filter (fun i => negb (i =? x)%nat) l ++ [x]).
Proof.
  intros H. apply NoDup_app; [now apply NoDup_filter|repeat constructor; intros []|].
  intros i Hi [<-|[]]. apply filter_In in Hi as [_ Hi].
  now rewrite Nat.eqb_refl in Hi.
Qed.

Lemma answers_well_kept_step (s : State) (a : Action Rand) :
  answers_well_kept s -> answers_well_kept (step sort_random s a).
Proof.
  unfold answers_well_kept. intros [Hnd Hin].
  assert (Hnil : forall l : list Question, NoDup (map questionId []) /\ incl (map questionId []) (map id l)).
  { intros l. split; [constructor|]. intros x []. }
  destruct a as [f|n|r resp|key| | | |r| ]; cbn [step].
  - destruct (upload_visible s && negb (loading s)); [|now split]. apply Hnil.
  - destruct (upload_visible s && negb (loading s) && existsb (Z.eqb n) [3; 5; 7; 10]%Z);
      now split.
  - destruct (file s) as [f|] eqn:Hf; [|rewrite andb_false_r; now split].
    destruct (upload_visible s && negb (loading s) && true); [|now split].
    destruct (handleSubmit_cells r resp s f Hf) as (Ha & _). rewrite Ha. apply Hnil.
  - destruct (quiz_visible s); [|now split]. unfold selectAnswer.
    destruct (nth_error (currentQuiz s) (currentQuestionIndex s)) as [cq|] eqn:Hcq;
      [|now split].
    cbn [userAnswers currentQuiz setUserAnswers].
    rewrite map_app, map_questionId_filter. cbn [map questionId]. split.
    + now apply NoDup_filter_snoc.
    + intros x Hx. apply in_app_or in Hx as [Hx|[<-|[]]].
      * apply filter_In in Hx as [Hx _]. now apply Hin.
      * apply in_map. now apply nth_error_In with (n := currentQuestionIndex s).
  - destruct (quiz_visible s && current_answered s); [|now split].
    unfold nextQuestion.
    destruct (Z.of_nat (currentQuestionIndex s) <? Z.of_nat (length (currentQuiz s)) - 1)%Z;
      now split.
  - destruct (quiz_visible s && negb (currentQuestionIndex s =? 0)%nat); [|now split].
    unfold prevQuestion. destruct (0 <? currentQuestionIndex s)%nat; now split.
  - destruct (results_visible s); [|now split]. cbn. split; [constructor|intros x []].
  - destruct (results_visible s); [|now split]. cbn. split; [constructor|intros x []].
  - destruct (results_visible s); [|now split]. cbn. split; [constructor|intros x []].
Qed.

(** X1. After every run of the page, the recorded answers hold at most one
    answer per question identifier, each for a question of the current
    sample; so there are never more answers than sampled questions. *)
Theorem answers_one_per_sampled_question (actions : list (Action Rand)) :
  let s := run sort_random initial_state actions in
  NoDup (map questionId (userAnswers s))
  /\ incl (map questionId (userAnswers s)) (map id (currentQuiz s))
  /\ length (userAnswers s) <= length (currentQuiz s).
Proof.
  intros s.
  assert (H : answers_well_kept s).
  { apply (run_invariant answers_well_kept).
    - split; [constructor|intros x []].
    - apply answers_well_kept_step. }
  destruct H as [Hnd Hin]. split; [exact Hnd|]. split; [exact Hin|].
  rewrite <- (length_map questionId), <- (length_map id (currentQuiz s)).
  now apply NoDup_incl_length.
Qed.

(** X2. Answering the same question twice keeps the second letter only:
    [selectAnswer b] after [selectAnswer a] gives the state that
    [selectAnswer b] alone gives (and both fail together when the cursor is
    on no question). *)
Theorem selectAnswer_overwrites (a b : jsstring) (s : State) :
  match selectAnswer a s with
  | Some s1 => selectAnswer b s1 = selectAnswer b s
  | None => selectAnswer b s = None
  end.
Proof.
  unfold selectAnswer.
  destruct (nth_error (currentQuiz s) (currentQuestionIndex s)) as [cq|] eqn:Hcq;
    [|reflexivity].
  cbn [currentQuiz currentQuestionIndex userAnswers setUserAnswers]. rewrite Hcq.
  unfold setUserAnswers. cbn. do 3 f_equal.
  rewrite filter_app. cbn. rewrite Nat.eqb_refl. cbn. rewrite app_nil_r.
  induction (userAnswers s) as [|x l IH]; [reflexivity|].
  cbn. destruct (questionId x =? id cq)%nat eqn:E; cbn; [exact IH|].
  rewrite E. cbn. now rewrite IH.
Qed.

(** *** No question is skipped *)

Lemma answered_after_select (qid other : nat) (key : jsstring) (answers : list UserAnswer) :
  find_answer qid answers <> None ->
  find_answer qid (filter (fun a => negb (questionId a =? other)%nat) answers
                   ++ [mkUserAnswer other key]) <> None.
Proof.
  intros H. unfold find_answer at 1. rewrite find_app_first.
  fold (find_answer qid (filter (fun a => negb (questionId a =? other)%nat) answers)).
  destruct (Nat.eqb_spec other qid) as [->|Hne].
  - rewrite find_answer_filter_same. cbn. rewrite Nat.eqb_refl. discriminate.
  - rewrite find_answer_filter_other by congruence.
    destruct (find_answer qid answers); [discriminate|congruence].
Qed.

Lemma no_question_skipped_reset (s : State) :
  currentQuestionIndex s = 0 -> showResults s = false -> no_question_skipped s.
Proof.
  intros Hi Hr. split.
  - intros i q Hlt. rewrite Hi in Hlt. lia.
  - rewrite Hr. discriminate.
Qed.

Lemma no_question_skipped_step (s : State) (a : Action Rand) :
  no_question_skipped s -> no_question_skipped (step sort_random s a).
Proof.
  intros H. pose proof H as [Hbefore Hall].
  destruct a as [f|n|r resp|key| | | |r| ]; cbn [step].
  - destruct (upload_visible s && negb (loading s)); [|exact H].
    now apply no_question_skipped_reset.
  - destruct (upload_visible s && negb (loading s) && existsb (Z.eqb n) [3; 5; 7; 10]%Z);
      exact H.
  - destruct (file s) as [f|] eqn:Hf; [|rewrite andb_false_r; exact H].
    destruct (upload_visible s && negb (loading s) && true); [|exact H].
    destruct (handleSubmit_cells r resp s f Hf) as (_ & Hi & Hr & _).
    now apply no_question_skipped_reset.
  - destruct (quiz_visible s) eqn:Hv; [|exact H]. unfold selectAnswer.
    destruct (nth_error (currentQuiz s) (currentQuestionIndex s)) as [cq|] eqn:Hcq;
      [|exact H].
    split; cbn [currentQuiz currentQuestionIndex userAnswers showResults setUserAnswers].
    + intros i q Hlt Hq. unfold answered. cbn [userAnswers setUserAnswers].
      apply answered_after_select. now apply (Hbefore i q).
    + intros Hr q Hq. unfold answered. cbn [userAnswers setUserAnswers].
      apply answered_after_select. now apply Hall.
  - destruct (quiz_visible s && current_answered s) eqn:G; [|exact H].
    apply andb_prop in G as [Hv Hans].
    unfold quiz_visible in Hv. apply andb_prop in Hv as [Hv Hlt].
    apply andb_prop in Hv as [_ Hr]. apply Nat.ltb_lt in Hlt.
    unfold current_answered in Hans.
    destruct (nth_error (currentQuiz s) (currentQuestionIndex s)) as [cq|] eqn:Hcq;
      [|discriminate Hans].
    assert (Hcur : answered s cq).
    { unfold answered. destruct (find_answer (id cq) (userAnswers s));
        [discriminate|discriminate Hans]. }
    unfold nextQuestion.
    destruct (Z.ltb_spec (Z.of_nat (currentQuestionIndex s))
                         (Z.of_nat (length (currentQuiz s)) - 1)) as [Hnext|Hlast].
    + split; cbn [currentQuiz currentQuestionIndex userAnswers showResults
                  setCurrentQuestionIndex].
      * intros i q Hi Hq.
        destruct (Nat.eq_dec i (currentQuestionIndex s)) as [->|Hne].
        -- rewrite Hcq in Hq. injection Hq as <-. exact Hcur.
        -- apply (Hbefore i q); [lia|exact Hq].
      * exact Hall.
    + assert (Hallq : forall q, In q (currentQuiz s) -> answered s q).
      { intros q Hq. apply In_nth_error in Hq as [i Hi].
        assert (i < length (currentQuiz s)).
        { apply nth_error_Some. congruence. }
        destruct (Nat.eq_dec i (currentQuestionIndex s)) as [->|Hne].
        - rewrite Hcq in Hi. injection Hi as <-. exact Hcur.
        - apply (Hbefore i q); [lia|exact Hi]. }
      split; cbn [currentQuiz currentQuestionIndex userAnswers showResults
                  setShowResults setQuizCompleted].
      * intros i q _ Hq. apply Hallq. now apply nth_error_In with (n := i).
      * intros _. exact Hallq.
  - destruct (quiz_visible s && negb (currentQuestionIndex s =? 0)%nat); [|exact H].
    unfold prevQuestion. destruct (0 <? currentQuestionIndex s)%nat; [|exact H].
    split; cbn [currentQuiz currentQuestionIndex userAnswers showResults
                setCurrentQuestionIndex].
    + intros i q Hi Hq. apply (Hbefore i q); [lia|exact Hq].
    + exact Hall.
  - destruct (results_visible s); [|exact H]. now apply no_question_skipped_reset.
  - destruct (results_visible s); [|exact H]. now apply no_question_skipped_reset.
  - destruct (results_visible s); [|exact H]. now apply no_question_skipped_reset.
Qed.

Lemma no_question_skipped_run (actions : list (Action Rand)) :
  no_question_skipped (run sort_random initial_state actions).
Proof.
  apply (run_invariant no_question_skipped).
  - now apply no_question_skipped_reset.
  - apply no_question_skipped_step.
Qed.

(** X3. The results are only ever shown for a fully answered quiz: after
    every run of the page that ends on the results, each sampled question
    has a recorded answer. *)
Theorem results_only_when_all_answered (actions : list (Action Rand)) :
  let s := run sort_random initial_state actions in
  showResults s = true ->
  forall q, In q (currentQuiz s) ->
            exists a, find_answer (id q) (userAnswers s) = Some a.
Proof.
  intros s Hr q Hq. subst s.
  destruct (no_question_skipped_run actions) as [_ Hall].
  specialize (Hall Hr q Hq). unfold answered in Hall.
  destruct (find_answer (id q) (userAnswers (run sort_random initial_state actions)))
    as [a|]; [now exists a|congruence].
Qed.

(** *** The cursor and the sections of the page *)

Lemma cursor_in_bounds_step (s : State) (a : Action Rand) :
  cursor_in_bounds s -> cursor_in_bounds (step sort_random s a).
Proof.
  unfold cursor_in_bounds. intros H.
  destruct a as [f|n|r resp|key| | | |r| ]; cbn [step].
  - destruct (upload_visible s && negb (loading s)); [now left|exact H].
  - destruct (upload_visible s && negb (loading s) && existsb (Z.eqb n) [3; 5; 7; 10]%Z);
      exact H.
  - destruct (file s) as [f|] eqn:Hf; [|rewrite andb_false_r; exact H].
    destruct (upload_visible s && negb (loading s) && true); [|exact H].
    destruct (handleSubmit_cells r resp s f Hf) as (_ & Hi & _). now left.
  - destruct (quiz_visible s); [|exact H]. unfold selectAnswer.
    destruct (nth_error (currentQuiz s) (currentQuestionIndex s)); exact H.
  - destruct (quiz_visible s && current_answered s); [|exact H].
    unfold nextQuestion.
    destruct (Z.ltb_spec (Z.of_nat (currentQuestionIndex s))
                         (Z.of_nat (length (currentQuiz s)) - 1)); [|exact H].
    cbn. right. lia.
  - destruct (quiz_visible s && negb (currentQuestionIndex s =? 0)%nat); [|exact H].
    unfold prevQuestion. destruct (0 <? currentQuestionIndex s)%nat; [|exact H].
    cbn. destruct H as [H|H]; [left; lia|right; lia].
  - destruct (results_visible s); [now left|exact H].
  - destruct (results_visible s); [now left|exact H].
  - destruct (results_visible s); [now left|exact H].
Qed.

Lemma cursor_in_bounds_run (actions : list (Action Rand)) :
  cursor_in_bounds (run sort_random initial_state actions).
Proof.
  apply (run_invariant cursor_in_bounds); [now left|apply cursor_in_bounds_step].
Qed.

(** X4. After every run, the cursor is on a sampled question whenever there
    is one, and the page renders exactly one of its three sections: the
    upload form, the current question or the results. *)
Theorem exactly_one_section_rendered (actions : list (Action Rand)) :
  let s := run sort_random initial_state actions in
  (currentQuiz s <> [] -> currentQuestionIndex s < length (currentQuiz s))
  /\ Nat.b2n (upload_visible s) + Nat.b2n (quiz_visible s) + Nat.b2n (results_visible s) = 1.
Proof.
  intros s. pose proof (cursor_in_bounds_run actions) as H. fold s in H.
  assert (Hb : currentQuiz s <> [] -> currentQuestionIndex s < length (currentQuiz s)).
  { intros Hne. destruct H as [H|H]; [|exact H].
    rewrite H. destruct (currentQuiz s); [congruence|cbn; lia]. }
  split; [exact Hb|].
  unfold upload_visible, quiz_visible, results_visible.
  destruct (showResults s); cbn [negb]; [now rewrite !andb_false_r|].
  rewrite !andb_true_r.
  destruct (currentQuiz s) as [|q l] eqn:E; [reflexivity|].
  assert (Hlt : currentQuestionIndex s < length (q :: l)) by (apply Hb; discriminate).
  apply Nat.ltb_lt in Hlt. rewrite Hlt. reflexivity.
Qed.

Lemma setCurrentQuestionIndex_back (k : nat) (s : State) :
  setCurrentQuestionIndex (currentQuestionIndex s) (setCurrentQuestionIndex k s) = s.
Proof. now destruct s. Qed.

(** X5. Going back and forth loses nothing. On any state showing a question:
    if the question has an answer and is not the last, [Next] then
    [Previous] gives the state back; and after every run of the page with
    the cursor past the first question, [Previous] then [Next] gives the
    state back, as the question before the cursor always has its answer. *)
Theorem previous_and_next_are_inverse :
  (forall s : State,
      quiz_visible s = true -> current_answered s = true ->
      S (currentQuestionIndex s) < length (currentQuiz s) ->
      step sort_random (step sort_random s NextQuestion) PrevQuestion = s)
  /\ (forall actions : list (Action Rand),
        let s := run sort_random initial_state actions in
        quiz_visible s = true -> currentQuestionIndex s <> 0 ->
        step sort_random (step sort_random s PrevQuestion) NextQuestion = s).
Proof.
  split.
  - intros s Hv Ha Hlt. cbn [step]. rewrite Hv, Ha. cbn [andb].
    unfold nextQuestion.
    destruct (Z.ltb_spec (Z.of_nat (currentQuestionIndex s))
                         (Z.of_nat (length (currentQuiz s)) - 1)); [|lia].
    unfold quiz_visible in *. cbn [currentQuiz showResults currentQuestionIndex
                                    setCurrentQuestionIndex].
    apply andb_prop in Hv as [Hv _]. rewrite Hv. cbn [andb].
    replace (currentQuestionIndex s + 1 <? length (currentQuiz s))%nat with true
      by (symmetry; apply Nat.ltb_lt; lia).
    replace (currentQuestionIndex s + 1 =? 0)%nat with false
      by (symmetry; apply Nat.eqb_neq; lia).
    cbn [andb negb]. unfold prevQuestion.
    cbn [currentQuestionIndex setCurrentQuestionIndex].
    replace (0 <? currentQuestionIndex s + 1)%nat with true
      by (symmetry; apply Nat.ltb_lt; lia).
    replace (currentQuestionIndex s + 1 - 1) with (currentQuestionIndex s) by lia.
    apply setCurrentQuestionIndex_back.
  - intros actions s Hv Hi.
    destruct (no_question_skipped_run actions) as [Hbefore _]. fold s in Hbefore.
    cbn [step]. rewrite Hv. apply Nat.eqb_neq in Hi. rewrite Hi. cbn [andb negb].
    apply Nat.eqb_neq in Hi. unfold prevQuestion.
    replace (0 <? currentQuestionIndex s)%nat with true
      by (symmetry; apply Nat.ltb_lt; lia).
    unfold quiz_visible in Hv. apply andb_prop in Hv as [Hv Hlt].
    apply Nat.ltb_lt in Hlt.
    assert (Hq : exists q, nth_error (currentQuiz s) (currentQuestionIndex s - 1) = Some q).
    { destruct (nth_error (currentQuiz s) (currentQuestionIndex s - 1)) as [q|] eqn:E;
        [now exists q|]. apply nth_error_None in E. lia. }
    destruct Hq as [q Hq].
    assert (Hans : answered s q) by (apply (Hbefore (currentQuestionIndex s - 1)); [lia|exact Hq]).
    unfold quiz_visible, current_answered.
    cbn [currentQuiz showResults currentQuestionIndex userAnswers setCurrentQuestionIndex].
    rewrite Hv. cbn [andb].
    replace (currentQuestionIndex s - 1 <? length (currentQuiz s))%nat with true
      by (symmetry; apply Nat.ltb_lt; lia).
    rewrite Hq. unfold answered in Hans.
    destruct (find_answer (id q) (userAnswers s)); [|congruence].
    unfold nextQuestion. cbn [currentQuiz currentQuestionIndex setCurrentQuestionIndex].
    destruct (Z.ltb_spec (Z.of_nat (currentQuestionIndex s - 1))
                         (Z.of_nat (length (currentQuiz s)) - 1)); [|lia].
    replace (currentQuestionIndex s - 1 + 1) with (currentQuestionIndex s) by lia.
    apply setCurrentQuestionIndex_back.
Qed.

(** *** The score *)

Lemma filter_all {A} (f : A -> bool) (l : list A) :
  length (filter f l) = length l <-> forall x, In x l -> f x = true.
Proof.
  induction l as [|x l IH]; cbn; [tauto|].
  pose proof (filter_length_le f l) as Hle.
  destruct (f x) eqn:E; cbn.
  - split.
    + intros H y [<-|Hy]; [exact E|]. apply IH; [lia|exact Hy].
    + intros H. f_equal. apply IH. intros y Hy. apply H. now right.
  - split; [lia|]. intros H. specialize (H x (or_introl eq_refl)). congruence.
Qed.

(** X6. In any state the score is at most the number of sampled questions,
    and it equals that number exactly when every sampled question has a
    recorded answer equal to its correct answer. *)
Theorem calculateScore_full_marks (s : State) :
  calculateScore s <= length (currentQuiz s)
  /\ (calculateScore s = length (currentQuiz s) <->
      forall q, In q (currentQuiz s) ->
                exists a, find_answer (id q) (userAnswers s) = Some a
                          /\ selectedAnswer a = correctAnswer q).
Proof.
  rewrite calculateScore_counts. split; [apply filter_length_le|].
  rewrite filter_all. split; intros H q Hq; specialize (H q Hq).
  - unfold answered_correctly in H.
    destruct (find_answer (id q) (userAnswers s)) as [a|]; [|discriminate].
    exists a. split; [reflexivity|]. now apply jsstring_eqb_eq.
  - destruct H as (a & Ha & E). unfold answered_correctly. rewrite Ha.
    now apply jsstring_eqb_eq.
Qed.

(** *** The sample and the pool *)

Hypothesis sort_permutes : forall r l, Permutation l (sort_random r l).

Lemma slice0_prefix {A} (l : list A) (n : Z) : exists k, slice0 l n = firstn k l.
Proof. unfold slice0. destruct (n <? 0)%Z; eauto. Qed.

Lemma sample_of_shuffled (r : Rand) (pool : list Question) (n : Z) :
  exists rest, Permutation pool (slice0 (sort_random r pool) n ++ rest).
Proof.
  destruct (slice0_prefix (sort_random r pool) n) as [k ->].
  exists (skipn k (sort_random r pool)). rewrite firstn_skipn. apply sort_permutes.
Qed.

Lemma sample_of_pool_step (s : State) (a : Action Rand) :
  sample_of_pool s -> sample_of_pool (step sort_random s a).
Proof.
  unfold sample_of_pool. intros H.
  destruct a as [f|n|r resp|key| | | |r| ]; cbn [step].
  - destruct (upload_visible s && negb (loading s)); exact H.
  - destruct (upload_visible s && negb (loading s) && existsb (Z.eqb n) [3; 5; 7; 10]%Z);
      exact H.
  - destruct (file s) as [f|] eqn:Hf; [|rewrite andb_false_r; exact H].
    destruct (upload_visible s && negb (loading s) && true); [|exact H].
    destruct (handleSubmit_cells r resp s f Hf)
      as (_ & _ & _ & _ & _ & [[Hp Hq]|(quiz & _ & _ & Hp & Hq)]); rewrite Hp, Hq.
    + exact H.
    + split; [apply sample_of_shuffled|apply parseQuizText_ids_distinct].
  - destruct (quiz_visible s); [|exact H]. unfold selectAnswer.
    destruct (nth_error (currentQuiz s) (currentQuestionIndex s)); exact H.
  - destruct (quiz_visible s && current_answered s); [|exact H].
    unfold nextQuestion.
    destruct (Z.of_nat (currentQuestionIndex s) <? Z.of_nat (length (currentQuiz s)) - 1)%Z;
      exact H.
  - destruct (quiz_visible s && negb (currentQuestionIndex s =? 0)%nat); [|exact H].
    unfold prevQuestion. destruct (0 <? currentQuestionIndex s)%nat; exact H.
  - destruct (results_visible s); exact H.
  - destruct (results_visible s); [|exact H]. cbn. split; [|apply H].
    apply sample_of_shuffled.
  - destruct (results_visible s); [|exact H]. cbn. split; [now exists []|constructor].
Qed.

(** X7. After every run, whatever the random draws, the sampled questions
    are drawn from the stored pool without replacement (with some remainder
    they are a permutation of it), and identifiers are pairwise distinct in
    the pool and in the sample. *)
Theorem sample_always_from_pool (actions : list (Action Rand)) :
  let s := run sort_random initial_state actions in
  (exists rest, Permutation (fullQuizData s) (currentQuiz s ++ rest))
  /\ NoDup (map id (fullQuizData s))
  /\ NoDup (map id (currentQuiz s)).
Proof.
  intros s.
  assert (H : sample_of_pool s).
  { apply (run_invariant sample_of_pool); [|apply sample_of_pool_step].
    split; [now exists []|constructor]. }
  destruct H as [[rest Hp] Hnd]. split; [now exists rest|]. split; [exact Hnd|].
  assert (Hnd' : NoDup (map id (currentQuiz s ++ rest))).
  { apply (Permutation_NoDup (l := map id (fullQuizData s))); [|exact Hnd].
    now apply Permutation_map. }
  rewrite map_app in Hnd'. now apply NoDup_app_remove_r in Hnd'.
Qed.

(** *** Submitting *)

Lemma form_at_rest_step (s : State) (a : Action Rand) :
  form_at_rest s -> form_at_rest (step sort_random s a).
Proof.
  unfold form_at_rest. intros H.
  destruct a as [f|n|r resp|key| | | |r| ]; cbn [step].
  - destruct (upload_visible s && negb (loading s)); exact H.
  - destruct (upload_visible s && negb (loading s)); cbn [andb]; [|exact H].
    destruct (existsb (Z.eqb n) [3; 5; 7; 10]%Z) eqn:E; [|exact H].
    cbn [loading numQuestions setNumQuestions]. split; [apply H|].
    apply existsb_exists in E as (x & Hx & E). apply Z.eqb_eq in E. now subst x.
  - destruct (file s) as [f|] eqn:Hf; [|rewrite andb_false_r; exact H].
    destruct (upload_visible s && negb (loading s) && true); [|exact H].
    destruct (handleSubmit_cells r resp s f Hf) as (_ & _ & _ & Hl & Hn & _).
    rewrite Hl, Hn. split; [reflexivity|apply H].
  - destruct (quiz_visible s); [|exact H]. unfold selectAnswer.
    destruct (nth_error (currentQuiz s) (currentQuestionIndex s)); exact H.
  - destruct (quiz_visible s && current_answered s); [|exact H].
    unfold nextQuestion.
    destruct (Z.of_nat (currentQuestionIndex s) <? Z.of_nat (length (currentQuiz s)) - 1)%Z;
      exact H.
  - destruct (quiz_visible s && negb (currentQuestionIndex s =? 0)%nat); [|exact H].
    unfold prevQuestion. destruct (0 <? currentQuestionIndex s)%nat; exact H.
  - destruct (results_visible s); exact H.
  - destruct (results_visible s); exact H.
  - destruct (results_visible s); [|exact H]. cbn. split; [reflexivity|]. right. now left.
Qed.

Lemma form_at_rest_run (actions : list (Action Rand)) :
  form_at_rest (run sort_random initial_state actions).
Proof.
  apply (run_invariant form_at_rest); [|apply form_at_rest_step].
  split; [reflexivity|]. right. now left.
Qed.

(** X8. After every run that leaves the upload form on screen with a file
    chosen, submitting a text that parses to at least one question starts a
    quiz: the pool is the parse, the sample has [min numQuestions P]
    questions, which is at least one as the requested count is 3, 5, 7 or
    10, the cursor is on the first of them, no answer is recorded and no
    error is shown. *)
Theorem submit_starts_quiz
    (actions : list (Action Rand)) (r : Rand) (quiz : jsstring) :
  let s := run sort_random initial_state actions in
  upload_visible s = true ->
  file s <> None ->
  parseQuizText quiz <> [] ->
  let s' := step sort_random s (Submit r (Quiz quiz)) in
  phase s' = InProgress
  /\ fullQuizData s' = parseQuizText quiz
  /\ length (currentQuiz s')
     = Nat.min (Z.to_nat (numQuestions s)) (length (parseQuizText quiz))
  /\ 1 <= length (currentQuiz s')
  /\ currentQuestionIndex s' = 0
  /\ userAnswers s' = []
  /\ error s' = [].
Proof.
  intros s Hv Hf Hparse s'.
  destruct (form_at_rest_run actions) as [Hl Hn]. fold s in Hl, Hn.
  destruct (file s) as [f|] eqn:Ef; [|congruence].
  assert (E : s' = handleSubmit sort_random r (Quiz quiz) s).
  { subst s'. cbn [step]. now rewrite Hv, Hl, Ef. }
  assert (Hlen : length (currentQuiz s')
                 = Nat.min (Z.to_nat (numQuestions s)) (length (parseQuizText quiz))).
  { rewrite E. unfold handleSubmit, submit_try. rewrite Ef.
    destruct (parseQuizText quiz) as [|q pool] eqn:Ep; [congruence|].
    cbn. rewrite slice0_firstn by (destruct Hn as [<-|[<-|[<-|[<-|[]]]]]; lia).
    rewrite length_firstn, <- (Permutation_length (sort_permutes r (q :: pool))).
    reflexivity. }
  assert (Hpos : 1 <= length (currentQuiz s')).
  { rewrite Hlen. destruct (parseQuizText quiz); [congruence|].
    cbn [length]. destruct Hn as [<-|[<-|[<-|[<-|[]]]]]; lia. }
  split; [|split; [|split; [exact Hlen|split; [exact Hpos|]]]].
  - unfold phase.
    replace (showResults s') with false.
    + replace (currentQuestionIndex s') with 0.
      * destruct (currentQuiz s'); [cbn in Hpos; lia|reflexivity].
      * rewrite E. unfold handleSubmit, submit_try. rewrite Ef.
        destruct (length (parseQuizText quiz) =? 0)%nat; reflexivity.
    + rewrite E. unfold handleSubmit, submit_try. rewrite Ef.
      destruct (length (parseQuizText quiz) =? 0)%nat; reflexivity.
  - rewrite E. unfold handleSubmit, submit_try. rewrite Ef.
    destruct (parseQuizText quiz) as [|q pool]; [congruence|reflexivity].
  - rewrite E. unfold handleSubmit, submit_try. rewrite Ef.
    destruct (parseQuizText quiz) as [|q pool]; [congruence|]. cbn. repeat split.
Qed.

End SessionInvariantFacts.

Section SessionInvariantSamples.
Import JS Parser Grammar Session.

Lemma results_only_when_all_answered_sample :
  let s := run insertion_shuffle initial_state sample_run in
  showResults s = true
  /\ forall q, In q (currentQuiz s) -> exists a, find_answer (id q) (userAnswers s) = Some a.
Proof.
  assert (H : showResults (run insertion_shuffle initial_state sample_run) = true)
    by (vm_compute; reflexivity).
  split; [exact H|].
  exact (results_only_when_all_answered (list bool) insertion_shuffle sample_run H).
Defined.

Lemma sample_always_from_pool_sample :
  (forall r l, Permutation l (insertion_shuffle r l))
  /\ NoDup (map id (currentQuiz (run insertion_shuffle initial_state sample_run))).
Proof.
  split; [exact insertion_shuffle_permutes|].
  destruct (sample_always_from_pool (list bool) insertion_shuffle
              insertion_shuffle_permutes sample_run) as (_ & _ & H).
  exact H.
Defined.

Lemma submit_starts_quiz_sample :
  let s := run insertion_shuffle initial_state [ChooseFile sample_file] in
  (forall r l, Permutation l (insertion_shuffle r l))
  /\ upload_visible s = true
  /\ file s <> None
  /\ parseQuizText sample_quiz <> []
  /\ phase (step insertion_shuffle s (Submit [true; false] (Quiz sample_quiz))) = InProgress
  /\ length (currentQuiz (step insertion_shuffle s (Submit [true; false] (Quiz sample_quiz))))
     = 2.
Proof.
  assert (H1 : upload_visible (run insertion_shuffle initial_state [ChooseFile sample_file])
               = true) by reflexivity.
  assert (H2 : file (run insertion_shuffle initial_state [ChooseFile sample_file]) <> None)
    by (cbn; discriminate).
  assert (H3 : parseQuizText sample_quiz <> []) by (vm_compute; discriminate).
  split; [exact insertion_shuffle_permutes|].
  split; [exact H1|]. split; [exact H2|]. split; [exact H3|].
  destruct (submit_starts_quiz (list bool) insertion_shuffle insertion_shuffle_permutes
              [ChooseFile sample_file] [true; false] sample_quiz H1 H2 H3)
    as (Hp & _ & Hl & _).
  split; [exact Hp|]. rewrite Hl. vm_compute. reflexivity.
Defined.

End SessionInvariantSamples.

(** * Further properties of the parser *)


Lemma split_markers_pieces (s : JS.jsstring) :
  Marker.split_markers s = match Marker.find_marker s with
                           | None => [s]
                           | Some (b, a) => b :: Marker.split_markers a
                           end.
Proof. exact (split_markers_unfold s). Qed.

Section ParserMoreFacts.
Import JS Marker Parser Grammar Rejoin.

(** ** [trim] gives a trimmed string *)

Lemma trimStart_idempotent (s : jsstring) : trimStart (trimStart s) = trimStart s.
Proof.
  induction s as [|c s IH]; [reflexivity|].
  cbn [trimStart]. destruct (is_ws c) eqn:E; [exact IH|].
  cbn [trimStart]. now rewrite E.
Qed.

Lemma trimEnd_idempotent (s : jsstring) : trimEnd (trimEnd s) = trimEnd s.
Proof. unfold trimEnd. now rewrite rev_involutive, trimStart_idempotent. Qed.

Lemma trimStart_head (s : jsstring) (c : N) (t : jsstring) :
  trimStart s = c :: t -> is_ws c = false.
Proof.
  induction s as [|x s IH]; [discriminate|].
  cbn [trimStart]. destruct (is_ws x) eqn:E; [exact IH|].
  intros [= <- _]. exact E.
Qed.

Lemma trim_idempotent (s : jsstring) : trim (trim s) = trim s.
Proof.
  unfold trim. destruct (trimStart s) as [|c t] eqn:E; [reflexivity|].
  pose proof (trimStart_head s c t E) as Hc.
  rewrite trimEnd_cons_not_ws by exact Hc.
  rewrite trimStart_not_ws by exact Hc.
  rewrite <- trimEnd_cons_not_ws by exact Hc.
  apply trimEnd_idempotent.
Qed.

(** ** The fields of a question are trimmed *)

Definition scan_fields_trimmed (st : Scan) : Prop :=
  trim (optA (sc_options st)) = optA (sc_options st)
  /\ trim (optB (sc_options st)) = optB (sc_options st)
  /\ trim (optC (sc_options st)) = optC (sc_options st)
  /\ trim (optD (sc_options st)) = optD (sc_options st)
  /\ trim (sc_correctAnswer st) = sc_correctAnswer st
  /\ trim (sc_explanation st) = sc_explanation st.

Lemma scan_fields_trimmed_line (st : Scan) (line : jsstring) :
  scan_fields_trimmed st -> scan_fields_trimmed (scan_line st line).
Proof.
  intros (HA & HB & HC & HD & HE & HX). unfold scan_line.
  repeat match goal with
         | |- scan_fields_trimmed (if ?c then _ else _) => destruct c
         end;
    unfold scan_fields_trimmed; cbn; repeat split; try assumption;
    apply trim_idempotent.
Qed.

Lemma scan_fields_trimmed_fold (lines : list jsstring) (st : Scan) :
  scan_fields_trimmed st -> scan_fields_trimmed (fold_left scan_line lines st).
Proof.
  revert st. induction lines as [|l lines IH]; intros st H; [exact H|].
  cbn [fold_left]. apply IH. now apply scan_fields_trimmed_line.
Qed.

Definition question_trimmed (q : Question) : Prop :=
  trim (question q) = question q
  /\ trim (optA (options q)) = optA (options q)
  /\ trim (optB (options q)) = optB (options q)
  /\ trim (optC (options q)) = optC (options q)
  /\ trim (optD (options q)) = optD (options q)
  /\ trim (correctAnswer q) = correctAnswer q
  /\ trim (explanation q) = explanation q.

Lemma process_block_trimmed (index : nat) (block : jsstring) (q : Question) :
  In q (process_block index block []) -> question_trimmed q.
Proof.
  unfold process_block.
  destruct ((index =? 0)%nat || negb (truthy (trim block))); [intros []|].
  destruct (length (block_lines block) <? 6)%nat; [intros []|].
  match goal with |- In q (if ?c then _ else _) -> _ => destruct c end; [|intros []].
  intros [<-|[]].
  assert (H : scan_fields_trimmed (fold_left scan_line (block_lines block) scan_init)).
  { apply scan_fields_trimmed_fold. repeat split. }
  destruct H as (HA & HB & HC & HD & HE & HX).
  unfold question_trimmed. cbn [question options correctAnswer explanation].
  repeat split; try assumption. apply trim_idempotent.
Qed.

Lemma forEach_blocks_trimmed (blocks : list jsstring) (index : nat) (q : Question) :
  In q (forEach_blocks index blocks []) -> question_trimmed q.
Proof.
  revert index. induction blocks as [|b blocks IH]; intros index Hin; [destruct Hin|].
  rewrite forEach_blocks_cons in Hin. apply in_app_or in Hin as [Hin|Hin].
  - now apply (process_block_trimmed index b).
  - now apply (IH (S index)).
Qed.

(** X9. No field of a parsed question starts or ends with white space:
    trimming the question text, an option, the correct answer or the
    explanation of any question of [parseQuizText] changes nothing. *)
Theorem parseQuizText_fields_trimmed (quizText : jsstring) (q : Question) :
  In q (parseQuizText quizText) ->
  trim (question q) = question q
  /\ trim (optA (options q)) = optA (options q)
  /\ trim (optB (options q)) = optB (options q)
  /\ trim (optC (options q)) = optC (options q)
  /\ trim (optD (options q)) = optD (options q)
  /\ trim (correctAnswer q) = correctAnswer q
  /\ trim (explanation q) = explanation q.
Proof. apply forEach_blocks_trimmed. Qed.

(** ** Identifiers *)

Lemma forEach_blocks_sorted (blocks : list jsstring) (index : nat) :
  StronglySorted lt (map id (forEach_blocks index blocks [])).
Proof.
  revert index. induction blocks as [|b blocks IH]; intros index; [constructor|].
  rewrite forEach_blocks_cons.
  destruct (process_block_cases index b) as [E|(q & E & Hp)]; rewrite E.
  - apply IH.
  - cbn. constructor; [apply IH|].
    apply Forall_forall. intros i Hi. apply in_map_iff in Hi as (q' & <- & Hq').
    apply forEach_blocks_produced in Hq' as [Hle _].
    assert (id q = index) by apply Hp. lia.
Qed.

Lemma forEach_blocks_length (blocks : list jsstring) (index : nat) :
  length (forEach_blocks index blocks []) <= length blocks.
Proof.
  revert index. induction blocks as [|b blocks IH]; intros index; [reflexivity|].
  rewrite forEach_blocks_cons, length_app. specialize (IH (S index)).
  destruct (process_block_cases index b) as [E|(q & E & _)]; rewrite E; cbn; lia.
Qed.

(** X10. The identifiers of the questions of [parseQuizText] increase
    strictly along the list, each is the position of a piece after a marker
    (from 1 to the number of markers), there are at most as many questions
    as markers, and a text in which the marker pattern matches nowhere, the
    empty text included, gives no question. *)
Theorem parseQuizText_identifiers (quizText : jsstring) :
  let questions := parseQuizText quizText in
  let markers := length (split_markers quizText) - 1 in
  StronglySorted lt (map id questions)
  /\ (forall q, In q questions -> 1 <= id q <= markers)
  /\ length questions <= markers
  /\ (has_marker quizText = false -> questions = []).
Proof.
  intros questions markers. subst questions markers. unfold parseQuizText.
  split; [apply forEach_blocks_sorted|]. split; [|split].
  - intros q Hq. apply forEach_blocks_produced in Hq as (_ & block & Hnth & Hp).
    rewrite Nat.sub_0_r in Hnth.
    assert (id q < length (split_markers quizText)).
    { apply nth_error_Some. congruence. }
    assert (id q <> 0) by (destruct Hp as (H0 & H1 & _); congruence).
    lia.
  - destruct (split_markers quizText) as [|b blocks]; [reflexivity|].
    rewrite forEach_blocks_cons. cbn [process_block Nat.eqb orb app length].
    replace (S (length blocks) - 1) with (length blocks) by lia.
    apply forEach_blocks_length.
  - intros H. rewrite split_markers_pieces, (find_marker_unmarked _ H). reflexivity.
Qed.

(** ** The pieces of a split and the text *)

Lemma skip_digits_split (s : jsstring) :
  exists ds, forallb is_digit ds = true /\ s = ds ++ skip_digits s.
Proof.
  induction s as [|c s (ds & Hd & E)]; [now exists []|].
  cbn [skip_digits]. destruct (is_digit c) eqn:Hc.
  - exists (c :: ds). split; [cbn; now rewrite Hc|]. cbn. now f_equal.
  - now exists [].
Qed.

Lemma match_marker_text (s r : jsstring) :
  match_marker s = Some r ->
  exists number, number_ok number = true /\ s = marker number ++ r.
Proof.
  destruct s as [|q [|d s]]; try discriminate. cbn [match_marker].
  destruct (q =? 81)%N eqn:Hq; [|discriminate].
  destruct (is_digit d) eqn:Hd; [|discriminate]. cbn [andb].
  destruct (skip_digits_split s) as (ds & Hds & E).
  destruct (skip_digits s) as [|c r'] eqn:Hs; [discriminate|].
  destruct (c =? 58)%N eqn:Hc; [|discriminate]. intros [= <-].
  apply N.eqb_eq in Hq, Hc. subst q c.
  exists (d :: ds). split.
  - unfold number_ok. cbn. now rewrite Hd, Hds.
  - unfold marker. cbn [app]. rewrite E at 1. now rewrite <- app_assoc.
Qed.

Lemma skip_digits_more (s rest : jsstring) (c : N) (r : jsstring) :
  skip_digits s = c :: r -> skip_digits (s ++ rest) = c :: r ++ rest.
Proof.
  induction s as [|x s IH]; [discriminate|].
  cbn [app skip_digits]. destruct (is_digit x); [exact IH|].
  intros [= <- <-]. reflexivity.
Qed.

Lemma match_marker_more (s rest r : jsstring) :
  match_marker s = Some r -> match_marker (s ++ rest) = Some (r ++ rest).
Proof.
  destruct s as [|q [|d s]]; try discriminate. cbn [app match_marker].
  destruct ((q =? 81)%N && is_digit d); [|discriminate].
  destruct (skip_digits s) as [|c r'] eqn:Hs; [discriminate|].
  rewrite (skip_digits_more s rest c r' Hs).
  destruct (c =? 58)%N; [|discriminate]. now intros [= <-].
Qed.

Lemma find_marker_text (s b a : jsstring) :
  find_marker s = Some (b, a) ->
  has_marker b = false
  /\ exists number, number_ok number = true /\ s = b ++ marker number ++ a.
Proof.
  revert b. induction s as [|c s IH]; intros b; [discriminate|].
  cbn [find_marker]. destruct (match_marker (c :: s)) as [r|] eqn:Hm.
  - intros [= <- ->]. split; [reflexivity|]. now apply match_marker_text.
  - destruct (find_marker s) as [[b' a']|] eqn:Hf; [|discriminate].
    intros [= <- ->]. destruct (IH b' eq_refl) as (Hb & number & Hn & E).
    split.
    + cbn [has_marker]. rewrite Hb, orb_false_r.
      destruct (match_marker (c :: b')) as [r|] eqn:Hm'; [|reflexivity].
      apply (match_marker_more _ (marker number ++ a)) in Hm'.
      cbn [app] in Hm'. rewrite <- E in Hm'. congruence.
    + exists number. split; [exact Hn|]. cbn [app]. now rewrite E.
Qed.

Lemma find_marker_none (s : jsstring) : find_marker s = None -> has_marker s = false.
Proof.
  induction s as [|c s IH]; [reflexivity|].
  cbn [find_marker has_marker].
  destruct (match_marker (c :: s)); [discriminate|].
  destruct (find_marker s) as [[b a]|]; [discriminate|].
  intros _. now rewrite IH.
Qed.

Lemma split_markers_rejoin_bounded (n : nat) (s : jsstring) :
  length s <= n ->
  exists numbers,
    length numbers + 1 = length (split_markers s)
    /\ forallb number_ok numbers = true
    /\ join_markers (split_markers s) numbers = s
    /\ forallb (fun piece => negb (has_marker piece)) (split_markers s) = true.
Proof.
  revert s. induction n as [|n IH]; intros s Hlen.
  - destruct s; [|cbn in Hlen; lia]. exists []. rewrite split_markers_pieces.
    repeat split.
  - rewrite split_markers_pieces. destruct (find_marker s) as [[b a]|] eqn:Hf.
    + destruct (find_marker_text s b a Hf) as (Hb & number & Hn & E).
      assert (Ha : length a <= n).
      { rewrite E, !length_app in Hlen. unfold marker in Hlen. cbn in Hlen. lia. }
      destruct (IH a Ha) as (numbers & Hl & Hok & Hj & Hp).
      exists (number :: numbers). split; [cbn; lia|]. split; [cbn; now rewrite Hn|].
      split.
      * cbn [join_markers].
        pose proof (split_markers_pieces a) as Hu.
        destruct (split_markers a) as [|p ps] eqn:Es.
        { destruct (find_marker a) as [[? ?]|]; discriminate Hu. }
        rewrite Hj. now rewrite E.
      * cbn [forallb]. now rewrite Hb, Hp.
    + exists []. repeat split.
      * cbn. now rewrite app_nil_r.
      * cbn. now rewrite (find_marker_none s Hf).
Qed.

(** X11. Splitting a text at its markers loses nothing but the markers: the
    pieces joined again, with a marker [Q<number>:] of one or more digits
    between two successive pieces, are the text, and the marker pattern
    matches inside no piece. *)
Theorem split_markers_rejoin (s : jsstring) :
  exists numbers,
    length numbers + 1 = length (split_markers s)
    /\ forallb number_ok numbers = true
    /\ join_markers (split_markers s) numbers = s
    /\ forallb (fun piece => negb (has_marker piece)) (split_markers s) = true.
Proof. apply (split_markers_rejoin_bounded (length s)). lia. Qed.

Lemma parseQuizText_fields_trimmed_sample :
  let q := question_of 1 block_paris in
  In q (parseQuizText (document [] [Good block_paris]))
  /\ trim (question q) = question q.
Proof.
  assert (H : In (question_of 1 block_paris)
                 (parseQuizText (document [] [Good block_paris]))).
  { vm_compute. left. reflexivity. }
  split; [exact H|].
  destruct (parseQuizText_fields_trimmed (document [] [Good block_paris])
              (question_of 1 block_paris) H) as (Hq & _).
  exact Hq.
Defined.

End ParserMoreFacts.

(** * Properties of the earlier parser *)


Section LegacyParserFacts.
Import JS Marker Parser LegacyParser LegacyGrammar.

Lemma parse_lines_cons (l : jsstring) (rest : list jsstring) :
  parse_lines (l :: rest)
  = if startsWith l (lit "Q")
    then mkQuizQuestion (strip_marker l) (options_at (l :: rest)) (answer_at (l :: rest))
         :: parse_lines (skipn 5 rest)
    else parse_lines rest.
Proof. now rewrite parse_lines_equation_2. Qed.

Lemma options_at_shape (lines : list jsstring) :
  length (options_at lines) <= 4 /\ forall o, In o (options_at lines) -> trim o = o.
Proof.
  unfold options_at. cbn [flat_map]. rewrite app_nil_r.
  assert (H : forall o : nat,
             let piece := match nth_error lines o with
                          | Some l => if option_line l then [trim (substring 2 l)] else []
                          | None => []
                          end in
             length piece <= 1 /\ forall x, In x piece -> trim x = x).
  { intros o. cbn zeta. destruct (nth_error lines o) as [l|]; [|split; [cbn; lia|intros x []]].
    destruct (option_line l); [|split; [cbn; lia|intros x []]].
    split; [cbn; lia|]. intros x [<-|[]]. apply trim_idempotent. }
  destruct (H 1) as [L1 T1], (H 2) as [L2 T2], (H 3) as [L3 T3], (H 4) as [L4 T4].
  split.
  - rewrite !length_app. lia.
  - intros o Ho. repeat (apply in_app_or in Ho as [Ho|Ho]; [auto|]). auto.
Qed.

Lemma answer_at_shape (lines : list jsstring) :
  match answer_at lines with Some a => length a <= 1 | None => True end.
Proof.
  unfold answer_at. destruct (nth_error lines 5) as [l|]; [|cbn; lia].
  destruct (answer_line l); [|cbn; lia].
  destruct (trim (skipn 7 l)); [exact I|cbn; lia].
Qed.

Lemma parse_lines_shape (n : nat) (lines : list jsstring) :
  length lines <= n ->
  (forall q, In q (parse_lines lines) -> quiz_question_shaped q)
  /\ length (parse_lines lines)
     <= length (filter (fun l => startsWith l (lit "Q")) lines).
Proof.
  revert lines. induction n as [|n IH]; intros lines Hlen.
  - destruct lines; [|cbn in Hlen; lia]. rewrite parse_lines_equation_1.
    split; [intros q []|reflexivity].
  - destruct lines as [|l rest]; [rewrite parse_lines_equation_1; split;
                                  [intros q []|reflexivity]|].
    cbn in Hlen. rewrite parse_lines_cons. cbn [filter].
    destruct (startsWith l (lit "Q")).
    + assert (Hs : length (skipn 5 rest) <= n) by (rewrite length_skipn; lia).
      destruct (IH _ Hs) as [Hq Hc]. split.
      * intros q [<-|Hin]; [|now apply Hq].
        unfold quiz_question_shaped. cbn [qq_options qq_answer].
        destruct (options_at_shape (l :: rest)) as [Ho Ht].
        split; [exact Ho|]. split; [exact Ht|]. apply answer_at_shape.
      * cbn [length]. apply le_n_S. etransitivity; [exact Hc|].
        rewrite <- (firstn_skipn 5 rest) at 2. rewrite filter_app, length_app. lia.
    + apply IH. lia.
Qed.

(** X12. Whatever the text, every question of [parseAIQuizText] has at most
    four options, none with white space at either end, and an answer of at
    most one code unit; and there are at most as many questions as
    non-blank lines that start with [Q]. *)
Theorem parseAIQuizText_shape (quiz : jsstring) :
  (forall q, In q (parseAIQuizText quiz) ->
             length (qq_options q) <= 4
             /\ (forall o, In o (qq_options q) -> trim o = o)
             /\ match qq_answer q with
                | Some a => length a <= 1
                | None => True
                end)
  /\ length (parseAIQuizText quiz)
     <= length (filter (fun l => startsWith l (lit "Q")) (trimmed_lines quiz)).
Proof.
  unfold parseAIQuizText. fold (trimmed_lines quiz).
  apply (parse_lines_shape (length (trimmed_lines quiz))). lia.
Qed.

(** ** The two parsers on well-formed texts *)

Lemma trimmed_lines_app_LF (x y : jsstring) :
  trimmed_lines (x ++ LF :: y) = trimmed_lines x ++ trimmed_lines y.
Proof.
  unfold trimmed_lines. now rewrite split_app_separator, map_app, filter_app.
Qed.

Lemma trimEnd_app_keep (w u : jsstring) :
  trimEnd u <> [] -> trimEnd (w ++ u) = w ++ trimEnd u.
Proof.
  unfold trimEnd. intros H. rewrite rev_app_distr, trimStart_app.
  destruct (trimStart (rev u)) as [|c t] eqn:E; [now cbn in H|].
  now rewrite rev_app_distr, rev_involutive.
Qed.

Lemma trimEnd_all_ws (w : jsstring) : all_ws w = true -> trimEnd w = [].
Proof.
  intros H. unfold trimEnd. rewrite trimStart_all_ws; [reflexivity|].
  unfold all_ws in *. rewrite forallb_forall in *. intros x Hx. apply H.
  now apply in_rev.
Qed.

Lemma trimStart_trimEnd (s : jsstring) : trimStart (trimEnd s) = trim s.
Proof.
  destruct (trim_split s) as (w1 & w2 & H1 & H2 & E).
  rewrite E at 1. rewrite app_assoc, trimEnd_app_ws by exact H2.
  destruct (trim s) as [|c t] eqn:Et.
  - rewrite app_nil_r, trimEnd_all_ws by exact H1. reflexivity.
  - assert (Hend : trimEnd (c :: t) = c :: t).
    { rewrite <- Et. unfold trim. apply trimEnd_idempotent. }
    rewrite trimEnd_app_keep by (rewrite Hend; discriminate).
    rewrite Hend, trimStart_app, trimStart_all_ws by exact H1.
    assert (Hc : is_ws c = false).
    { unfold trim in Et. destruct (trimStart s) as [|c' t'] eqn:Es; [discriminate|].
      pose proof (trimStart_head s c' t' Es) as Hc'.
      rewrite trimEnd_cons_not_ws in Et by exact Hc'. now injection Et as <- _. }
    now apply trimStart_not_ws.
Qed.

Import Grammar LegacyGrammar.

Lemma trimmed_lines_core (b : Block) :
  well_formed b = true ->
  trimmed_lines (marker (b_number b) ++ block_core b)
  = (marker (b_number b) ++ trimEnd (b_question b)) :: tail_lines b.
Proof.
  intros Hwf.
  pose proof (trimmed_lines_block b Hwf) as Hbody.
  unfold well_formed in Hwf. rewrite !andb_true_iff in Hwf.
  destruct Hwf as [[[[[[[[[[[[[[[Hn Hq1] Hq2] _] _] _] _] _] _] _] _] _] _] _] Hws] _].
  unfold block_body in Hbody. rewrite trimmed_lines_app_ws_r in Hbody by exact Hws.
  unfold block_core in *.
  rewrite trimmed_lines_line in Hbody by now apply one_line_spec.
  unfold nonblank in Hq2. rewrite Hq2 in Hbody. cbn [app] in Hbody.
  injection Hbody as Htail. fold (tail_lines b) in Htail.
  rewrite app_assoc, trimmed_lines_line.
  - unfold number_ok in Hn. apply andb_prop in Hn as [Hne Hd].
    assert (Hsolid : solid (marker (b_number b)) = true).
    { unfold solid, marker. cbn [forallb]. rewrite forallb_app. cbn.
      rewrite andb_true_r. rewrite forallb_forall in *. intros x Hx.
      specialize (Hd x Hx). unfold is_digit in Hd. unfold is_ws.
      apply andb_prop in Hd as [H1 H2]. apply N.leb_le in H1, H2.
      repeat match goal with
             | |- context [(?a =? ?b)%N] =>
                 replace (a =? b)%N with false by (symmetry; apply N.eqb_neq; lia)
             | |- context [(?a <=? ?b)%N] =>
                 first [ replace (a <=? b)%N with false by (symmetry; apply N.leb_gt; lia)
                       | replace (a <=? b)%N with true by (symmetry; apply N.leb_le; lia) ]
             end.
      reflexivity. }
    pose proof (trim_solid_prefix 81%N (b_number b ++ [58%N]) (b_question b) Hsolid) as E.
    change (81%N :: b_number b ++ [58%N]) with (marker (b_number b)) in E.
    rewrite E. unfold marker at 1. cbn [truthy app]. f_equal. exact Htail.
  - unfold marker. cbn [app]. intros [H|H]; [discriminate H|].
    apply in_app_or in H as [H|H].
    + apply in_app_or in H as [H|[H|[]]]; [|discriminate H].
      unfold number_ok in Hn. apply andb_prop in Hn as [_ Hd].
      rewrite forallb_forall in Hd. specialize (Hd _ H). discriminate Hd.
    + now apply (one_line_spec (b_question b)).
Qed.

Lemma parse_lines_block (b : Block) (more : list jsstring) :
  well_formed b = true ->
  parse_lines (((marker (b_number b) ++ trimEnd (b_question b)) :: tail_lines b) ++ more)
  = legacy_question_of b :: parse_lines more.
Proof.
  intros Hwf. unfold well_formed in Hwf. rewrite !andb_true_iff in Hwf.
  destruct Hwf as [[[[[[[[[[[[[[[Hn _] _] _] _] _] _] _] _] _] _] _] Ha] _] _] _].
  cbn [app]. rewrite parse_lines_cons.
  replace (startsWith (marker (b_number b) ++ trimEnd (b_question b)) (lit "Q"))
    with true by reflexivity.
  unfold strip_marker. rewrite match_marker_marker by exact Hn.
  rewrite trimStart_trimEnd. unfold legacy_question_of. f_equal.
  - f_equal.
    + unfold options_at, tail_lines. cbn [flat_map nth_error app].
      replace (option_line (lit "A." ++ trimEnd (b_A b))) with true by reflexivity.
      replace (option_line (lit "B." ++ trimEnd (b_B b))) with true by reflexivity.
      replace (option_line (lit "C." ++ trimEnd (b_C b))) with true by reflexivity.
      replace (option_line (lit "D." ++ trimEnd (b_D b))) with true by reflexivity.
      change (substring 2 (lit "A." ++ trimEnd (b_A b))) with (trimEnd (b_A b)).
      change (substring 2 (lit "B." ++ trimEnd (b_B b))) with (trimEnd (b_B b)).
      change (substring 2 (lit "C." ++ trimEnd (b_C b))) with (trimEnd (b_C b)).
      change (substring 2 (lit "D." ++ trimEnd (b_D b))) with (trimEnd (b_D b)).
      cbn [app]. now rewrite !trim_trimEnd.
    + unfold answer_at, tail_lines. cbn [nth_error app].
      replace (answer_line (lit "Answer:" ++ trimEnd (b_answer b))) with true
        by (symmetry; apply jsstring_eqb_eq; reflexivity).
      change (skipn 7 (lit "Answer:" ++ trimEnd (b_answer b)))
        with (trimEnd (b_answer b)).
      rewrite trim_trimEnd. unfold nonblank in Ha.
      destruct (trim (b_answer b)); [discriminate Ha|reflexivity].
  - unfold tail_lines. destruct (b_explanation b) as [e|]; cbn [skipn app].
    + rewrite parse_lines_cons.
      replace (startsWith (lit "Explanation:" ++ trimEnd e) (lit "Q")) with false
        by reflexivity.
      reflexivity.
    + reflexivity.
Qed.

Lemma trimmed_lines_blocks (blocks : list Block) :
  forallb well_formed blocks = true ->
  separated blocks = true ->
  trimmed_lines (document [] (map Good blocks))
  = concat (map (fun b => (marker (b_number b) ++ trimEnd (b_question b)) :: tail_lines b)
                blocks).
Proof.
  unfold document. cbn [app].
  induction blocks as [|b blocks IH]; intros Hwf Hsep; [reflexivity|].
  cbn [forallb] in Hwf. apply andb_prop in Hwf as [Hb Hwf].
  cbn [map concat]. unfold render at 1. cbn [segment_number segment_body].
  assert (Hws : all_ws (b_trailing b) = true).
  { unfold well_formed in Hb. rewrite !andb_true_iff in Hb. tauto. }
  unfold block_body.
  destruct blocks as [|b' blocks].
  - cbn [map concat]. rewrite !app_nil_r, app_assoc.
    rewrite trimmed_lines_app_ws_r by exact Hws. now apply trimmed_lines_core.
  - cbn [separated] in Hsep. apply andb_prop in Hsep as [Hlf Hsep].
    apply existsb_exists in Hlf as (x & Hx & Hlf). apply N.eqb_eq in Hlf. subst x.
    apply in_split in Hx as (w1 & w2 & Ew). rewrite Ew in *.
    unfold all_ws in Hws. rewrite forallb_app in Hws. cbn [forallb] in Hws.
    apply andb_prop in Hws as [Hw1 Hw2]. apply andb_prop in Hw2 as [_ Hw2].
    replace ((marker (b_number b) ++ block_core b ++ w1 ++ LF :: w2)
             ++ concat (map render (map Good (b' :: blocks))))
      with (((marker (b_number b) ++ block_core b) ++ w1)
            ++ LF :: (w2 ++ concat (map render (map Good (b' :: blocks)))))
      by (rewrite <- !app_assoc; reflexivity).
    rewrite trimmed_lines_app_LF, (trimmed_lines_app_ws_r _ w1) by exact Hw1.
    rewrite (trimmed_lines_app_ws_l w2) by exact Hw2.
    rewrite trimmed_lines_core by exact Hb. f_equal. apply IH; [exact Hwf|exact Hsep].
Qed.

Lemma parse_lines_blocks (blocks : list Block) :
  forallb well_formed blocks = true ->
  parse_lines
    (concat (map (fun b => (marker (b_number b) ++ trimEnd (b_question b)) :: tail_lines b)
                 blocks))
  = map legacy_question_of blocks.
Proof.
  induction blocks as [|b blocks IH]; intros Hwf.
  - reflexivity.
  - cbn [forallb] in Hwf. apply andb_prop in Hwf as [Hb Hwf].
    cbn [map concat]. rewrite parse_lines_block by exact Hb. now rewrite IH.
Qed.

(** X13. On a text of well-formed blocks, each but the last followed by a
    line feed, the two parsers agree: the earlier one gives, block by block,
    the trimmed question, the four trimmed options and the first unit of the
    trimmed answer, which is what the later one gives once identifiers and
    explanations are dropped and the answer is cut to its first unit. *)
Theorem parsers_agree_on_well_formed_blocks (blocks : list Block) :
  forallb well_formed blocks = true ->
  separated blocks = true ->
  let quizText := document [] (map Good blocks) in
  parseAIQuizText quizText = map legacy_question_of blocks
  /\ map as_legacy (parseQuizText quizText) = parseAIQuizText quizText.
Proof.
  intros Hwf Hsep quizText.
  assert (E : parseAIQuizText quizText = map legacy_question_of blocks).
  { subst quizText. unfold parseAIQuizText. fold (trimmed_lines (document [] (map Good blocks))).
    rewrite trimmed_lines_blocks by assumption. now apply parse_lines_blocks. }
  split; [exact E|]. rewrite E. subst quizText.
  rewrite parseQuizText_document.
  - rewrite expected_good, map_map.
    clear. generalize 1 as index.
    induction blocks as [|b blocks IH]; intros index; [reflexivity|].
    cbn [length seq combine map]. f_equal. apply IH.
  - reflexivity.
  - rewrite <- Hwf. clear. induction blocks as [|b blocks IH]; [reflexivity|].
    cbn. now rewrite IH.
Qed.

Lemma parsers_agree_on_well_formed_blocks_sample :
  forallb well_formed [block_paris; block_berlin; block_rome] = true
  /\ separated [block_paris; block_berlin; block_rome] = true
  /\ map qq_answer (parseAIQuizText (document [] (map Good [block_paris; block_berlin;
                                                             block_rome])))
     = [Some (lit "B"); Some (lit "C"); Some (lit "A")].
Proof.
  split; [reflexivity|]. split; [reflexivity|].
  destruct (parsers_agree_on_well_formed_blocks [block_paris; block_berlin; block_rome]
              eq_refl eq_refl) as [E _].
  rewrite E. reflexivity.
Defined.

End LegacyParserFacts.

(** * Further properties of the extraction step *)

Section ExtractionFacts.
Import JS Api FileNames.

Lemma includes_images (ext : jsstring) :
  includes [lit "jpg"; lit "jpeg"; lit "png"] ext = image_ext ext.
Proof. unfold includes, image_ext. cbn [existsb]. now rewrite orb_false_r, orb_assoc. Qed.

Lemma allowed_cases (ext : jsstring) :
  includes ALLOWED_EXTENSIONS ext = true ->
  ext = lit "pdf" \/ ext = lit "docx" \/ ext = lit "txt" \/ ext = lit "rtf"
  \/ ext = lit "jpg" \/ ext = lit "jpeg" \/ ext = lit "png".
Proof.
  unfold includes, ALLOWED_EXTENSIONS. cbn [existsb].
  rewrite !orb_true_iff, !jsstring_eqb_eq. intuition discriminate.
Qed.

Lemma validateFile_allowed (file : UploadedFile) :
  validateFile file = Ok tt ->
  includes ALLOWED_EXTENSIONS (parseFileExt (filename_or_empty file)) = true.
Proof.
  unfold validateFile, filename_or_empty.
  destruct (originalFilename file) as [name|]; [|discriminate].
  destruct (truthy name); cbn [negb]; [|discriminate].
  destruct (includes ALLOWED_EXTENSIONS (parseFileExt name)); [reflexivity|discriminate].
Qed.

Ltac eff :=
  cbv [bind lift call ret throw try_catch try_finally fst snd]; cbn [app].

Lemma extractText_outcome_cases (w : World) (file : UploadedFile) :
  let ext := parseFileExt (filename_or_empty file) in
  match snd (extractText w file) with
  | Ok text =>
      blank text = false
      /\ validateFile file = Ok tt
      /\ readFileSync w = Ok tt
      /\ ((ext = lit "pdf" /\ pdfParse w = Ok text)
          \/ (ext = lit "docx" /\ extractRawText w = Ok text)
          \/ ((ext = lit "txt" \/ ext = lit "rtf") /\ utf8 w = text)
          \/ (image_ext ext = true /\ createWorker w = Ok tt
              /\ recognize w = Ok text /\ terminate w = Ok tt))
  | Throw message =>
      validateFile file = Throw message
      \/ (validateFile file = Ok tt /\ readFileSync w = Throw message)
      \/ (validateFile file = Ok tt /\ readFileSync w = Ok tt
          /\ exists inner,
               message = lit "Failed to extract text from " ++ toUpperCase ext
                         ++ lit ": " ++ inner)
  end.
Proof.
  intros ext. unfold extractText. fold ext.
  destruct (validateFile file) as [[]|m] eqn:Ev; eff;
    [|left; reflexivity].
  destruct (readFileSync w) as [[]|m] eqn:Er; eff;
    [|right; left; now split].
  destruct (JS.eqb ext (lit "pdf")) eqn:Epdf.
  { apply jsstring_eqb_eq in Epdf.
    destruct (pdfParse w) as [text|m] eqn:Ep; eff.
    - destruct (blank text) eqn:Eb; eff; eauto 10.
    - eauto 10. }
  destruct (JS.eqb ext (lit "docx")) eqn:Edocx.
  { apply jsstring_eqb_eq in Edocx.
    destruct (extractRawText w) as [text|m] eqn:Ep;
      eff.
    - destruct (blank text) eqn:Eb; eff; eauto 10.
    - eauto 10. }
  destruct (JS.eqb ext (lit "txt") || JS.eqb ext (lit "rtf")) eqn:Etxt.
  { apply orb_true_iff in Etxt. rewrite !jsstring_eqb_eq in Etxt.
    destruct (blank (utf8 w)) eqn:Eb; eff; eauto 10. }
  destruct (JS.eqb ext (lit "jpg") || JS.eqb ext (lit "jpeg") || JS.eqb ext (lit "png"))
    eqn:Eimg.
  { destruct (createWorker w) as [[]|m] eqn:Ec;
      eff; [|eauto 10].
    destruct (recognize w) as [text|m] eqn:Ep; [destruct (blank text) eqn:Eb|];
      destruct (terminate w) as [[]|m'] eqn:Et;
      eff; eauto 10. }
  eff. eauto 10.
Qed.

(** X14. [extractText] never returns blank text: a text it returns comes from
    a file that passed [validateFile] and was read, is the output of the one
    library its extension selects, and has a character that is not white
    space. An error it throws is [validateFile]'s own, the read's own, or
    starts with the prefix naming the upper-cased extension. *)
Theorem extractText_outcome (w : World) (file : UploadedFile) :
  let ext := parseFileExt (filename_or_empty file) in
  match snd (extractText w file) with
  | Ok text =>
      blank text = false
      /\ validateFile file = Ok tt
      /\ readFileSync w = Ok tt
      /\ ((ext = lit "pdf" /\ pdfParse w = Ok text)
          \/ (ext = lit "docx" /\ extractRawText w = Ok text)
          \/ ((ext = lit "txt" \/ ext = lit "rtf") /\ utf8 w = text)
          \/ (image_ext ext = true /\ createWorker w = Ok tt
              /\ recognize w = Ok text /\ terminate w = Ok tt))
  | Throw message =>
      validateFile file = Throw message
      \/ (validateFile file = Ok tt /\ readFileSync w = Throw message)
      \/ (validateFile file = Ok tt /\ readFileSync w = Ok tt
          /\ exists inner,
               message = lit "Failed to extract text from " ++ toUpperCase ext
                         ++ lit ": " ++ inner)
  end.
Proof. exact (extractText_outcome_cases w file). Qed.

Ltac trace_facts :=
  eff; repeat split; intros;
  cbn [app In hd_error last length worker_released existsb andb orb] in *;
  repeat match goal with
         | H : _ \/ _ |- _ => destruct H
         | H : False |- _ => destruct H
         end;
  try lia; try reflexivity; try assumption; try congruence.

(** X15. The calls of [extractText]: nothing is called before validation
    passes, the file is read first, a library is called only for its own
    extensions, at most four calls are made, and a worker that was created
    is terminated whatever recognition does and whatever text it gives. *)
Theorem extractText_calls (w : World) (file : UploadedFile) :
  let ext := parseFileExt (filename_or_empty file) in
  let t := fst (extractText w file) in
  (t <> [] -> validateFile file = Ok tt /\ hd_error t = Some ReadFileSync)
  /\ (In PdfParse t -> ext = lit "pdf")
  /\ (In ExtractRawText t -> ext = lit "docx")
  /\ (In CreateWorker t -> image_ext ext = true)
  /\ (In Recognize t -> createWorker w = Ok tt /\ last t ReadFileSync = Terminate)
  /\ (createWorker w = Ok tt -> worker_released t = true)
  /\ length t <= 4.
Proof.
  intros ext t. subst t. unfold extractText. fold ext. fold (image_ext ext).
  destruct (validateFile file) as [[]|m] eqn:Ev; eff; [|trace_facts].
  destruct (readFileSync w) as [[]|m] eqn:Er; eff; [|trace_facts].
  destruct (JS.eqb ext (lit "pdf")) eqn:Epdf.
  { apply jsstring_eqb_eq in Epdf.
    destruct (pdfParse w) as [text|m] eqn:Ep; [destruct (blank text)|]; trace_facts. }
  destruct (JS.eqb ext (lit "docx")) eqn:Edocx.
  { apply jsstring_eqb_eq in Edocx.
    destruct (extractRawText w) as [text|m] eqn:Ep; [destruct (blank text)|];
      trace_facts. }
  destruct (JS.eqb ext (lit "txt") || JS.eqb ext (lit "rtf")) eqn:Etxt.
  { destruct (blank (utf8 w)); trace_facts. }
  destruct (image_ext ext) eqn:Eimg.
  { destruct (createWorker w) as [[]|m] eqn:Ec.
    - destruct (recognize w) as [text|m] eqn:Ep; [destruct (blank text)|];
        destruct (terminate w) as [[]|m'] eqn:Et; trace_facts.
    - trace_facts. }
  trace_facts.
Qed.

(** X16. The revision with [validateFile] only restricts the earlier one: it
    returns a text with some trace exactly when the earlier revision returns
    that text with that trace, the file passes [validateFile] and the text is
    not blank. *)
Theorem extractText_restricts_legacy (w : World) (file : UploadedFile)
        (t : list Event) (text : jsstring) :
  extractText w file = (t, Ok text)
  <-> extractText_legacy w file = (t, Ok text)
      /\ validateFile file = Ok tt /\ blank text = false.
Proof.
  unfold extractText, extractText_legacy.
  rewrite includes_images. unfold image_ext.
  set (ext := parseFileExt (filename_or_empty file)).
  destruct (validateFile file) as [[]|m] eqn:Ev; eff.
  2:{ split; [discriminate|]. intros (_ & H & _). discriminate H. }
  destruct (readFileSync w) as [[]|m] eqn:Er; eff.
  2:{ split; [discriminate|]. intros (H & _). discriminate H. }
  destruct (JS.eqb ext (lit "pdf")).
  { destruct (pdfParse w) as [x|m]; eff.
    - destruct (blank x) eqn:Eb; eff.
      + split; [discriminate|]. intros ([= <- <-] & _ & H). congruence.
      + split; [intros [= <- <-]; auto|]. now intros ([= <- <-] & _).
    - split; [discriminate|]. intros (H & _). discriminate H. }
  destruct (JS.eqb ext (lit "docx")).
  { destruct (extractRawText w) as [x|m]; eff.
    - destruct (blank x) eqn:Eb; eff.
      + split; [discriminate|]. intros ([= <- <-] & _ & H). congruence.
      + split; [intros [= <- <-]; auto|]. now intros ([= <- <-] & _).
    - split; [discriminate|]. intros (H & _). discriminate H. }
  destruct (JS.eqb ext (lit "txt") || JS.eqb ext (lit "rtf")).
  { destruct (blank (utf8 w)) eqn:Eb; eff.
    - split; [discriminate|]. intros ([= <- <-] & _ & H). congruence.
    - split; [intros [= <- <-]; auto|]. now intros ([= <- <-] & _). }
  destruct (JS.eqb ext (lit "jpg") || JS.eqb ext (lit "jpeg") || JS.eqb ext (lit "png")).
  { destruct (createWorker w) as [[]|m];
      eff.
    2:{ split; [discriminate|]. intros (H & _). discriminate H. }
    destruct (recognize w) as [x|m];
      eff.
    - destruct (terminate w) as [[]|m'];
        destruct (blank x) eqn:Eb;
        eff.
      + split; [discriminate|]. intros ([= <- <-] & _ & H). congruence.
      + split; [intros [= <- <-]; auto|]. now intros ([= <- <-] & _).
      + split; [discriminate|]. intros (H & _). discriminate H.
      + split; [discriminate|]. intros (H & _). discriminate H.
    - destruct (terminate w) as [[]|m'];
        eff;
        (split; [discriminate|]; intros (H & _); discriminate H). }
  eff.
  split; [discriminate|]. intros (H & _). discriminate H.
Qed.

(** ** The extension of a file name *)

Lemma split_pieces_without_separator (sep : N) (s x : jsstring) :
  In x (split sep s) -> ~ In sep x.
Proof.
  revert x. induction s as [|c s IH]; intros x.
  - cbn. intros [<-|[]]. tauto.
  - cbn [split]. destruct (N.eqb_spec c sep) as [->|Hc].
    + intros [<-|H]; [tauto|now apply IH].
    + destruct (split sep s) as [|l ls] eqn:E.
      * intros [<-|[]]. intros [H|[]]. congruence.
      * intros [<-|H].
        -- intros [H|H]; [congruence|]. apply (IH l); [now left|exact H].
        -- apply IH. now right.
Qed.

Lemma pop_snoc (arr : list jsstring) (x : jsstring) : pop (arr ++ [x]) = Some x.
Proof. unfold pop. now rewrite rev_app_distr. Qed.

Lemma pop_In (arr : list jsstring) (x : jsstring) : pop arr = Some x -> In x arr.
Proof.
  unfold pop. destruct (rev arr) as [|y t] eqn:E; [discriminate|].
  intros [= <-]. apply in_rev. rewrite E. now left.
Qed.

Lemma lower_not_upper (c : N) : ((65 <=? lower c) && (lower c <=? 90))%N = false.
Proof.
  unfold lower. destruct ((65 <=? c) && (c <=? 90))%N eqn:E.
  - apply andb_prop in E as [H1 H2]. apply N.leb_le in H1, H2.
    apply andb_false_iff. right. apply N.leb_gt. lia.
  - exact E.
Qed.

Lemma lower_idempotent (c : N) : lower (lower c) = lower c.
Proof. unfold lower at 1. now rewrite lower_not_upper. Qed.

Lemma toLowerCase_idempotent (s : jsstring) : toLowerCase (toLowerCase s) = toLowerCase s.
Proof.
  unfold toLowerCase. rewrite map_map. apply map_ext. intros c. apply lower_idempotent.
Qed.

Lemma lower_dot (c : N) : lower c = 46%N -> c = 46%N.
Proof.
  unfold lower. destruct ((65 <=? c) && (c <=? 90))%N eqn:E; [|tauto].
  apply andb_prop in E as [H1 H2]. apply N.leb_le in H1, H2. lia.
Qed.

Lemma toLowerCase_without_dot (s : jsstring) : ~ In 46%N s -> ~ In 46%N (toLowerCase s).
Proof.
  intros H Hin. unfold toLowerCase in Hin. apply in_map_iff in Hin as (c & Hc & Hin).
  apply lower_dot in Hc. now subst c.
Qed.

Lemma parseFileExt_lower (fileName : jsstring) :
  exists last_, In last_ (split 46 fileName) /\ parseFileExt fileName = toLowerCase last_.
Proof.
  unfold parseFileExt. destruct (pop (split 46 fileName)) as [x|] eqn:E.
  - exists x. split; [now apply pop_In|]. cbn zeta. now destruct (toLowerCase x).
  - exfalso. unfold pop in E. destruct (rev (split 46 fileName)) eqn:Er; [|discriminate].
    apply (split_not_nil 46 fileName). rewrite <- (rev_involutive (split 46 fileName)).
    now rewrite Er.
Qed.

Lemma parseFileExt_not_upper (fileName : jsstring) (c : N) :
  In c (parseFileExt fileName) -> ((65 <=? c) && (c <=? 90))%N = false.
Proof.
  destruct (parseFileExt_lower fileName) as (x & _ & E). rewrite E.
  unfold toLowerCase. intros Hc. apply in_map_iff in Hc as (c' & <- & _).
  apply lower_not_upper.
Qed.

Lemma lower_ascii (c : N) : is_ascii c = true -> is_ascii (lower c) = true.
Proof.
  unfold is_ascii, lower. intros H. apply N.ltb_lt in H.
  destruct ((65 <=? c) && (c <=? 90))%N eqn:E; apply N.ltb_lt; [|exact H].
  apply andb_prop in E as [_ E]. apply N.leb_le in E. lia.
Qed.

Lemma parseFileExt_ascii (fileName : jsstring) :
  extension_ascii fileName = true -> ascii (parseFileExt fileName) = true.
Proof.
  unfold extension_ascii, parseFileExt.
  destruct (pop (split 46 fileName)) as [x|]; [|reflexivity].
  intros H. cbn zeta.
  assert (Hl : ascii (toLowerCase x) = true).
  { unfold ascii, toLowerCase in *. rewrite forallb_forall in *.
    intros c Hc. apply in_map_iff in Hc as (c' & <- & Hc). apply lower_ascii. now apply H. }
  now destruct (toLowerCase x).
Qed.

(** X17. For a file name whose part after the last dot (the whole name if it
    has no dot) is ASCII, where lower-casing is exactly the map of A to Z to
    a to z: [parseFileExt] gives what follows the last dot of the name, in
    lower case; its result is ASCII, has no dot and no upper-case letter, and
    is its own extension. *)
Theorem parseFileExt_after_last_dot (fileName : jsstring) :
  extension_ascii fileName = true ->
  (forall stem e, fileName = stem ++ 46%N :: e -> ~ In 46%N e ->
                  ascii e = true /\ parseFileExt fileName = toLowerCase e)
  /\ ascii (parseFileExt fileName) = true
  /\ ~ In 46%N (parseFileExt fileName)
  /\ (forall c, In c (parseFileExt fileName) -> ((65 <=? c) && (c <=? 90))%N = false)
  /\ parseFileExt (parseFileExt fileName) = parseFileExt fileName.
Proof.
  intros Hascii.
  destruct (parseFileExt_lower fileName) as (x & Hx & E).
  pose proof (split_pieces_without_separator _ _ _ Hx) as Hdot.
  assert (Hnodot : ~ In 46%N (parseFileExt fileName)).
  { rewrite E. now apply toLowerCase_without_dot. }
  split; [|split; [now apply parseFileExt_ascii|split; [exact Hnodot|split]]].
  - intros stem e -> He. unfold extension_ascii in Hascii. unfold parseFileExt.
    rewrite split_app_separator, (split_without_separator _ _ He), pop_snoc in *.
    split; [exact Hascii|]. cbn zeta. now destruct (toLowerCase e).
  - intros c Hc. now apply (parseFileExt_not_upper fileName).
  - rewrite parseFileExt_without_dot by exact Hnodot.
    rewrite E. apply toLowerCase_idempotent.
Qed.

Lemma parseFileExt_after_last_dot_sample :
  extension_ascii (lit "Report.final.PDF") = true
  /\ parseFileExt (lit "Report.final.PDF") = lit "pdf"
  /\ parseFileExt (parseFileExt (lit "Report.final.PDF")) = parseFileExt (lit "Report.final.PDF").
Proof.
  split; [reflexivity|].
  destruct (parseFileExt_after_last_dot (lit "Report.final.PDF") eq_refl)
    as (Hlast & _ & _ & _ & Hidem).
  split; [|exact Hidem].
  destruct (Hlast (lit "Report.final") (lit "PDF") eq_refl) as (_ & E).
  - cbn. intros [H|[H|[H|[]]]]; discriminate H.
  - exact E.
Defined.

End ExtractionFacts.

(** * The generation client and the request handler *)

(** * Properties of the generation client and of the handler *)

Section ServiceFacts.
Import JS Api FileNames Service Outcome.

Ltac served := cbv [andThen perform pure raise catching extraction parseForm fst snd]; cbn [app].

(** ** [String.prototype.includes] *)

Lemma string_includes_app_r (p s sub : jsstring) :
  string_includes s sub = true -> string_includes (p ++ s) sub = true.
Proof.
  intros H. induction p as [|c p IH]; [exact H|].
  cbn [app string_includes]. rewrite IH. apply orb_true_r.
Qed.

Lemma startsWith_barrier (c : N) (x b p : jsstring) :
  ~ In c p -> p <> [] -> startsWith (x ++ c :: b) p = startsWith x p.
Proof.
  revert x. induction p as [|q p IH]; intros x Hc Hp; [congruence|].
  destruct x as [|h x]; cbn [app startsWith].
  - destruct (N.eqb_spec c q) as [->|_]; [|reflexivity].
    exfalso. apply Hc. now left.
  - destruct p as [|q' p']; [now destruct x|].
    rewrite IH; [reflexivity| |discriminate].
    intros H. apply Hc. now right.
Qed.

Lemma string_includes_barrier (c : N) (x b p : jsstring) :
  ~ In c p -> p <> [] ->
  string_includes (x ++ c :: b) p = string_includes x p || string_includes b p.
Proof.
  intros Hc Hp. induction x as [|h x IH].
  - pose proof (startsWith_barrier c [] b p Hc Hp) as E. cbn [app] in E.
    cbn [app string_includes]. rewrite E.
    destruct p as [|q p]; [congruence|]. reflexivity.
  - cbn [app string_includes].
    change (h :: x ++ c :: b) with ((h :: x) ++ c :: b).
    rewrite (startsWith_barrier c (h :: x) b p Hc Hp), IH.
    now rewrite orb_assoc.
Qed.

Lemma string_includes_absent (c : N) (s p : jsstring) :
  ~ In c s -> string_includes s (c :: p) = false.
Proof.
  induction s as [|h s IH]; intros H; [reflexivity|].
  cbn [string_includes startsWith].
  destruct (N.eqb_spec h c) as [->|_]; [exfalso; apply H; now left|].
  cbn [andb orb]. apply IH. intros Hin. apply H. now right.
Qed.

Lemma string_includes_skip (c : N) (x s p : jsstring) :
  ~ In c x -> string_includes (x ++ s) (c :: p) = string_includes s (c :: p).
Proof.
  induction x as [|h x IH]; intros H; [reflexivity|].
  cbn [app string_includes startsWith].
  destruct (N.eqb_spec h c) as [->|_]; [exfalso; apply H; now left|].
  cbn [andb orb]. apply IH. intros Hin. apply H. now right.
Qed.

(** ** The generation client *)

Lemma generateQuiz_cases (w : Server) (text : jsstring) (n : N) (u : jsstring) :
  generateQuiz w text n u =
    if falsy (OPENAI_API_KEY (env w)) then ([], Throw NOT_CONFIGURED)
    else if blank text then ([], Throw NO_TEXT)
    else if length text <? 100 then ([], Throw TOO_SHORT)
    else ([Fetch (prompt text n)],
          match openai w with
          | Failed message => Throw (remap message)
          | Refused status detail => Throw (remap (refusal status detail))
          | Answered content =>
              if falsy (option_map trim content) then Throw EMPTY_RESPONSE
              else Ok (or_else (option_map trim content) [])
          end).
Proof.
  unfold generateQuiz.
  destruct (falsy (OPENAI_API_KEY (env w))); [reflexivity|].
  destruct (blank text); [reflexivity|].
  destruct (length text <? 100); [reflexivity|].
  unfold request, remap, refusal.
  destruct (openai w) as [m|status detail|content]; served.
  - now destruct (string_includes m (lit "quota")).
  - now destruct (string_includes _ (lit "quota")).
  - destruct (falsy (option_map trim content)); [|reflexivity].
    served. replace (string_includes (lit "OpenAI returned empty response") (lit "quota"))
      with false by (vm_compute; reflexivity).
    reflexivity.
Qed.

(** X18. [generateQuiz] fails fast: it sends a request, exactly one and with
    the prompt of the text, only when the key is configured and the text is
    neither blank nor shorter than 100 code units; otherwise it calls nothing
    and throws one of three fixed messages, whatever the endpoint would
    answer. *)
Theorem generateQuiz_fails_fast (w : Server) (text : jsstring) (n : N) (u : jsstring) :
  fst (generateQuiz w text n u)
  = (if ready w text then [Fetch (prompt text n)] else [])
  /\ (ready w text = false ->
      exists message,
        In message [NOT_CONFIGURED; NO_TEXT; TOO_SHORT]
        /\ forall reply,
             generateQuiz (mkServer (env w) (auth w) (upload w) (disk w) reply (unlink w))
                          text n u
             = ([], Throw message)).
Proof.
  unfold ready. split.
  - rewrite generateQuiz_cases.
    destruct (falsy (OPENAI_API_KEY (env w))); [reflexivity|].
    destruct (blank text); [reflexivity|].
    now destruct (length text <? 100).
  - intros H.
    destruct (falsy (OPENAI_API_KEY (env w))) eqn:Ek.
    { exists NOT_CONFIGURED. split; [now left|]. intros reply.
      rewrite generateQuiz_cases. cbn [env]. now rewrite Ek. }
    destruct (blank text) eqn:Eb.
    { exists NO_TEXT. split; [right; now left|]. intros reply.
      rewrite generateQuiz_cases. cbn [env]. now rewrite Ek, Eb. }
    destruct (length text <? 100) eqn:El; [|discriminate H].
    exists TOO_SHORT. split; [right; right; now left|]. intros reply.
    rewrite generateQuiz_cases. cbn [env]. now rewrite Ek, Eb, El.
Qed.

Lemma generateQuiz_fails_fast_sample :
  let w := mkServer (mkEnv (Some (lit "sk-test")) None) (Ok (Some (lit "user_1")))
                    (Ok None) (mkWorld (Ok tt) [] (Ok []) (Ok []) (Ok tt) (Ok []) (Ok tt))
                    (Answered (Some (lit "Q1: ?"))) (Ok tt) in
  ready w (lit "too short") = false
  /\ exists message,
       In message [NOT_CONFIGURED; NO_TEXT; TOO_SHORT]
       /\ generateQuiz w (lit "too short") 20 (lit "user_1") = ([], Throw message).
Proof.
  intros w. split; [reflexivity|].
  destruct (proj2 (generateQuiz_fails_fast w (lit "too short") 20 (lit "user_1")) eq_refl)
    as (message & Hin & H).
  exists message. split; [exact Hin|]. exact (H (openai w)).
Defined.

Lemma falsy_trimmed (content : option jsstring) :
  falsy (option_map trim content) = false ->
  exists c, content = Some c /\ trim c <> []
            /\ or_else (option_map trim content) [] = trim c.
Proof.
  destruct content as [c|]; [|discriminate]. cbn [option_map falsy or_else].
  intros H. exists c. destruct (trim c); [discriminate H|].
  repeat split. discriminate.
Qed.

(** X19. A quiz text that [generateQuiz] returns is the trimmed content of
    the first choice of the answer: it is not empty and has no white space
    at either end; and it was asked for with a text of at least 100 code
    units that is not blank. *)
Theorem generateQuiz_returns_trimmed_content
        (w : Server) (text : jsstring) (n : N) (u quiz : jsstring) :
  snd (generateQuiz w text n u) = Ok quiz ->
  quiz <> [] /\ trim quiz = quiz
  /\ (exists content, openai w = Answered (Some content) /\ quiz = trim content)
  /\ blank text = false /\ 100 <= length text
  /\ fst (generateQuiz w text n u) = [Fetch (prompt text n)].
Proof.
  rewrite generateQuiz_cases.
  destruct (falsy (OPENAI_API_KEY (env w))); [discriminate|].
  destruct (blank text); [discriminate|].
  destruct (length text <? 100) eqn:El; [discriminate|].
  apply Nat.ltb_ge in El. cbn [fst snd].
  destruct (openai w) as [m|status detail|content]; try discriminate.
  destruct (falsy (option_map trim content)) eqn:Ef; [discriminate|].
  intros [= <-]. destruct (falsy_trimmed content Ef) as (c & -> & Hc & E).
  rewrite E. repeat split; try assumption; try reflexivity.
  - apply trim_idempotent.
  - now exists c.
Qed.

Lemma generateQuiz_returns_trimmed_content_sample :
  let w := mkServer (mkEnv (Some (lit "sk-test")) None) (Ok (Some (lit "user_1")))
                    (Ok None) (mkWorld (Ok tt) [] (Ok []) (Ok []) (Ok tt) (Ok []) (Ok tt))
                    (Answered (Some (lit "  Q1: ?  "))) (Ok tt) in
  let text := concat (repeat (lit "0123456789") 10) in
  snd (generateQuiz w text 20 (lit "user_1")) = Ok (lit "Q1: ?")
  /\ trim (lit "Q1: ?") = lit "Q1: ?".
Proof.
  intros w text.
  assert (H : snd (generateQuiz w text 20 (lit "user_1")) = Ok (lit "Q1: ?"))
    by (vm_compute; reflexivity).
  split; [exact H|].
  exact (proj1 (proj2 (generateQuiz_returns_trimmed_content w text 20 (lit "user_1") _ H))).
Defined.

(** X20. The only error of [generateQuiz] that mentions a quota is its own
    fixed message: an error of the request whose message has the word is
    replaced by it, and so is a refusal whose detail has the word. *)
Theorem generateQuiz_quota_message (w : Server) (text : jsstring) (n : N) (u : jsstring) :
  (forall message,
     snd (generateQuiz w text n u) = Throw message ->
     string_includes message (lit "quota") = true ->
     message = QUOTA_EXCEEDED)
  /\ (forall status detail,
        ready w text = true ->
        openai w = Refused status (Some detail) ->
        string_includes detail (lit "quota") = true ->
        generateQuiz w text n u = ([Fetch (prompt text n)], Throw QUOTA_EXCEEDED)).
Proof.
  split.
  - intros message. rewrite generateQuiz_cases.
    assert (Hremap : forall m, remap m = message ->
                               string_includes message (lit "quota") = true ->
                               message = QUOTA_EXCEEDED).
    { intros m <-. unfold remap.
      destruct (string_includes m (lit "quota")) eqn:E; [reflexivity|congruence]. }
    destruct (falsy (OPENAI_API_KEY (env w))).
    { intros [= <-] H. vm_compute in H. discriminate H. }
    destruct (blank text).
    { intros [= <-] H. vm_compute in H. discriminate H. }
    destruct (length text <? 100).
    { intros [= <-] H. vm_compute in H. discriminate H. }
    cbn [snd]. destruct (openai w) as [m|status detail|content].
    + intros [= E]. now apply (Hremap m).
    + intros [= E]. now apply (Hremap (refusal status detail)).
    + destruct (falsy (option_map trim content)); [|discriminate].
      intros [= <-] H. vm_compute in H. discriminate H.
  - intros status detail Hready Hreply Hquota. unfold ready in Hready.
    rewrite !andb_true_iff, !negb_true_iff in Hready. destruct Hready as [[Hk Hb] Hl].
    rewrite generateQuiz_cases, Hk, Hb, Hl, Hreply. do 2 f_equal.
    unfold remap, refusal.
    replace (string_includes _ (lit "quota")) with true; [reflexivity|].
    symmetry. rewrite !app_assoc. apply string_includes_app_r.
    cbn [or_else]. destruct detail as [|c d]; [discriminate Hquota|exact Hquota].
Qed.

(** X21. Only the first 8000 code units of the text reach the endpoint: two
    texts longer than that which start with the same 8000 code units, and of
    which neither is blank, are sent with the same prompt and get the same
    outcome. *)
Theorem generateQuiz_reads_a_prefix (w : Server) (text1 text2 : jsstring)
        (n : N) (u : jsstring) :
  firstn SLICE_END text1 = firstn SLICE_END text2 ->
  SLICE_END < length text1 ->
  SLICE_END < length text2 ->
  blank text1 = false ->
  blank text2 = false ->
  prompt text1 n = prompt text2 n
  /\ generateQuiz w text1 n u = generateQuiz w text2 n u.
Proof.
  intros E H1 H2 Hb1 Hb2.
  assert (Hp : prompt text1 n = prompt text2 n).
  { unfold prompt. rewrite E.
    apply Nat.ltb_lt in H1, H2. now rewrite H1, H2. }
  split; [exact Hp|].
  rewrite !generateQuiz_cases, Hb1, Hb2, Hp.
  assert (Hs : 100 <= SLICE_END) by (unfold SLICE_END; lia).
  replace (length text1 <? 100) with false by (symmetry; apply Nat.ltb_ge; lia).
  replace (length text2 <? 100) with false by (symmetry; apply Nat.ltb_ge; lia).
  reflexivity.
Qed.

Lemma generateQuiz_reads_a_prefix_sample :
  let w := mkServer (mkEnv (Some (lit "sk-test")) None) (Ok (Some (lit "user_1")))
                    (Ok None) (mkWorld (Ok tt) [] (Ok []) (Ok []) (Ok tt) (Ok []) (Ok tt))
                    (Answered (Some (lit "Q1: ?"))) (Ok tt) in
  let text1 := repeat 97%N SLICE_END ++ lit "b" in
  let text2 := repeat 97%N SLICE_END ++ lit "cd" in
  text1 <> text2
  /\ generateQuiz w text1 20 (lit "user_1") = generateQuiz w text2 20 (lit "user_1").
Proof.
  intros w text1 text2. split.
  - intros H. apply (f_equal (@length N)) in H. vm_compute in H. discriminate H.
  - apply (generateQuiz_reads_a_prefix w text1 text2 20 (lit "user_1")).
    + vm_compute; reflexivity.
    + apply Nat.ltb_lt. vm_compute; reflexivity.
    + apply Nat.ltb_lt. vm_compute; reflexivity.
    + vm_compute; reflexivity.
    + vm_compute; reflexivity.
Defined.

(** ** The handler *)

Lemma handler_cases (w : Server) (method : jsstring) :
  handler w method =
    if negb (JS.eqb method (lit "POST")) then ([], METHOD_NOT_ALLOWED)
    else
      match auth w with
      | Throw message => ([GetAuth], on_error w message)
      | Ok userId =>
          if falsy userId then ([GetAuth], UNAUTHORIZED)
          else
            match upload w with
            | Throw message =>
                ([GetAuth; ParseForm], on_error w (lit "File upload failed: " ++ message))
            | Ok None => ([GetAuth; ParseForm], MISSING_FILE)
            | Ok (Some file) =>
                match extractText (disk w) file with
                | (t1, Throw message) => (reached t1, on_error w message)
                | (t1, Ok text) =>
                    match generateQuiz w text 20 (or_else userId []) with
                    | (t2, Throw message) => (reached t1 ++ t2, on_error w message)
                    | (t2, Ok quiz) =>
                        (reached t1 ++ t2 ++ [UnlinkSync (filepath file)],
                         success quiz (or_else userId []) file)
                    end
                end
            end
      end.
Proof.
  unfold handler, reached, success.
  destruct (negb (JS.eqb method (lit "POST"))); [reflexivity|]. served.
  destruct (auth w) as [userId|m]; [|reflexivity].
  destruct (falsy userId); [reflexivity|].
  destruct (upload w) as [[file|]|m]; served; try reflexivity.
  destruct (extractText (disk w) file) as [t1 [text|m]]; served; [|reflexivity].
  destruct (generateQuiz w text 20 (or_else userId [])) as [t2 [quiz|m]]; served;
    [|reflexivity].
  destruct (unlink w) as [[]|m]; served; reflexivity.
Qed.

Lemma on_error_status (w : Server) (message : jsstring) :
  In (status (on_error w message)) [400; 401; 500; 503]%N.
Proof.
  unfold on_error.
  repeat match goal with
         | |- context [if ?b then _ else _] => destruct b
         end; cbn; tauto.
Qed.

Lemma falsy_false (v : option jsstring) :
  falsy v = false -> exists u, v = Some u /\ u <> [] /\ or_else v [] = u.
Proof.
  destruct v as [[|c u]|]; try discriminate. intros _.
  exists (c :: u). repeat split. discriminate.
Qed.

Lemma post_or_not (method : jsstring) :
  negb (JS.eqb method (lit "POST")) = false <-> method = lit "POST".
Proof. now rewrite negb_false_iff, jsstring_eqb_eq. Qed.

Lemma generateQuiz_trace (w : Server) (text : jsstring) (n : N) (u : jsstring) :
  fst (generateQuiz w text n u) = []
  \/ fst (generateQuiz w text n u) = [Fetch (prompt text n)].
Proof.
  rewrite generateQuiz_cases.
  repeat match goal with
         | |- context [if ?b then _ else _] => destruct b
         end; cbn [fst]; tauto.
Qed.

Lemma no_unlink_before (t1 : list Event) (t2 : list Call) :
  t2 = [] \/ (exists p, t2 = [Fetch p]) ->
  existsb is_unlink (reached t1 ++ t2) = false.
Proof.
  intros H. rewrite existsb_app. apply orb_false_iff. split.
  - unfold reached. cbn [existsb is_unlink orb].
    induction t1 as [|e t1 IH]; [reflexivity|exact IH].
  - destruct H as [->|[p ->]]; reflexivity.
Qed.

(** X22. The handler turns a request away before it touches anything: a
    method other than POST is answered 405 with no call at all, a request
    without a user identifier is answered 401 after [getAuth] alone, and
    whenever the form is parsed, a file read, the endpoint asked or the
    upload removed, the method was POST and [getAuth] gave a user. *)
Theorem handler_gatekeeping (w : Server) (method : jsstring) :
  (method <> lit "POST" -> handler w method = ([], METHOD_NOT_ALLOWED))
  /\ (forall userId,
        method = lit "POST" -> auth w = Ok userId -> falsy userId = true ->
        handler w method = ([GetAuth], UNAUTHORIZED))
  /\ (forall c,
        In c (fst (handler w method)) -> c <> GetAuth ->
        method = lit "POST" /\ exists u, auth w = Ok (Some u) /\ u <> []).
Proof.
  rewrite handler_cases. split; [|split].
  - intros H. destruct (negb (JS.eqb method (lit "POST"))) eqn:E; [reflexivity|].
    apply post_or_not in E. contradiction.
  - intros userId Hm Ha Hf. apply post_or_not in Hm. now rewrite Hm, Ha, Hf.
  - intros c. destruct (negb (JS.eqb method (lit "POST"))) eqn:E; [intros []|].
    apply post_or_not in E.
    destruct (auth w) as [userId|m].
    + destruct (falsy userId) eqn:Ef.
      * intros [<-|[]] H. congruence.
      * intros _ _. split; [exact E|].
        destruct (falsy_false _ Ef) as (u & -> & Hu & _). now exists u.
    + intros [<-|[]] H. congruence.
Qed.

Lemma on_error_turned_away (w : Server) (message : jsstring) : turned_away (on_error w message).
Proof.
  unfold turned_away, on_error.
  repeat match goal with
         | |- context [if ?b then _ else _] => destruct b
         end; cbn [status body In]; split; eauto 10.
Qed.

(** Either the request is turned away, and then nothing is removed, or the whole
    chain went through. *)
Lemma handler_shape (w : Server) (method : jsstring) :
  (turned_away (snd (handler w method))
   /\ existsb is_unlink (fst (handler w method)) = false)
  \/ (exists file t1 text quiz u,
        method = lit "POST"
        /\ auth w = Ok (Some u) /\ u <> []
        /\ upload w = Ok (Some file)
        /\ extractText (disk w) file = (t1, Ok text)
        /\ generateQuiz w text 20 u = ([Fetch (prompt text 20)], Ok quiz)
        /\ handler w method
           = (reached t1 ++ [Fetch (prompt text 20); UnlinkSync (filepath file)],
              success quiz u file)).
Proof.
  assert (Hfixed : forall st error code,
             In st [400; 401; 405; 500; 503]%N ->
             turned_away (mkApiResponse st (Failure error code None))).
  { intros st error code H. split; [exact H|]. cbn [body]. eauto. }
  rewrite handler_cases.
  destruct (negb (JS.eqb method (lit "POST"))) eqn:Em.
  { left. split; [apply Hfixed; cbn; tauto|reflexivity]. }
  apply post_or_not in Em.
  destruct (auth w) as [userId|m] eqn:Ea.
  2:{ left. split; [apply on_error_turned_away|reflexivity]. }
  destruct (falsy userId) eqn:Ef.
  { left. split; [apply Hfixed; cbn; tauto|reflexivity]. }
  destruct (falsy_false _ Ef) as (u & -> & Hu & ->).
  destruct (upload w) as [[file|]|m] eqn:Eu.
  2:{ left. split; [apply Hfixed; cbn; tauto|reflexivity]. }
  2:{ left. split; [apply on_error_turned_away|reflexivity]. }
  destruct (extractText (disk w) file) as [t1 [text|m]] eqn:Ex.
  2:{ left. split; [apply on_error_turned_away|]. cbn [fst].
      rewrite <- (app_nil_r (reached t1)). apply no_unlink_before. now left. }
  pose proof (generateQuiz_trace w text 20 u) as Ht.
  destruct (generateQuiz w text 20 u) as [t2 [quiz|m]] eqn:Eg; cbn [fst] in Ht.
  2:{ left. split; [apply on_error_turned_away|]. cbn [fst].
      apply no_unlink_before. destruct Ht; eauto. }
  right. exists file, t1, text, quiz, u.
  assert (E2 : t2 = [Fetch (prompt text 20)]).
  { destruct Ht as [->|Ht]; [|exact Ht]. exfalso.
    rewrite generateQuiz_cases in Eg.
    repeat match type of Eg with
           | context [if ?b then _ else _] => destruct b
           end; discriminate Eg. }
  subst t2. repeat split; try assumption; reflexivity.
Qed.

(** X23. The upload is removed exactly when the answer is 200, and then as
    the last call; whether the removal succeeds changes nothing. On every
    error after the upload the file is left in place. The status is one of
    200, 400, 401, 405, 500 and 503. *)
Theorem handler_cleanup_only_on_success (w : Server) (method : jsstring) :
  let t := fst (handler w method) in
  let response := snd (handler w method) in
  (status response = 200%N <-> existsb is_unlink t = true)
  /\ (status response = 200%N ->
      exists file, upload w = Ok (Some file)
                   /\ last t GetAuth = UnlinkSync (filepath file))
  /\ In (status response) [200; 400; 401; 405; 500; 503]%N
  /\ (forall outcome,
        handler (mkServer (env w) (auth w) (upload w) (disk w) (openai w) outcome) method
        = handler w method).
Proof.
  cbv zeta. split; [|split; [|split]].
  4:{ intros outcome. rewrite !handler_cases. cbn [auth upload disk].
      destruct (negb (JS.eqb method (lit "POST"))); [reflexivity|].
      destruct (auth w) as [userId|m]; [|reflexivity].
      destruct (falsy userId); [reflexivity|].
      destruct (upload w) as [[file|]|m]; reflexivity. }
  all: destruct (handler_shape w method)
    as [((Hs & _) & Ht)|(file & t1 & text & quiz & u & _ & _ & _ & Eu & _ & _ & ->)].
  - split.
    + intros E. rewrite E in Hs. cbn in Hs. intuition discriminate.
    + rewrite Ht. discriminate.
  - cbn [fst snd]. split; [intros _|reflexivity].
    rewrite existsb_app. cbn. apply orb_true_r.
  - intros E. rewrite E in Hs. cbn in Hs. intuition discriminate.
  - intros _. exists file. split; [exact Eu|]. cbn [fst].
    change [Fetch (prompt text 20); UnlinkSync (filepath file)]
      with ([Fetch (prompt text 20)] ++ [UnlinkSync (filepath file)]).
    rewrite app_assoc. apply last_last.
  - cbn [In] in *. tauto.
  - cbn. tauto.
Qed.

(** X24. An answer with a quiz comes from the whole chain: the method was
    POST, [getAuth] gave the user named in the answer, a file was uploaded
    whose name is the one in the answer and whose extension, the file type
    of the answer, is an allowed one; its text was extracted and is not
    blank, the endpoint was asked once, for 20 questions, and the quiz is the
    trimmed content of its answer, not empty; the upload was removed last. *)
Theorem handler_success (w : Server) (method quiz u fileType fileName : jsstring) :
  body (snd (handler w method)) = Generated quiz u fileType fileName ->
  method = lit "POST"
  /\ auth w = Ok (Some u) /\ u <> []
  /\ quiz <> [] /\ trim quiz = quiz
  /\ (exists content, openai w = Answered (Some content) /\ quiz = trim content)
  /\ includes ALLOWED_EXTENSIONS fileType = true
  /\ exists file t1 text,
       upload w = Ok (Some file)
       /\ originalFilename file = Some fileName
       /\ fileType = parseFileExt fileName
       /\ extractText (disk w) file = (t1, Ok text)
       /\ blank text = false
       /\ handler w method
          = (reached t1 ++ [Fetch (prompt text 20); UnlinkSync (filepath file)],
             mkApiResponse 200 (Generated quiz u fileType fileName)).
Proof.
  intros Hbody.
  destruct (handler_shape w method)
    as [((_ & error & code & details & Hno) & _)
       |(file & t1 & text & quiz' & u' & Hm & Ha & Hu & Eu & Ex & Eg & E)].
  { congruence. }
  rewrite E in Hbody. cbn [snd success body] in Hbody.
  injection Hbody as Hq Hu' Hft Hfn. subst quiz' u'.
  pose proof (extractText_outcome_cases (disk w) file) as Hx.
  rewrite Ex in Hx. cbn [snd] in Hx. cbv zeta in Hx.
  destruct Hx as (Hblank & Hv & _ & _).
  pose proof (validateFile_allowed file Hv) as Hallowed.
  assert (Hname : originalFilename file = Some fileName
                  /\ filename_or_empty file = fileName).
  { unfold validateFile in Hv. unfold filename_or_empty in *.
    destruct (originalFilename file) as [[|c name]|]; try discriminate Hv.
    cbn [or_else truthy] in Hfn. subst fileName. now split. }
  destruct Hname as [Hname Hfile]. rewrite Hfile in *.
  rewrite generateQuiz_cases in Eg.
  destruct (falsy (OPENAI_API_KEY (env w))); [discriminate Eg|].
  rewrite Hblank in Eg.
  destruct (length text <? 100); [discriminate Eg|].
  destruct (openai w) as [m|st detail|content]; try discriminate Eg.
  destruct (falsy (option_map trim content)) eqn:Ef; [discriminate Eg|].
  injection Eg as Eq. destruct (falsy_trimmed content Ef) as (c & -> & Hc & Ec).
  rewrite Ec in Eq. subst quiz.
  repeat split; try assumption.
  - apply trim_idempotent.
  - now exists c.
  - now rewrite <- Hft.
  - exists file, t1, text. repeat split; try assumption; try congruence.
    rewrite E. unfold success. rewrite Hfile, Hname. cbn [or_else].
    subst fileType. destruct fileName; [|reflexivity].
    unfold validateFile in Hv. rewrite Hname in Hv. discriminate Hv.
Qed.

Lemma handler_success_sample :
  let file := mkUploadedFile (Some (lit "notes.txt")) (lit "/tmp/upload_1") (Some 400%N) in
  let w := mkServer (mkEnv (Some (lit "sk-test")) None) (Ok (Some (lit "user_1")))
                    (Ok (Some file))
                    (mkWorld (Ok tt) (concat (repeat (lit "0123456789") 10))
                             (Ok []) (Ok []) (Ok tt) (Ok []) (Ok tt))
                    (Answered (Some (lit "  Q1: ?  "))) (Throw (lit "EPERM")) in
  body (snd (handler w (lit "POST")))
  = Generated (lit "Q1: ?") (lit "user_1") (lit "txt") (lit "notes.txt")
  /\ openai w = Answered (Some (lit "  Q1: ?  "))
  /\ trim (lit "Q1: ?") = lit "Q1: ?".
Proof.
  intros file w.
  assert (H : body (snd (handler w (lit "POST")))
              = Generated (lit "Q1: ?") (lit "user_1") (lit "txt") (lit "notes.txt"))
    by (vm_compute; reflexivity).
  split; [exact H|]. split; [reflexivity|].
  exact (proj1 (proj2 (proj2 (proj2 (proj2
           (handler_success w (lit "POST") _ _ _ _ H)))))).
Defined.

(** ** How errors are classified *)

Lemma post_is_post : negb (JS.eqb (lit "POST") (lit "POST")) = false.
Proof. now apply post_or_not. Qed.

Lemma handler_uploaded (w : Server) (file : UploadedFile) (u : jsstring) :
  auth w = Ok (Some u) -> u <> [] -> upload w = Ok (Some file) ->
  handler w (lit "POST") =
    match extractText (disk w) file with
    | (t1, Throw message) => (reached t1, on_error w message)
    | (t1, Ok text) =>
        match generateQuiz w text 20 u with
        | (t2, Throw message) => (reached t1 ++ t2, on_error w message)
        | (t2, Ok quiz) =>
            (reached t1 ++ t2 ++ [UnlinkSync (filepath file)], success quiz u file)
        end
    end.
Proof.
  intros Ha Hu Eu. rewrite handler_cases, post_is_post, Ha, Eu.
  destruct u as [|c u]; [contradiction|]. reflexivity.
Qed.

Ltac absent :=
  first [ vm_compute; reflexivity
        | let H := fresh in
          intros H; vm_compute in H;
          solve [ discriminate H
                | repeat (destruct H as [H|H]; [discriminate H|]); destruct H ] ].

Lemma unsupported_includes (ext p : jsstring) :
  ~ In 46%N p -> ~ In 32%N p -> p <> [] ->
  string_includes (lit "Unsupported file type:") p = false ->
  string_includes (lit " Allowed: " ++ join (lit ", ") ALLOWED_EXTENSIONS) p = false ->
  string_includes (unsupported ext) p = string_includes ext p.
Proof.
  intros Hdot Hsp Hp Ha Hb. unfold unsupported.
  change (lit "Unsupported file type: " ++ ext ++ lit ". Allowed: "
          ++ join (lit ", ") ALLOWED_EXTENSIONS)
    with ((lit "Unsupported file type:" ++ 32%N :: ext)
          ++ 46%N :: (lit " Allowed: " ++ join (lit ", ") ALLOWED_EXTENSIONS)).
  rewrite (string_includes_barrier 46 _ _ p Hdot Hp).
  rewrite (string_includes_barrier 32 _ _ p Hsp Hp).
  rewrite Ha, Hb. cbn [orb]. apply orb_false_r.
Qed.

Lemma upper_absent (fileName : jsstring) (c : N) (p : jsstring) :
  ((65 <=? c) && (c <=? 90))%N = true ->
  string_includes (parseFileExt fileName) (c :: p) = false.
Proof.
  intros Hc. apply string_includes_absent. intros Hin.
  apply parseFileExt_not_upper in Hin. congruence.
Qed.

Lemma validateFile_unsupported (file : UploadedFile) (name : jsstring) :
  originalFilename file = Some name -> name <> [] ->
  includes ALLOWED_EXTENSIONS (parseFileExt name) = false ->
  validateFile file = Throw (unsupported (parseFileExt name)).
Proof.
  intros Hn Hne Hi. unfold validateFile. rewrite Hn.
  destruct name as [|c name]; [contradiction|]. cbn [truthy negb].
  now rewrite Hi.
Qed.

Lemma validateFile_nameless (file : UploadedFile) :
  falsy (originalFilename file) = true ->
  validateFile file = Throw (lit "File name is required").
Proof.
  unfold validateFile, falsy.
  destruct (originalFilename file) as [name|]; [|reflexivity].
  intros H. now rewrite H.
Qed.

(** X25. What the handler answers when [validateFile] refuses the name of
    the upload. Without a file name the answer is 400 [FILE_ERROR], the
    message [File name is required] having the word [File]. With a name
    whose extension is ASCII and not an allowed one, the message
    ([Unsupported file type: ...], in lower case) has neither [File] nor any
    of the other words the handler looks for, so the answer is 500 with the
    generic message; only an extension that has the word [upload] in it
    gives 400, and one with the word [quota] 503. In both cases nothing is
    read. *)
Theorem handler_unsupported_type (w : Server) (file : UploadedFile) (u : jsstring) :
  auth w = Ok (Some u) -> u <> [] ->
  upload w = Ok (Some file) ->
  (falsy (originalFilename file) = true ->
   handler w (lit "POST")
   = ([GetAuth; ParseForm],
      mkApiResponse 400 (Failure (lit "File name is required") (lit "FILE_ERROR") None)))
  /\ (forall name,
        originalFilename file = Some name -> name <> [] ->
        extension_ascii name = true ->
        includes ALLOWED_EXTENSIONS (parseFileExt name) = false ->
        let ext := parseFileExt name in
        handler w (lit "POST")
        = ([GetAuth; ParseForm],
           if string_includes ext (lit "upload")
           then mkApiResponse 400 (Failure (unsupported ext) (lit "FILE_ERROR") None)
           else if string_includes ext (lit "quota") then service_error (unsupported ext)
           else internal_error w (unsupported ext))).
Proof.
  intros Ha Hu Eu. rewrite (handler_uploaded w file u Ha Hu Eu). split.
  - intros Hn. unfold extractText. rewrite (validateFile_nameless file Hn).
    cbv [bind lift fst snd]. unfold reached. cbn [map]. f_equal.
  - intros name Hn Hne _ Hi ext.
    unfold extractText. rewrite (validateFile_unsupported file name Hn Hne Hi).
    cbv [bind lift fst snd]. unfold reached. cbn [map].
    f_equal. unfold on_error. fold ext.
    rewrite !unsupported_includes by absent.
    assert (H1 : string_includes ext (lit "Authentication") = false)
      by (apply (upper_absent name 65%N (lit "uthentication")); reflexivity).
    assert (H2 : string_includes ext (lit "Unauthorized") = false)
      by (apply (upper_absent name 85%N (lit "nauthorized")); reflexivity).
    assert (H3 : string_includes ext (lit "File") = false)
      by (apply (upper_absent name 70%N (lit "ile")); reflexivity).
    assert (H4 : string_includes ext (lit "OpenAI") = false)
      by (apply (upper_absent name 79%N (lit "penAI")); reflexivity).
    rewrite H1, H2, H3, H4. cbn [orb].
    destruct (string_includes ext (lit "upload")); [reflexivity|].
    destruct (string_includes ext (lit "quota")); reflexivity.
Qed.

Lemma handler_unsupported_type_sample :
  let file := mkUploadedFile (Some (lit "setup.EXE")) (lit "/tmp/upload_1") (Some 400%N) in
  let w := mkServer (mkEnv (Some (lit "sk-test")) None) (Ok (Some (lit "user_1")))
                    (Ok (Some file))
                    (mkWorld (Ok tt) [] (Ok []) (Ok []) (Ok tt) (Ok []) (Ok tt))
                    (Answered (Some (lit "Q1: ?"))) (Ok tt) in
  extension_ascii (lit "setup.EXE") = true
  /\ includes ALLOWED_EXTENSIONS (parseFileExt (lit "setup.EXE")) = false
  /\ handler w (lit "POST")
     = ([GetAuth; ParseForm],
        mkApiResponse 500 (Failure (lit "Internal server error. Please try again.")
                                (lit "INTERNAL_ERROR") None)).
Proof.
  intros file w. split; [reflexivity|]. split; [reflexivity|].
  rewrite (proj2 (handler_unsupported_type w file (lit "user_1")
                    eq_refl ltac:(discriminate) eq_refl)
                 (lit "setup.EXE") eq_refl ltac:(discriminate) eq_refl eq_refl).
  vm_compute. reflexivity.
Defined.

Lemma on_error_unrecognised (w : Server) (message : jsstring) :
  string_includes message (lit "Authentication") = false ->
  string_includes message (lit "Unauthorized") = false ->
  string_includes message (lit "File") = false ->
  string_includes message (lit "upload") = false ->
  string_includes message (lit "OpenAI") = false ->
  string_includes message (lit "quota") = false ->
  on_error w message = internal_error w message.
Proof.
  intros H1 H2 H3 H4 H5 H6. unfold on_error. now rewrite H1, H2, H3, H4, H5, H6.
Qed.

Ltac unrecognised := apply on_error_unrecognised; vm_compute; reflexivity.

Ltac decide_extension :=
  repeat match goal with
         | |- context [JS.eqb (lit ?a) (lit ?b)] =>
             let v := eval vm_compute in (JS.eqb (lit a) (lit b)) in
             change (JS.eqb (lit a) (lit b)) with v
         end;
  cbn [orb].

(** X26. A document with no text is not answered as a file error either.
    The file passes [validateFile] and is read. When the library of its
    extension gives a blank text (for an image: the worker is created,
    recognition gives a blank text and [terminate] succeeds), the message of
    [extractText] has none of the words the handler looks for, so the answer
    is 500 with the generic message; the endpoint is not asked and the
    upload is not removed. For an image whose [terminate] throws, the error
    of [terminate] replaces any other, [extractText] wraps it, and the answer
    is what the handler makes of that message. *)
Theorem handler_blank_document (w : Server) (file : UploadedFile) (u : jsstring) :
  auth w = Ok (Some u) -> u <> [] ->
  upload w = Ok (Some file) ->
  validateFile file = Ok tt ->
  readFileSync (disk w) = Ok tt ->
  let ext := parseFileExt (filename_or_empty file) in
  (blank_document (disk w) ext ->
   exists t message,
     handler w (lit "POST") = (reached t, internal_error w message)
     /\ existsb is_fetch (reached t) = false
     /\ existsb is_unlink (reached t) = false)
  /\ (image_ext ext = true -> createWorker (disk w) = Ok tt ->
      forall message,
        terminate (disk w) = Throw message ->
        handler w (lit "POST")
        = (reached [ReadFileSync; CreateWorker; Recognize; Terminate],
           on_error w (lit "Failed to extract text from " ++ toUpperCase ext
                       ++ lit ": " ++ message))).
Proof.
  intros Ha Hu Eu Hv Hr ext.
  rewrite (handler_uploaded w file u Ha Hu Eu).
  unfold extractText. rewrite Hv, Hr. fold ext. split.
  - intros Hblank.
    destruct Hblank as [(E & text & Ht & Hb)|[(E & text & Ht & Hb)
                       |[(E & Hb)|(E & Hc & Hterm & text & Ht & Hb)]]].
    + rewrite E, Ht. decide_extension. cbv [bind lift call fst snd].
      rewrite Hb. cbv [bind lift call ret throw try_catch fst snd]. cbn [app].
      eexists _, _. split; [f_equal; unrecognised|]. split; reflexivity.
    + rewrite E, Ht. decide_extension. cbv [bind lift call fst snd].
      rewrite Hb. cbv [bind lift call ret throw try_catch fst snd]. cbn [app].
      eexists _, _. split; [f_equal; unrecognised|]. split; reflexivity.
    + rewrite Hb. destruct E as [E|E]; rewrite E; decide_extension;
        cbv [bind lift call ret throw try_catch fst snd]; cbn [app];
        (eexists _, _; split; [f_equal; unrecognised|]; split; reflexivity).
    + rewrite Hc, Hterm, Ht. unfold image_ext in E.
      rewrite !orb_true_iff, !jsstring_eqb_eq in E.
      destruct E as [[E|E]|E]; rewrite E; decide_extension;
        cbv [bind lift call fst snd]; rewrite Hb;
        cbv [bind lift call ret throw try_catch try_finally fst snd]; cbn [app];
        (eexists _, _; split; [f_equal; unrecognised|]; split; reflexivity).
  - intros E Hc message Hterm. rewrite Hc, Hterm. unfold image_ext in E.
    rewrite !orb_true_iff, !jsstring_eqb_eq in E.
    destruct E as [[E|E]|E]; rewrite E; decide_extension;
      cbv [bind lift call fst snd];
      (destruct (recognize (disk w)) as [text|m']; [destruct (blank text)|]);
      cbv [bind lift call ret throw try_catch try_finally fst snd]; cbn [app];
      reflexivity.
Qed.

Lemma handler_blank_document_sample :
  let file := mkUploadedFile (Some (lit "notes.txt")) (lit "/tmp/upload_1") (Some 3%N) in
  let w := mkServer (mkEnv (Some (lit "sk-test")) None) (Ok (Some (lit "user_1")))
                    (Ok (Some file))
                    (mkWorld (Ok tt) (lit "   ") (Ok []) (Ok []) (Ok tt) (Ok []) (Ok tt))
                    (Answered (Some (lit "Q1: ?"))) (Ok tt) in
  validateFile file = Ok tt
  /\ blank_document (disk w) (parseFileExt (filename_or_empty file))
  /\ exists t message, handler w (lit "POST") = (reached t, internal_error w message).
Proof.
  intros file w. split; [reflexivity|].
  assert (Hb : blank_document (disk w) (parseFileExt (filename_or_empty file))).
  { right. right. left. split; [left; reflexivity|reflexivity]. }
  split; [exact Hb|].
  destruct (proj1 (handler_blank_document w file (lit "user_1")
                     eq_refl ltac:(discriminate) eq_refl eq_refl eq_refl) Hb)
    as (t & message & E & _).
  now exists t, message.
Defined.

(** A blank image whose worker fails to terminate with a message that has
    the word [File] is answered as a file error. *)
Remark handler_blank_image_terminate_throws :
  let file := mkUploadedFile (Some (lit "scan.png")) (lit "/tmp/upload_1") (Some 3%N) in
  let w := mkServer (mkEnv (Some (lit "sk-test")) None) (Ok (Some (lit "user_1")))
                    (Ok (Some file))
                    (mkWorld (Ok tt) [] (Ok []) (Ok []) (Ok tt) (Ok (lit "  "))
                             (Throw (lit "File handle closed")))
                    (Answered (Some (lit "Q1: ?"))) (Ok tt) in
  handler w (lit "POST")
  = (reached [ReadFileSync; CreateWorker; Recognize; Terminate],
     mkApiResponse 400
       (Failure (lit "Failed to extract text from PNG: File handle closed")
                (lit "FILE_ERROR") None)).
Proof. vm_compute. reflexivity. Qed.

(** X27. After the text is extracted: without a configured key the answer is
    503 with the message about the key, and a text shorter than 100 code
    units is answered 500 with the generic message; in both cases the
    endpoint is not asked and the upload stays. These are the only two ways
    for [generateQuiz] to fail here without asking the endpoint: its check
    for a blank text never fires, since [extractText] returns no blank
    text. *)
Theorem handler_generation_errors (w : Server) (file : UploadedFile)
        (u : jsstring) (t1 : list Event) (text : jsstring) :
  auth w = Ok (Some u) -> u <> [] ->
  upload w = Ok (Some file) ->
  extractText (disk w) file = (t1, Ok text) ->
  (falsy (OPENAI_API_KEY (env w)) = true ->
   handler w (lit "POST") = (reached t1, service_error NOT_CONFIGURED))
  /\ (falsy (OPENAI_API_KEY (env w)) = false -> length text < 100 ->
      handler w (lit "POST") = (reached t1, internal_error w TOO_SHORT))
  /\ (fst (generateQuiz w text 20 u) = [] ->
      snd (generateQuiz w text 20 u) = Throw NOT_CONFIGURED
      \/ snd (generateQuiz w text 20 u) = Throw TOO_SHORT).
Proof.
  intros Ha Hu Eu Ex.
  pose proof (extractText_outcome_cases (disk w) file) as Hx.
  rewrite Ex in Hx. cbn [snd] in Hx. cbv zeta in Hx. destruct Hx as (Hblank & _).
  rewrite (handler_uploaded w file u Ha Hu Eu), Ex, generateQuiz_cases, Hblank.
  split; [|split].
  - intros Hk. rewrite Hk. rewrite app_nil_r. f_equal.
  - intros Hk Hl. rewrite Hk. apply Nat.ltb_lt in Hl. rewrite Hl.
    rewrite app_nil_r. f_equal.
  - destruct (falsy (OPENAI_API_KEY (env w))); [now left|].
    destruct (length text <? 100); [now right|]. discriminate.
Qed.

Lemma handler_generation_errors_sample :
  let file := mkUploadedFile (Some (lit "notes.txt")) (lit "/tmp/upload_1") (Some 5%N) in
  let w := mkServer (mkEnv None None) (Ok (Some (lit "user_1")))
                    (Ok (Some file))
                    (mkWorld (Ok tt) (lit "hello") (Ok []) (Ok []) (Ok tt) (Ok []) (Ok tt))
                    (Answered (Some (lit "Q1: ?"))) (Ok tt) in
  extractText (disk w) file = ([ReadFileSync], Ok (lit "hello"))
  /\ handler w (lit "POST") = (reached [ReadFileSync], service_error NOT_CONFIGURED).
Proof.
  intros file w.
  assert (Ex : extractText (disk w) file = ([ReadFileSync], Ok (lit "hello")))
    by (vm_compute; reflexivity).
  split; [exact Ex|].
  exact (proj1 (handler_generation_errors w file (lit "user_1") _ _
                  eq_refl ltac:(discriminate) eq_refl Ex) eq_refl).
Defined.

End ServiceFacts.
